(** * automatisation_rapport: filling Word report templates

    A shallow embedding of [remplace_rapport.py] (placeholder scan,
    substitution, pruning of empty SIM tables, heading decisions, inline image
    markers) and of the [/generate] route of [app.py], followed by the
    properties of the specification that were checked against them.

    The document is the tree python-docx exposes to the program: section
    headers and a body, each a sequence of paragraphs and tables; a table is
    rows of cells, a cell holds paragraphs, a paragraph holds runs.  A
    character is an [ascii] (a code point below 256), a Python [str] is a
    [string], the ordered [dict] of the mapping is an association list in
    insertion order, the other dicts are [gmap]s and the [set] of seen
    placeholders is a [gset]. *)

From Stdlib Require Import String Ascii List Bool Arith Lia QArith DecimalString.
From stdpp Require Import gmap strings list.

Set Default Proof Using "Type".

(** ** Python string primitives used by the program *)

Module PyStr.

(** [sub in s] *)
Fixpoint contains (sub s : string) : bool :=
  String.prefix sub s
  || match s with
     | EmptyString => false
     | String _ s' => contains sub s'
     end.

(** [s.startswith(pre)] *)
Definition startswith (s pre : string) : bool := String.prefix pre s.

(** [s.replace("", new)]: [new] before every character and at the end. *)
Fixpoint replace_empty (new s : string) : string :=
  match s with
  | EmptyString => new
  | String c s' => new +:+ String c (replace_empty new s')
  end.

(** [s.replace(old, new)] for a non-empty [old]: the occurrences are taken
    from the left and do not overlap; [skip] counts the characters of the
    occurrence just replaced that are still to be passed over. *)
Fixpoint replace_from (skip : nat) (old new s : string) : string :=
  match s with
  | EmptyString => EmptyString
  | String c s' =>
      match skip with
      | S k => replace_from k old new s'
      | O =>
          if String.prefix old s
          then new +:+ replace_from (String.length old - 1) old new s'
          else String c (replace_from 0 old new s')
      end
  end.

(** [s.replace(old, new)] *)
Definition replace (s old new : string) : string :=
  match old with
  | EmptyString => replace_empty new s
  | String _ _ => replace_from 0 old new s
  end.

(** [c.isspace()] for the code points below 256: tab, line feed, vertical
    tab, form feed, carriage return, the four separators 28..31, space,
    NEL (133) and the no-break space (160). *)
Definition isspace (c : ascii) : bool :=
  let n := nat_of_ascii c in
  ((9 <=? n) && (n <=? 13)) || ((28 <=? n) && (n <=? 32))
  || (n =? 133) || (n =? 160).

Fixpoint lstrip (s : string) : string :=
  match s with
  | EmptyString => EmptyString
  | String c s' => if isspace c then lstrip s' else s
  end.

Fixpoint rstrip (s : string) : string :=
  match s with
  | EmptyString => EmptyString
  | String c s' =>
      match rstrip s' with
      | EmptyString => if isspace c then EmptyString else String c EmptyString
      | r => String c r
      end
  end.

(** [s.strip()] *)
Definition strip (s : string) : string := rstrip (lstrip s).

(** [sep.join(parts)] *)
Definition join (sep : string) (parts : list string) : string :=
  String.concat sep parts.

(** [s] without its first [n] characters. *)
Fixpoint drop (n : nat) (s : string) : string :=
  match n, s with
  | S k, String _ s' => drop k s'
  | _, _ => s
  end.

(** [s.endswith(suf)] *)
Definition endswith (s suf : string) : bool :=
  (String.length suf <=? String.length s)
  && String.eqb (drop (String.length s - String.length suf) s) suf.

(** Truth value of a string: [if s:] holds for the non-empty ones. *)
Definition truthy (s : string) : bool :=
  match s with
  | EmptyString => false
  | String _ _ => true
  end.

(** Longest prefix of [s] whose characters satisfy [p], and the rest. *)
Fixpoint span (p : ascii -> bool) (s : string) : string * string :=
  match s with
  | EmptyString => (EmptyString, EmptyString)
  | String c s' =>
      if p c then let '(a, b) := span p s' in (String c a, b)
      else (EmptyString, s)
  end.

End PyStr.

(** ** The two regular expressions

    [PLACEHOLDER_PATTERN = \{[^{}]+\}] and
    [IMAGE_MARKER = \[\[\s*IMG\s*:\s*([^\]]+?)\s*\]\]], each with the one
    operation the program calls on it. *)

Module Regex.

Definition is_brace (c : ascii) : bool :=
  (Ascii.eqb c "{" || Ascii.eqb c "}")%char.

(** A match of [PLACEHOLDER_PATTERN] at the start of [s]: an opening brace,
    the longest run of characters other than braces, which must not be
    empty, and a closing brace. *)
Definition match_placeholder (s : string) : option string :=
  match s with
  | String c s1 =>
      if Ascii.eqb c "{"%char then
        match PyStr.span (fun c => negb (is_brace c)) s1 with
        | (body, String c' _) =>
            if Ascii.eqb c' "}"%char && PyStr.truthy body
            then Some (String "{"%char (body +:+ "}"))
            else None
        | _ => None
        end
      else None
  | EmptyString => None
  end.

(** Scan from the left; after a match the scan resumes behind it. *)
Fixpoint findall_from (skip : nat) (s : string) : list string :=
  match s with
  | EmptyString => []
  | String _ s' =>
      match skip with
      | S k => findall_from k s'
      | O =>
          match match_placeholder s with
          | Some ph => ph :: findall_from (String.length ph - 1) s'
          | None => findall_from 0 s'
          end
      end
  end.

(** [PLACEHOLDER_PATTERN.findall(s)] *)
Definition findall_placeholders (s : string) : list string :=
  findall_from 0 s.

(** [lit] is read at the start of [s]: what follows it. *)
Definition eat (lit s : string) : option string :=
  if String.prefix lit s then Some (PyStr.drop (String.length lit) s) else None.

(** The greedy [\s*] in front of a character that is not a blank. *)
Definition skip_spaces (s : string) : string := PyStr.lstrip s.

Definition not_rbracket (c : ascii) : bool := negb (Ascii.eqb c "]"%char).

(** The group [([^\]]+?)] between the greedy [\s*] in front of it and the
    [\s*] behind it, on the run [r] of characters up to the first closing
    bracket: the blanks at both ends go to the two [\s*]; when [r] is all
    blanks the first [\s*] gives back its last character, which is the
    least the group needs. *)
Definition marker_group (r : string) : string :=
  match PyStr.strip r with
  | EmptyString =>
      match r with
      | EmptyString => EmptyString
      | String _ _ => PyStr.drop (String.length r - 1) r
      end
  | g => g
  end.

(** A match of [IMAGE_MARKER] at the start of [s]: the captured group and
    the length of the whole match. *)
Definition match_marker (s : string) : option (string * nat) :=
  match eat "[[" s with
  | None => None
  | Some s1 =>
      match eat "IMG" (skip_spaces s1) with
      | None => None
      | Some s2 =>
          match eat ":" (skip_spaces s2) with
          | None => None
          | Some s3 =>
              let '(r, s4) := PyStr.span not_rbracket s3 in
              match r, eat "]]" s4 with
              | String _ _, Some s5 =>
                  Some (marker_group r, String.length s - String.length s5)
              | _, _ => None
              end
          end
      end
  end.

(** [IMAGE_MARKER.split(s)]: the text before the first match, its group,
    the text up to the next match, its group, ..., the text after the last
    match.  [cur] is the text read since the last match, reversed. *)
Fixpoint split_from (skip : nat) (cur : list ascii) (s : string) : list string :=
  match s with
  | EmptyString => [string_of_list_ascii (rev cur)]
  | String c s' =>
      match skip with
      | S k => split_from k cur s'
      | O =>
          match match_marker s with
          | Some (g, n) =>
              string_of_list_ascii (rev cur) :: g :: split_from (n - 1) [] s'
          | None => split_from 0 (c :: cur) s'
          end
      end
  end.

(** [IMAGE_MARKER.split(s)] *)
Definition split_markers (s : string) : list string := split_from 0 [] s.

End Regex.

(** ** The document tree *)

(** A run carries text or an embedded picture (file and width in inches). *)
Inductive run : Type :=
  | RunText (t : string)
  | RunPicture (file : string) (width : Q).

(** [run.text]: a picture has none. *)
Definition run_text (r : run) : string :=
  match r with
  | RunText t => t
  | RunPicture _ _ => EmptyString
  end.

(** [style] is the name of the paragraph style, [None] when there is none. *)
Record paragraph : Type := Paragraph { style : option string; runs : list run }.

(** [paragraph.text] *)
Definition text (p : paragraph) : string :=
  PyStr.join EmptyString (map run_text (runs p)).

(** A table is the rows [table.rows] gives, a row the cells [row.cells]
    gives, a cell the paragraphs [cell.paragraphs] gives; no cell is merged
    with another, so that each is met once. *)
Definition cell : Type := list paragraph.
Definition row : Type := list cell.
Definition table : Type := list row.

(** [cell.text]: the texts of its paragraphs, one per line. *)
Definition cell_text (c : cell) : string := PyStr.join (String "010"%char EmptyString) (map text c).

(** A child of the body or of a header that python-docx shows. *)
Inductive block : Type :=
  | BParagraph (p : paragraph)
  | BTable (t : table).

(** [.paragraphs] and [.tables] of a body or of a header. *)
Definition paragraphs (blocks : list block) : list paragraph :=
  flat_map (fun b => match b with BParagraph p => [p] | BTable _ => [] end) blocks.

Definition tables (blocks : list block) : list table :=
  flat_map (fun b => match b with BParagraph _ => [] | BTable t => [t] end) blocks.

(** The paragraphs of the cells of a table, row after row. *)
Definition table_paragraphs (t : table) : list paragraph :=
  flat_map (fun r : row => flat_map (fun c : cell => c) r) t.

(** One header per section. *)
Record document : Type := Document { sections : list (list block); body : list block }.

(** The tags of the XML elements above a paragraph, nearest first, for the
    three places where the program meets a paragraph. *)
Definition w_ns : string := "{http://schemas.openxmlformats.org/wordprocessingml/2006/main}".
Definition in_body : list string := [w_ns +:+ "body"; w_ns +:+ "document"].
Definition in_header : list string := [w_ns +:+ "hdr"].
Definition in_cell (above : list string) : list string :=
  [w_ns +:+ "tc"; w_ns +:+ "tr"; w_ns +:+ "tbl"] ++ above.

(** The mapping: a [dict] from keys to values, in insertion order. *)
Definition dict : Type := list (string * string).

(** [mapping.get(key, default)] *)
Fixpoint dict_get (m : dict) (key default : string) : string :=
  match m with
  | [] => default
  | (k, v) :: m' => if String.eqb k key then v else dict_get m' key default
  end.

(** [key in mapping] *)
Definition dict_mem (m : dict) (key : string) : bool :=
  existsb (fun kv => String.eqb (fst kv) key) m.

(** [mapping.setdefault(key, value)] *)
Definition dict_setdefault (m : dict) (key value : string) : dict :=
  if dict_mem m key then m else m ++ [(key, value)].

(** ** remplace_rapport.py *)

Definition DEFAULT_ANALYSIS_TEMPLATE : string := EmptyString.

(** The decision that keeps a heading and puts nothing under it. *)
Definition KEEP_TITLE_ONLY : string := "__KEEP_TITLE_ONLY__".

(** [iter_all_paragraphs(doc)]: the paragraphs of the body first, then those
    of the cells of its tables; each comes with the tags above it. *)
Definition iter_all_paragraphs (doc : document) : list (list string * paragraph) :=
  map (fun p => (in_body, p)) (paragraphs (body doc))
  ++ flat_map (fun t => map (fun p => (in_cell in_body, p)) (table_paragraphs t))
       (tables (body doc)).

(** The loop body shared by the three loops of [find_placeholders_in_order]:
    [if ph not in seen: ordered.append(ph); seen.add(ph)]. *)
Definition note_placeholder (st : gset string * list string) (ph : string)
  : gset string * list string :=
  let '(seen, ordered) := st in
  if decide (ph ∈ seen) then st else ({[ph]} ∪ seen, ordered ++ [ph]).

(** [for ph in PLACEHOLDER_PATTERN.findall(p.text): ...] *)
Definition note_paragraph (st : gset string * list string) (p : paragraph)
  : gset string * list string :=
  fold_left note_placeholder (Regex.findall_placeholders (text p)) st.

(** One turn of [for section in doc.sections]: the paragraphs of the header,
    then the cells of its tables. *)
Definition note_header (st : gset string * list string) (header : list block)
  : gset string * list string :=
  let st1 := fold_left note_paragraph (paragraphs header) st in
  fold_left
    (fun st t =>
       fold_left
         (fun st (r : row) =>
            fold_left (fun st (c : cell) => fold_left note_paragraph c st) r st)
         t st)
    (tables header) st1.

(** [find_placeholders_in_order(doc)]: [seen] and [ordered] go through the
    headers of the sections, then through [iter_all_paragraphs(doc)]. *)
Definition find_placeholders_in_order (doc : document) : list string :=
  let st1 := fold_left note_header (sections doc) (∅, []) in
  snd (fold_left note_paragraph (map snd (iter_all_paragraphs doc)) st1).

(** [is_in_table_cell(paragraph)], on the tags above the paragraph. *)
Fixpoint is_in_table_cell (above : list string) : bool :=
  match above with
  | [] => false
  | tag :: parents =>
      if PyStr.endswith tag "}tc" then true else is_in_table_cell parents
  end.

(** What a call on a paragraph leaves behind: the paragraph object, whether
    it was taken out of its parent, and the value returned. *)
Record effect : Type := Effect { para : paragraph; removed : bool; returned : bool }.

(** The [for old, new in mapping.items()] loop of [replace_in_runs]; the
    result is [(new_text, remove_entire)]. *)
Fixpoint replace_loop (in_tc allow_delete : bool) (items : dict)
    (new_text : string) : string * bool :=
  match items with
  | [] => (new_text, false)
  | (old, new) :: items' =>
      if negb (PyStr.contains old new_text) then
        replace_loop in_tc allow_delete items' new_text
      else if String.eqb new EmptyString then
        if allow_delete && negb in_tc then (new_text, true)
        else replace_loop in_tc allow_delete items' (PyStr.replace new_text old new)
      else replace_loop in_tc allow_delete items' (PyStr.replace new_text old new)
  end.

(** [run.text = ""] clears the run. *)
Definition clear_run (r : run) : run := RunText EmptyString.

(** [replace_in_runs(paragraph, mapping, allow_delete)] for a paragraph that
    sits under [above]. *)
Definition replace_in_runs (above : list string) (p : paragraph) (m : dict)
    (allow_delete : bool) : effect :=
  match m with
  | [] => Effect p false false
  | _ :: _ =>
      let original := text p in
      let '(new_text, remove_entire) :=
        replace_loop (is_in_table_cell above) allow_delete m original in
      if remove_entire then Effect p true true
      else if String.eqb new_text original then Effect p false false
      else
        Effect (Paragraph (style p) (map clear_run (runs p) ++ [RunText new_text]))
          false false
  end.

(** [fill_with_mapping(text, mapping)] *)
Definition fill_with_mapping (t : string) (m : dict) : string :=
  fold_left (fun out kv => PyStr.replace out (fst kv) (snd kv)) m t.

(** [is_heading(paragraph)] *)
Definition is_heading (p : paragraph) : bool :=
  let style_name := match style p with Some n => n | None => EmptyString end in
  PyStr.startswith style_name "Heading" || PyStr.startswith style_name "Titre".

(** The paragraph [insert_after(paragraph, text)] builds; the caller puts it
    behind [paragraph]. *)
Definition new_paragraph (t : string) : paragraph := Paragraph None [RunText t].

(** [remove_empty_paragraphs(doc)]: the paragraphs of the body whose text is
    empty or blank leave the tree; those inside table cells stay. *)
Definition is_blank (p : paragraph) : bool :=
  negb (PyStr.truthy (text p)) || negb (PyStr.truthy (PyStr.strip (text p))).

Definition remove_empty_paragraphs (doc : document) : document :=
  Document (sections doc)
    (List.filter
       (fun b =>
          match b with
          | BParagraph p => negb (is_blank p && negb (is_in_table_cell in_body))
          | BTable _ => true
          end)
       (body doc)).

(** [str(i)] *)
Definition str_of_nat (i : nat) : string := NilEmpty.string_of_uint (Nat.to_uint i).

(** The five keys of SIM card [i]. *)
Definition sim_keys (i : nat) : list string :=
  [ "{operateur" +:+ str_of_nat i +:+ "}";
    "{iccid" +:+ str_of_nat i +:+ "}";
    "{imsi" +:+ str_of_nat i +:+ "}";
    "{msisdn" +:+ str_of_nat i +:+ "}";
    "{datesync" +:+ str_of_nat i +:+ "}" ].

(** [row_text = "".join(cell.text for cell in row.cells)] *)
Definition row_text (r : row) : string := PyStr.join EmptyString (map cell_text r).

(** The three flags the loop over the rows of one table computes. *)
Record sim_flags : Type :=
  SimFlags { is_sim_table : bool; sim_index : option nat; has_at_least_one_value : bool }.

(** [for key in sim_keys: value = mapping.get(key, "").strip(); if value: ... break] *)
Definition any_value (m : dict) (i : nat) : bool :=
  existsb (fun key => PyStr.truthy (PyStr.strip (dict_get m key EmptyString))) (sim_keys i).

(** [for i in range(1, 9)] on one row: the first [i] one of whose keys is in
    the text of the row ends the loop. *)
Fixpoint scan_indices (m : dict) (row_txt : string) (indices : list nat) : sim_flags :=
  match indices with
  | [] => SimFlags false None false
  | i :: indices' =>
      if existsb (fun key => PyStr.contains key row_txt) (sim_keys i)
      then SimFlags true (Some i) (any_value m i)
      else scan_indices m row_txt indices'
  end.

(** [for row in table.rows], left at the first row that names a SIM card. *)
Fixpoint scan_rows (m : dict) (rows : list row) : sim_flags :=
  match rows with
  | [] => SimFlags false None false
  | r :: rows' =>
      let flags := scan_indices m (row_text r) (seq 1 8) in
      if is_sim_table flags then flags else scan_rows m rows'
  end.

(** [tables_to_remove.append(table)] *)
Definition to_remove (m : dict) (t : table) : bool :=
  let flags := scan_rows m t in
  is_sim_table flags && negb (has_at_least_one_value flags).

(** [remove_empty_sim_tables(doc, mapping)]: the marked tables of
    [doc.tables] leave the body. *)
Definition remove_empty_sim_tables (doc : document) (m : dict) : document :=
  Document (sections doc)
    (List.filter
       (fun b =>
          match b with
          | BParagraph _ => true
          | BTable t => negb (to_remove m t)
          end)
       (body doc)).

(** [iter_block_items(doc)]: the paragraphs and tables of the body, in the
    order of the document. *)
Definition iter_block_items (doc : document) : list block := body doc.

(** What the program can raise. *)
Inductive exn : Type :=
  | IndexError
  | PackageNotFoundError
  | HTTPException (status : nat).

(** [isinstance(blk, Paragraph) and is_heading(blk)] *)
Definition is_heading_block (b : block) : bool :=
  match b with
  | BParagraph p => is_heading p
  | BTable _ => false
  end.

(** An element of the body while [apply_heading_decisions] runs: a block the
    body had when the walk started, with its rank there as its identity, or
    a paragraph put in by [insert_after], which nothing refers to. *)
Definition element : Type := option nat * block.

(** [parent.remove(element)] for the block of identity [id], which is what
    [remove_paragraph] and [remove_table] do in the body. *)
Definition remove_element (id : nat) (tree : list element) : list element :=
  List.filter (fun el => negb (bool_decide (fst el = Some id))) tree.

Definition remove_paragraph (id : nat) (tree : list element) : list element :=
  remove_element id tree.

Definition remove_table (id : nat) (tree : list element) : list element :=
  remove_element id tree.

(** [insert_after(paragraph, text)]: a new paragraph right behind the block
    of identity [id]. *)
Definition insert_after (id : nat) (t : string) (tree : list element) : list element :=
  flat_map
    (fun el =>
       if bool_decide (fst el = Some id)
       then [el; (None, BParagraph (new_paragraph t))]
       else [el])
    tree.

(** The inner loop [while j < len(blocks)] of [apply_heading_decisions]: up
    to the next heading the tables leave the tree and the list, the other
    paragraphs are passed over.  [fuel] bounds the number of turns. *)
Fixpoint remove_followers (fuel : nat) (blocks : list (nat * block)) (j : nat)
    (tree : list element) : list (nat * block) * nat * list element :=
  match fuel with
  | O => (blocks, j, tree)
  | S fuel' =>
      match blocks !! j with
      | None => (blocks, j, tree)
      | Some (id, nxt) =>
          if is_heading_block nxt then (blocks, j, tree)
          else
            match nxt with
            | BTable _ =>
                remove_followers fuel' (delete j blocks) j (remove_table id tree)
            | BParagraph _ => remove_followers fuel' blocks (S j) tree
            end
      end
  end.

(** The outer loop [while idx < len(blocks)]: the tree it leaves and the
    exception it raised, if any.  [fuel] bounds the number of turns. *)
Fixpoint heading_loop (decisions : list string) (fuel : nat)
    (blocks : list (nat * block)) (idx heading_idx : nat) (tree : list element)
  : list element * option exn :=
  match fuel with
  | O => (tree, None)
  | S fuel' =>
      match blocks !! idx with
      | None => (tree, None)
      | Some (id, blk) =>
          if is_heading_block blk then
            match nth_error decisions heading_idx with
            | None => (tree, Some IndexError)
            | Some decision =>
                if String.eqb decision KEEP_TITLE_ONLY then
                  heading_loop decisions fuel' blocks (S idx) (S heading_idx) tree
                else if PyStr.truthy decision then
                  heading_loop decisions fuel' blocks (S idx) (S heading_idx)
                    (insert_after id decision tree)
                else
                  let tree := remove_paragraph id tree in
                  let blocks := delete idx blocks in
                  let '(blocks, j, tree) :=
                    remove_followers (length blocks) blocks idx tree in
                  heading_loop decisions fuel' blocks j (S heading_idx) tree
            end
          else heading_loop decisions fuel' blocks (S idx) heading_idx tree
      end
  end.

(** [apply_heading_decisions(doc, decisions)]: the document it leaves and
    the exception it raised, if any.  [blocks] is the list made of the body
    when the walk starts; the loops cannot take more turns than it has
    blocks ([heading_loop_walk] below holds for every larger bound). *)
Definition apply_heading_decisions (doc : document) (decisions : list string)
  : document * option exn :=
  let blocks := imap (fun i b => (i, b)) (iter_block_items doc) in
  let tree := map (fun ib : nat * block => (Some (fst ib), snd ib)) blocks in
  let '(tree, e) := heading_loop decisions (S (length blocks)) blocks 0 0 tree in
  (Document (sections doc) (map snd tree), e).

(** [collect_headings_in_order(doc)] *)
Definition collect_headings_in_order (doc : document) : list paragraph :=
  List.filter is_heading (map snd (iter_all_paragraphs doc)).

(** [default_heading_decisions(headings, mapping)] *)
Definition default_heading_decisions (headings : list paragraph) (m : dict)
  : list string :=
  map (fun _ => fill_with_mapping DEFAULT_ANALYSIS_TEMPLATE m) headings.

(** ** Files *)

(** What a path of the file system holds. *)
Inductive file : Type :=
  | Docx (doc : document)
  | Image
  | Directory
  | Blob.

(** [Path(p).exists()]; the empty path is the current directory. *)
Definition path_exists (fs : gmap string file) (p : string) : bool :=
  String.eqb p EmptyString || bool_decide (is_Some (fs !! p)).

(** [run.add_picture(p, ...)] returns for an image file and raises for
    anything else. *)
Definition picture_ok (fs : gmap string file) (p : string) : bool :=
  match fs !! p with
  | Some Image => true
  | _ => false
  end.

(** [w or default] on widths. *)
Definition width_or (w : option Q) (default : Q) : Q :=
  match w with
  | Some q => if Qeq_bool q 0 then default else q
  | None => default
  end.

(** ** Inline image markers *)

Section Markers.

Variable fs : gmap string file.
Variable images_at_markers : gmap string string.
Variable width_inches : Q.
Variable per_image_widths : gmap string Q.
(** [image_texts]: per key, a dict with the entries "before", "after"
    and "position"; the empty map stands for [None]. *)
Variable image_texts : gmap string (gmap string string).

Definition text_data_get (text_data : gmap string string) (field : string) : string :=
  default EmptyString (text_data !! field).

(** The runs added for the marker whose group is [chunk]. *)
Definition marker_runs (chunk : string) : list run :=
  let key := PyStr.strip chunk in
  match images_at_markers !! key with
  | Some img_path =>
      if PyStr.truthy img_path then
        if negb (path_exists fs img_path) then
          [RunText ("[[IMG:" +:+ key +:+ " - INTROUVABLE]]")]
        else
          let text_data := default ∅ (image_texts !! key) in
          let before :=
            if String.eqb (text_data_get text_data "position") "before"
               && PyStr.truthy (text_data_get text_data "before")
            then [RunText (text_data_get text_data "before" +:+ " ")] else [] in
          let w := width_or (per_image_widths !! key) width_inches in
          if picture_ok fs img_path then
            before ++ [RunPicture img_path w]
            ++ (if String.eqb (text_data_get text_data "position") "after"
                   && PyStr.truthy (text_data_get text_data "after")
                then [RunText (" " +:+ text_data_get text_data "after")] else [])
          else
            before ++ [RunText EmptyString; RunText ("[[IMG:" +:+ key +:+ " - ERREUR]]")]
      else [RunText ("[[IMG:" +:+ key +:+ "]]")]
  | None => [RunText ("[[IMG:" +:+ key +:+ "]]")]
  end.

(** [for idx, chunk in enumerate(parts)], from index [idx] on. *)
Fixpoint part_runs (idx : nat) (parts : list string) : list run :=
  match parts with
  | [] => []
  | chunk :: parts' =>
      (if Nat.even idx
       then (if PyStr.truthy chunk then [RunText chunk] else [])
       else marker_runs chunk)
      ++ part_runs (S idx) parts'
  end.

(** The body of the loop over the paragraphs. *)
Definition markers_in_paragraph (p : paragraph) : paragraph :=
  let full_text := PyStr.join EmptyString (map run_text (runs p)) in
  if negb (PyStr.contains "[[IMG" full_text) then p
  else
    let parts := Regex.split_markers full_text in
    Paragraph (style p) (map clear_run (runs p) ++ part_runs 0 parts).

(** [apply_images_at_markers(doc, images_at_markers, ...)]: every paragraph
    of [iter_all_paragraphs(doc)] is rewritten in place. *)
Definition apply_images_at_markers (doc : document) : document :=
  if bool_decide (images_at_markers = ∅) then doc
  else
    Document (sections doc)
      (map
         (fun b =>
            match b with
            | BParagraph p => BParagraph (markers_in_paragraph p)
            | BTable t => BTable (map (map (map markers_in_paragraph)) t)
            end)
         (body doc)).

End Markers.

(** ** Content blocks behind headings *)

Record ContentBlock : Type :=
  { type_ : string; content : option string; src : option string; width : option Q }.

Section Content.

Variable fs : gmap string file.
Variable heading_content : gmap string (list ContentBlock).
Variable default_width_inches : Q.

(** The paragraphs the loop [for block in blocks] leaves behind the anchor,
    in the order of the tree.  A picture that cannot be embedded leaves its
    paragraph behind the anchor without moving [current_para], so the
    blocks that follow land in front of it. *)
Fixpoint block_paragraphs (blocks : list ContentBlock) : list paragraph :=
  match blocks with
  | [] => []
  | blk :: blocks' =>
      if String.eqb (type_ blk) "text" then
        let c := default EmptyString (content blk) in
        if PyStr.truthy c then new_paragraph c :: block_paragraphs blocks'
        else block_paragraphs blocks'
      else if String.eqb (type_ blk) "image" then
        let s := default EmptyString (src blk) in
        if PyStr.truthy s then
          if negb (path_exists fs s) then block_paragraphs blocks'
          else if picture_ok fs s then
            Paragraph None
              [RunText EmptyString; RunPicture s (width_or (width blk) default_width_inches)]
            :: block_paragraphs blocks'
          else
            block_paragraphs blocks'
            ++ [Paragraph None [RunText EmptyString; RunText EmptyString]]
        else block_paragraphs blocks'
      else block_paragraphs blocks'
  end.

(** [all_paras[idx + 1]]: the next paragraph of the body, tables apart. *)
Fixpoint next_paragraph (rest : list block) : option paragraph :=
  match rest with
  | [] => None
  | BParagraph q :: _ => Some q
  | BTable _ :: rest' => next_paragraph rest'
  end.

(** The loop over [all_paras], on the body; [pending] holds the paragraphs
    that wait for the paragraph behind the heading. *)
Fixpoint content_walk (pending : list paragraph) (blocks : list block) : list block :=
  match blocks with
  | [] => []
  | BTable t :: rest => BTable t :: content_walk pending rest
  | BParagraph p :: rest =>
      if is_heading p then
        let new :=
          block_paragraphs (default [] (heading_content !! PyStr.strip (text p))) in
        match next_paragraph rest with
        | Some q =>
            if is_heading q
            then BParagraph p :: map BParagraph new ++ content_walk [] rest
            else BParagraph p :: content_walk new rest
        | None => BParagraph p :: map BParagraph new ++ content_walk [] rest
        end
      else BParagraph p :: map BParagraph pending ++ content_walk [] rest
  end.

Definition apply_heading_content_blocks (doc : document) : document :=
  if bool_decide (heading_content = ∅) then doc
  else Document (sections doc) (content_walk [] (body doc)).

End Content.

(** ** process_document *)

(** [replace_in_runs(p, mapping)] on every paragraph of a list of blocks that
    sits under [above]: first the paragraphs, which leave the list when the
    call removes them, then the cells of the tables. *)
Definition replace_in_blocks (above : list string) (m : dict) (blocks : list block)
  : list block :=
  let blocks1 :=
    flat_map
      (fun b =>
         match b with
         | BParagraph p =>
             let e := replace_in_runs above p m true in
             if removed e then [] else [BParagraph (para e)]
         | BTable t => [BTable t]
         end)
      blocks in
  map
    (fun b =>
       match b with
       | BParagraph p => BParagraph p
       | BTable t =>
           BTable (map (map (map (fun p => para (replace_in_runs (in_cell above) p m true)))) t)
       end)
    blocks1.

(** [Document(str(path))] *)
Definition load (fs : gmap string file) (path : string) : option document :=
  match fs !! path with
  | Some (Docx doc) => Some doc
  | _ => None
  end.

(** The steps of [process_document] between loading and saving, for
    [interactive=False]; the terminal dialogue of the interactive mode is
    not part of the model. *)
Definition transform (fs : gmap string file) (doc : document)
    (mapping_override : option dict) (decisions_override : option (list string))
    (heading_content : gmap string (list ContentBlock))
    (images_at_markers : gmap string string) (image_width_inches : Q)
    (images_at_markers_sizes : gmap string Q) : document * option exn :=
  let mapping := default [] mapping_override in
  let doc := Document (map (replace_in_blocks in_header mapping) (sections doc)) (body doc) in
  let doc := remove_empty_sim_tables doc mapping in
  let doc := Document (sections doc) (replace_in_blocks in_body mapping (body doc)) in
  let doc := remove_empty_paragraphs doc in
  let headings := collect_headings_in_order doc in
  let decisions :=
    match decisions_override with
    | Some d => d
    | None => default_heading_decisions headings mapping
    end in
  match apply_heading_decisions doc decisions with
  | (doc, Some e) => (doc, Some e)
  | (doc, None) =>
      let doc := remove_empty_paragraphs doc in
      let doc := apply_heading_content_blocks fs heading_content image_width_inches doc in
      let doc :=
        apply_images_at_markers fs images_at_markers image_width_inches
          images_at_markers_sizes ∅ doc in
      (doc, None)
  end.

(** [process_document(input_path, output_path, ...)]: the file system it
    leaves and the exception it raised, if any.  [doc.save] is its last
    step. *)
Definition process_document (fs : gmap string file) (input_path output_path : string)
    (mapping_override : option dict) (decisions_override : option (list string))
    (heading_content : gmap string (list ContentBlock))
    (images_at_markers : gmap string string) (image_width_inches : Q)
    (images_at_markers_sizes : gmap string Q) : gmap string file * option exn :=
  match load fs input_path with
  | None => (fs, Some PackageNotFoundError)
  | Some doc =>
      match
        transform fs doc mapping_override decisions_override heading_content
          images_at_markers image_width_inches images_at_markers_sizes
      with
      | (_, Some e) => (fs, Some e)
      | (doc, None) => (<[output_path := Docx doc]> fs, None)
      end
  end.

(** ** app.py *)

Definition TEMPLATES : list (string * string) :=
  [("test", "test.docx"); ("test2", "test2.docx"); ("test3", "test3.docx")].

(** [path.with_name(f"{path.stem}_sortie.docx")] for the three templates. *)
Definition OUTPUT_PATHS : list (string * string) :=
  [("test", "test_sortie.docx"); ("test2", "test2_sortie.docx");
   ("test3", "test3_sortie.docx")].

Definition UPLOAD_DIR : string := "uploads".
Definition DEFAULT_SENTINEL : string := "__DEFAULT__".

Record GeneratePayload : Type :=
  { template : option string;
    overwrite : bool;
    mapping : dict;
    decisions : option (list string);
    heading_content : gmap string (list ContentBlock);
    images_at_markers : gmap string string;
    image_width_inches : option Q;
    images_at_markers_sizes : gmap string Q }.

(** The body of a successful answer. *)
Record response : Type := { status : string; resp_template : string; output : string }.

Definition assoc (l : list (string * string)) (key : string) : option string :=
  snd <$> List.find (fun kv => String.eqb (fst kv) key) l.

(** [get_template_paths(selected)] *)
Definition get_template_paths (fs : gmap string file) (selected : option string)
  : (string * string * string) + exn :=
  match selected with
  | Some (String c s as name) =>
      match assoc TEMPLATES name with
      | None => inr (HTTPException 404)
      | Some src_path =>
          if bool_decide (is_Some (fs !! src_path))
          then inl (src_path, default EmptyString (assoc OUTPUT_PATHS name), name)
          else inr (HTTPException 404)
      end
  | _ =>
      match List.find (fun kv => bool_decide (is_Some (fs !! snd kv))) TEMPLATES with
      | Some (name, src_path) =>
          inl (src_path, default EmptyString (assoc OUTPUT_PATHS name), name)
      | None => inr (HTTPException 404)
      end
  end.

(** The loop [for idx, h in enumerate(headings)] of [generate], from [idx]
    on: an entry that is missing or the sentinel gives way to the default of
    its position. *)
Fixpoint resolve_from (supplied defaults : list string) (idx : nat)
    (headings : list paragraph) : list string :=
  match headings with
  | [] => []
  | _ :: headings' =>
      let choice := nth idx supplied DEFAULT_SENTINEL in
      (if String.eqb choice DEFAULT_SENTINEL then nth idx defaults EmptyString else choice)
      :: resolve_from supplied defaults (S idx) headings'
  end.

(** The decisions [generate] hands to [process_document]. *)
Definition resolve_decisions (supplied : option (list string))
    (headings : list paragraph) (m : dict) : list string :=
  match supplied with
  | None => default_heading_decisions headings m
  | Some ds => resolve_from ds (default_heading_decisions headings m) 0 headings
  end.

(** [Path(path_str).name]: the last component of the path. *)
Fixpoint path_name_from (cur : string) (s : string) : string :=
  match s with
  | EmptyString => cur
  | String c s' =>
      if Ascii.eqb c "/"%char then
        match path_name_from EmptyString s' with
        | EmptyString => cur
        | n => n
        end
      else path_name_from (cur +:+ String c EmptyString) s'
  end.

Definition resolve_path (path_str : string) : string :=
  if PyStr.startswith path_str "/uploads/"
  then UPLOAD_DIR +:+ "/" +:+ path_name_from EmptyString path_str
  else path_str.

Definition resolve_block (b : ContentBlock) : ContentBlock :=
  if String.eqb (type_ b) "image" && PyStr.truthy (default EmptyString (src b))
  then {| type_ := type_ b; content := content b;
          src := resolve_path <$> src b; width := width b |}
  else b.

(** [generate(payload)]: the file system it leaves, and its answer or the
    exception it raised.  The notification of the listeners is left out. *)
Definition generate (fs : gmap string file) (payload : GeneratePayload)
  : gmap string file * (response + exn) :=
  match get_template_paths fs (template payload) with
  | inr e => (fs, inr e)
  | inl (src_path, output_path, template_key) =>
      let fs :=
        if overwrite payload && bool_decide (is_Some (fs !! output_path))
        then delete output_path fs else fs in
      match load fs src_path with
      | None => (fs, inr PackageNotFoundError)
      | Some doc =>
          let placeholders_in_doc := find_placeholders_in_order doc in
          let mapping :=
            fold_left (fun m missing => dict_setdefault m missing EmptyString)
              placeholders_in_doc (mapping payload) in
          let headings := collect_headings_in_order doc in
          let decisions := resolve_decisions (decisions payload) headings mapping in
          let heading_content_resolved := fmap (map resolve_block) (heading_content payload) in
          let markers_resolved := fmap resolve_path (images_at_markers payload) in
          match
            process_document fs src_path output_path (Some mapping) (Some decisions)
              heading_content_resolved markers_resolved
              (width_or (image_width_inches payload) 3)
              (images_at_markers_sizes payload)
          with
          | (fs', Some e) => (fs', inr e)
          | (fs', None) =>
              (fs', inl {| status := "ok"; resp_template := template_key;
                           output := output_path |})
          end
      end
  end.

(** ** The scan of the image markers *)

(** [IMAGE_MARKER.findall(s)]: the group of every match, from the left;
    after a match the scan resumes behind it. *)
Fixpoint findall_markers_from (skip : nat) (s : string) : list string :=
  match s with
  | EmptyString => []
  | String _ s' =>
      match skip with
      | S k => findall_markers_from k s'
      | O =>
          match Regex.match_marker s with
          | Some (g, n) => g :: findall_markers_from (n - 1) s'
          | None => findall_markers_from 0 s'
          end
      end
  end.

Definition findall_markers (s : string) : list string := findall_markers_from 0 s.

(** [for marker in IMAGE_MARKER.findall(p.text): ...], with the loop body of
    the placeholder scan. *)
Definition note_markers (st : gset string * list string) (p : paragraph)
  : gset string * list string :=
  fold_left note_placeholder (findall_markers (text p)) st.

Definition note_header_markers (st : gset string * list string) (header : list block)
  : gset string * list string :=
  let st1 := fold_left note_markers (paragraphs header) st in
  fold_left
    (fun st t =>
       fold_left
         (fun st (r : row) =>
            fold_left (fun st (c : cell) => fold_left note_markers c st) r st)
         t st)
    (tables header) st1.

(** [find_image_markers_in_order(doc)] *)
Definition find_image_markers_in_order (doc : document) : list string :=
  let st1 := fold_left note_header_markers (sections doc) (∅, []) in
  snd (fold_left note_markers (map snd (iter_all_paragraphs doc)) st1).

(** ** Images behind headings *)

Section ImagesAfter.

Variable fs : gmap string file.
Variable images_after : gmap string string.
Variable width_inches : Q.
Variable per_image_widths : gmap string Q.
(** As for the markers, the empty map stands for [None]. *)
Variable image_texts : gmap string (gmap string string).

(** [insert_image_after(paragraph, image_path, width_inches, text_before,
    text_after)]: the paragraphs it puts behind [paragraph], in the order of
    the tree.  Nothing when no file is at the path; when the picture cannot
    be embedded, the paragraph made for it stays, empty, and the text behind
    the image is not written. *)
Definition insert_image_after (image_path : string) (width_inches : Q)
    (text_before text_after : string) : list paragraph :=
  if negb (path_exists fs image_path) then []
  else
    (if PyStr.truthy text_before then [new_paragraph text_before] else [])
    ++ (if picture_ok fs image_path
        then
          Paragraph None [RunText EmptyString; RunPicture image_path width_inches]
          :: (if PyStr.truthy text_after then [new_paragraph text_after] else [])
        else [Paragraph None [RunText EmptyString; RunText EmptyString]]).

(** What the loop of [apply_images_after_headings] inserts for the heading
    [para]. *)
Definition heading_image (para : paragraph) : list paragraph :=
  let heading_text := PyStr.strip (text para) in
  match images_after !! heading_text with
  | Some img =>
      if PyStr.truthy img then
        let w := width_or (per_image_widths !! heading_text) width_inches in
        let text_data := default ∅ (image_texts !! heading_text) in
        let text_before :=
          if String.eqb (text_data_get text_data "position") "before"
          then text_data_get text_data "before" else EmptyString in
        let text_after :=
          if String.eqb (text_data_get text_data "position") "after"
          then text_data_get text_data "after" else EmptyString in
        insert_image_after img w text_before text_after
      else []
  | None => []
  end.

(** The loop over [all_paras], on the body; [pending] holds the paragraphs
    that wait for the paragraph behind the heading. *)
Fixpoint images_walk (pending : list paragraph) (blocks : list block) : list block :=
  match blocks with
  | [] => []
  | BTable t :: rest => BTable t :: images_walk pending rest
  | BParagraph p :: rest =>
      if is_heading p then
        let new := heading_image p in
        match next_paragraph rest with
        | Some q =>
            if is_heading q
            then BParagraph p :: map BParagraph new ++ images_walk [] rest
            else BParagraph p :: images_walk new rest
        | None => BParagraph p :: map BParagraph new ++ images_walk [] rest
        end
      else BParagraph p :: map BParagraph pending ++ images_walk [] rest
  end.

(** [apply_images_after_headings(doc, images_after, ...)] *)
Definition apply_images_after_headings (doc : document) : document :=
  if bool_decide (images_after = ∅) then doc
  else Document (sections doc) (images_walk [] (body doc)).

End ImagesAfter.

(** ** The dialogue on the terminal *)

Definition BACK_TOKEN : string := "__BACK__".

(** [input(prompt)]: the next line typed, without its end of line; [None]
    stands for [EOFError], raised when the input has ended.  What the
    program prints is left out. *)
Definition input (stdin : list string) : option (string * list string) :=
  match stdin with
  | [] => None
  | line :: rest => Some (line, rest)
  end.

(** [c.lower()] for the code points below 256: the letters A..Z and the
    capital letters of Latin-1, 192..222 but for the multiplication sign,
    are 32 below their small letter. *)
Definition lower_char (c : ascii) : ascii :=
  let n := nat_of_ascii c in
  if ((65 <=? n) && (n <=? 90)) || ((192 <=? n) && (n <=? 222) && negb (n =? 215))
  then ascii_of_nat (n + 32)
  else c.

(** [s.lower()] *)
Fixpoint lower (s : string) : string :=
  match s with
  | EmptyString => EmptyString
  | String c s' => String (lower_char c) (lower s')
  end.

(** [mapping[key] = value]: a key the dict has keeps its place. *)
Fixpoint dict_set (m : dict) (key value : string) : dict :=
  match m with
  | [] => [(key, value)]
  | (k, v) :: m' =>
      if String.eqb k key then (k, value) :: m' else (k, v) :: dict_set m' key value
  end.

(** The loop [for ph in placeholders] of [prompt_placeholders]. *)
Fixpoint prompt_values (placeholders : list string) (mapping : dict)
    (stdin : list string) : option (dict * list string) :=
  match placeholders with
  | [] => Some (mapping, stdin)
  | ph :: placeholders' =>
      match input stdin with
      | None => None
      | Some (value, stdin) => prompt_values placeholders' (dict_set mapping ph value) stdin
      end
  end.

(** [prompt_placeholders(placeholders)]: the mapping and what is left of the
    input. *)
Definition prompt_placeholders (placeholders : list string) (stdin : list string)
  : option (dict * list string) :=
  match placeholders with
  | [] => Some ([], stdin)
  | _ :: _ => prompt_values placeholders [] stdin
  end.

(** [prompt_phrase_for_heading(title_text, mapping)] *)
Definition prompt_phrase_for_heading (title_text : string) (m : dict)
    (stdin : list string) : option (string * list string) :=
  let default_phrase := fill_with_mapping DEFAULT_ANALYSIS_TEMPLATE m in
  match input stdin with
  | None => None
  | Some (line, stdin) =>
      let choice := lower (PyStr.strip line) in
      if String.eqb choice "b" then Some (BACK_TOKEN, stdin)
      else if String.eqb choice "1" then
        match input stdin with
        | None => None
        | Some (phrase, stdin) => Some (PyStr.strip phrase, stdin)
        end
      else if String.eqb choice "3" then Some (EmptyString, stdin)
      else if String.eqb choice EmptyString || String.eqb choice "2"
      then Some (default_phrase, stdin)
      else Some (default_phrase, stdin)
  end.

(** What the dialogue can raise: [EOFError] from [input], [IndexError] from
    [decisions.pop()] on an empty list. *)
Inductive console_error : Type :=
  | EOFError
  | PopFromEmptyList.

(** The loop [while idx < len(headings)] of [collect_heading_decisions]:
    the decisions and what is left of the input, or what was raised.
    [fuel] bounds the number of turns; [None] tells that it was used up. *)
Fixpoint decisions_loop (fuel : nat) (headings : list paragraph) (m : dict)
    (idx : nat) (decisions : list string) (stdin : list string)
  : option (list string * list string + console_error) :=
  match fuel with
  | O => None
  | S fuel' =>
      match nth_error headings idx with
      | None => Some (inl (decisions, stdin))
      | Some heading =>
          let title_text := PyStr.strip (text heading) in
          match prompt_phrase_for_heading title_text m stdin with
          | None => Some (inr EOFError)
          | Some (res, stdin) =>
              if String.eqb res BACK_TOKEN then
                match idx with
                | S idx' =>
                    match decisions with
                    | [] => Some (inr PopFromEmptyList)
                    | _ :: _ =>
                        decisions_loop fuel' headings m idx' (removelast decisions) stdin
                    end
                | O => decisions_loop fuel' headings m idx decisions stdin
                end
              else
                let decisions :=
                  if idx <? length decisions then <[idx := res]> decisions
                  else decisions ++ [res] in
                decisions_loop fuel' headings m (S idx) decisions stdin
          end
      end
  end.

(** [collect_heading_decisions(headings, mapping)].  Every turn of the loop
    reads at least one line, so it takes at most one turn more than the
    input has lines. *)
Definition collect_heading_decisions (headings : list paragraph) (m : dict)
    (stdin : list string) : option (list string * list string + console_error) :=
  decisions_loop (S (length stdin)) headings m 0 [] stdin.

(** ** The other routes of app.py *)

(** [available_templates()] *)
Definition available_templates : list string := map fst TEMPLATES.

(** [TEMPLATES[name]], for a name of [TEMPLATES]. *)
Definition template_path (name : string) : string :=
  default EmptyString (assoc TEMPLATES name).

Record templates_response : Type :=
  { listed : list string; default_name : option string }.

(** [list_templates()]: the first template whose file exists is the default,
    and the first template when none exists. *)
Definition list_templates (fs : gmap string file) : templates_response :=
  let templates := available_templates in
  let default :=
    List.find (fun name => bool_decide (is_Some (fs !! template_path name))) templates in
  let default :=
    match default with
    | Some name => Some name
    | None => head templates
    end in
  {| listed := templates; default_name := default |}.



(** [download(template)]: the path of the file sent back and the name it is
    sent under. *)
Record file_response : Type := { sent_path : string; sent_filename : string }.

Definition download (fs : gmap string file) (selected : option string)
  : file_response + exn :=
  match get_template_paths fs selected with
  | inr e => inr e
  | inl (_, output_path, _) =>
      if negb (bool_decide (is_Some (fs !! output_path)))
      then inr (HTTPException 404)
      else inl {| sent_path := output_path;
                  sent_filename := path_name_from EmptyString output_path |}
  end.

(** ** Paths and uploads *)

(** [s.split("/")]; [cur] is the component being read. *)
Fixpoint split_slash (cur : string) (s : string) : list string :=
  match s with
  | EmptyString => [cur]
  | String c s' =>
      if Ascii.eqb c "/"%char then cur :: split_slash EmptyString s'
      else split_slash (cur +:+ String c EmptyString) s'
  end.

(** A [PurePosixPath]: its root, which is empty, one slash or two slashes,
    and its components, among which the empty ones and the dots of the text
    do not count. *)
Record pure_path : Type := PurePath { path_root : string; path_parts : list string }.

(** [Path(s)] *)
Definition Path (s : string) : pure_path :=
  PurePath
    (if PyStr.startswith s "///" then "/"
     else if PyStr.startswith s "//" then "//"
     else if PyStr.startswith s "/" then "/"
     else EmptyString)
    (List.filter (fun x => negb (String.eqb x EmptyString) && negb (String.eqb x "."))
       (split_slash EmptyString s)).

(** [str(p)] *)
Definition path_str (p : pure_path) : string :=
  match path_root p, path_parts p with
  | EmptyString, [] => "."
  | r, ps => r +:+ PyStr.join "/" ps
  end.

(** [a / b] *)
Definition path_div (a b : pure_path) : pure_path :=
  if PyStr.truthy (path_root b) then b
  else PurePath (path_root a) (path_parts a ++ path_parts b).

(** [p.name] *)
Definition path_name (p : pure_path) : string := List.last (path_parts p) EmptyString.

(** [name.rfind(".")] *)
Fixpoint rfind_dot (name : string) : option nat :=
  match name with
  | EmptyString => None
  | String c name' =>
      match rfind_dot name' with
      | Some i => Some (S i)
      | None => if Ascii.eqb c "."%char then Some 0 else None
      end
  end.

(** [p.stem]: the name without its last suffix, when it has one. *)
Definition path_stem (p : pure_path) : string :=
  let name := path_name p in
  match rfind_dot name with
  | Some i =>
      if (0 <? i) && (i <? String.length name - 1) then String.substring 0 i name
      else name
  | None => name
  end.

(** What the bytes sent to [/upload] are: a picture of a kind python-docx
    embeds, which Pillow reads as well; another picture that Pillow reads
    once the HEIF opener is registered; or nothing Pillow reads. *)
Inductive upload_bytes : Type :=
  | Embeddable
  | Readable
  | Unreadable.

(** What [upload_image] does when it succeeds: the file it writes, where it
    writes it, and the "path" of its answer. *)
Record upload_result : Type :=
  { dest : string; stored : file; web_path : string }.

(** [upload_image(file)]: a HEIC or HEIF picture is stored as a JPEG under
    the stem of its name, anything else is stored as it is. *)
Definition upload_image (filename : string) (contents : upload_bytes)
  : upload_result + exn :=
  if negb (PyStr.truthy filename) then inr (HTTPException 400)
  else
    let filename_lower := lower filename in
    if PyStr.endswith filename_lower ".heic" || PyStr.endswith filename_lower ".heif" then
      match contents with
      | Unreadable => inr (HTTPException 500)
      | Embeddable | Readable =>
          let new_filename := path_stem (Path filename) +:+ ".jpg" in
          inl {| dest := path_str (path_div (Path UPLOAD_DIR) (Path new_filename));
                 stored := Image;
                 web_path := "/uploads/" +:+ new_filename |}
      end
    else
      inl {| dest := path_str (path_div (Path UPLOAD_DIR) (Path filename));
             stored := match contents with
                       | Embeddable => Image
                       | Readable | Unreadable => Blob
                       end;
             web_path := "/uploads/" +:+ filename |}.

(** ** Notions of the specification *)

(** The paragraphs in the order the specification gives for the scan: per
    section the paragraphs of the header and then the cells of its tables,
    then the paragraphs of the body, then the cells of the tables of the
    body, row after row. *)
Definition scan_order (doc : document) : list paragraph :=
  flat_map (fun header => paragraphs header ++ flat_map table_paragraphs (tables header))
    (sections doc)
  ++ paragraphs (body doc)
  ++ flat_map table_paragraphs (tables (body doc)).

(** Every occurrence of a placeholder, in that order. *)
Definition occurrences (doc : document) : list string :=
  flat_map (fun p => Regex.findall_placeholders (text p)) (scan_order doc).

(** A list without its repetitions: the first occurrence of each value stays
    where it is. *)
Fixpoint first_occurrences (l : list string) : list string :=
  match l with
  | [] => []
  | x :: l' => x :: filter (fun y => y <> x) (first_occurrences l')
  end.

(** A key that [PLACEHOLDER_PATTERN] matches as a whole: the keys the scan
    returns are of this kind. *)
Definition is_token (k : string) : bool :=
  match Regex.match_placeholder k with
  | Some ph => String.eqb ph k
  | None => false
  end.

(** Every character of [s] satisfies [p]. *)
Fixpoint sforall (p : ascii -> bool) (s : string) : bool :=
  match s with
  | EmptyString => true
  | String c s' => p c && sforall p s'
  end.

(** The characters of the body of a token, and the characters that cannot
    start one. *)
Definition no_brace (c : ascii) : bool := negb (Regex.is_brace c).
Definition not_lbrace (c : ascii) : bool := negb (Ascii.eqb c "{"%char).

(** The SIM cards a row names: the indices of 1..8 one of whose five keys
    occurs in the text of the row, in increasing order. *)
Definition row_families (r : row) : list nat :=
  List.filter
    (fun i => existsb (fun key => PyStr.contains key (row_text r)) (sim_keys i))
    (seq 1 8).

(** The family a table matches: the first index named by the first of its
    rows that names one. *)
Definition family_of (t : table) : option nat := head (flat_map row_families t).

(** No key of family [i] has a value in the mapping: each is missing, or
    its value is empty once the blanks around it are stripped. *)
Definition family_blank (m : dict) (i : nat) : Prop :=
  forall key, key ∈ sim_keys i -> PyStr.strip (dict_get m key EmptyString) = EmptyString.

(** The flags of a table that matches [family]. *)
Definition flags_of (m : dict) (family : option nat) : sim_flags :=
  match family with
  | Some i => SimFlags true (Some i) (any_value m i)
  | None => SimFlags false None false
  end.

(** The two loops of [apply_heading_decisions] as one recursion over the
    blocks still to visit, with the body they leave from there on.
    [deleting] tells the loops apart: it is set while the inner loop runs
    behind a heading that was removed, until the next heading hands the
    walk back to the outer loop.  When [decisions[heading_idx]] is out of
    range the walk stops and leaves the rest of the body as it is. *)
Fixpoint walk (decisions : list string) (deleting : bool) (blocks : list block)
    (heading_idx : nat) : list block * option exn :=
  match blocks with
  | [] => ([], None)
  | BParagraph p :: rest =>
      if is_heading p then
        match nth_error decisions heading_idx with
        | None => (blocks, Some IndexError)
        | Some decision =>
            if String.eqb decision KEEP_TITLE_ONLY then
              let '(out, e) := walk decisions false rest (S heading_idx) in
              (BParagraph p :: out, e)
            else if PyStr.truthy decision then
              let '(out, e) := walk decisions false rest (S heading_idx) in
              (BParagraph p :: BParagraph (new_paragraph decision) :: out, e)
            else walk decisions true rest (S heading_idx)
        end
      else
        let '(out, e) := walk decisions deleting rest heading_idx in
        (BParagraph p :: out, e)
  | BTable t :: rest =>
      if deleting then walk decisions true rest heading_idx
      else
        let '(out, e) := walk decisions false rest heading_idx in
        (BTable t :: out, e)
  end.

(** The number of heading paragraphs among the blocks of a body. *)
Definition count_headings (blocks : list block) : nat :=
  length (List.filter is_heading_block blocks).

(** A stretch of blocks without a heading. *)
Definition no_headings (blocks : list block) : Prop :=
  Forall (fun b => is_heading_block b = false) blocks.

(** The blocks of a body from a heading on: nothing, or a heading first. *)
Definition at_heading (blocks : list block) : Prop :=
  match blocks with
  | [] => True
  | b :: _ => is_heading_block b = true
  end.

(** A stretch of blocks without its tables. *)
Definition without_tables (blocks : list block) : list block :=
  List.filter (fun b => match b with BParagraph _ => true | BTable _ => false end) blocks.

(** A payload with another list of decisions. *)
Definition with_decisions (payload : GeneratePayload) (d : option (list string))
  : GeneratePayload :=
  {| template := template payload;
     overwrite := overwrite payload;
     mapping := mapping payload;
     decisions := d;
     heading_content := heading_content payload;
     images_at_markers := images_at_markers payload;
     image_width_inches := image_width_inches payload;
     images_at_markers_sizes := images_at_markers_sizes payload |}.


(** The default phrase of every heading of the template, as [generate]
    computes them: one per heading, from the mapping completed with the
    placeholders of the document. *)
Definition computed_defaults (fs : gmap string file) (payload : GeneratePayload)
  : list string :=
  match get_template_paths fs (template payload) with
  | inr _ => []
  | inl (src_path, _, _) =>
      match load fs src_path with
      | None => []
      | Some doc =>
          default_heading_decisions (collect_headings_in_order doc)
            (fold_left (fun m missing => dict_setdefault m missing EmptyString)
               (find_placeholders_in_order doc) (mapping payload))
      end
  end.

(** The blocks [l] as the list [blocks] of the walk holds them, with the
    identities from [k] on, and a block of that list as the tree holds it. *)
Definition tag (k : nat) (l : list block) : list (nat * block) :=
  imap (fun i b => (k + i, b)) l.
Definition as_element (ib : nat * block) : element := (Some (fst ib), snd ib).

(** The elements of [done] have no identity from [k] on. *)
Definition below (k : nat) (done : list element) : Prop :=
  Forall (fun el : element => forall i, fst el = Some i -> i < k) done.

(** The characters that cannot start a marker. *)
Definition not_lbracket (c : ascii) : bool := negb (Ascii.eqb c "["%char).

(** A key as it stands in a marker written without blanks: not empty, no
    closing bracket, no blank at either end. *)
Definition clean_key (key : string) : Prop :=
  key <> EmptyString /\ sforall Regex.not_rbracket key = true /\ PyStr.strip key = key.

(** The mapping [generate] hands to [process_document]: the mapping of the
    request after [mapping.setdefault(missing, "")] for every placeholder of
    the template. *)
Definition completed_mapping (doc : document) (m : dict) : dict :=
  fold_left (fun m missing => dict_setdefault m missing EmptyString)
    (find_placeholders_in_order doc) m.

(** A paragraph that is not a heading. *)
Definition plain (b : block) : bool :=
  match b with
  | BParagraph p => negb (is_heading p)
  | BTable _ => false
  end.

(** Every occurrence of a marker, in the order of the scan. *)
Definition marker_occurrences (doc : document) : list string :=
  flat_map (fun p => findall_markers (text p)) (scan_order doc).


(** A file name that is one component of a path: not empty, no slash, and
    not the dot that stands for the directory itself. *)
Definition plain_name (name : string) : Prop :=
  name <> EmptyString /\ name <> "."
  /\ sforall (fun c => negb (Ascii.eqb c "/"%char)) name = true.

(** A request without its content blocks. *)
Definition without_content (payload : GeneratePayload) : GeneratePayload :=
  {| template := template payload;
     overwrite := overwrite payload;
     mapping := mapping payload;
     decisions := decisions payload;
     heading_content := ∅;
     images_at_markers := images_at_markers payload;
     image_width_inches := image_width_inches payload;
     images_at_markers_sizes := images_at_markers_sizes payload |}.

(** ** Sample data *)

(** A paragraph of two runs and a mapping with one empty value. *)
Definition par_nom_date : paragraph :=
  Paragraph None [RunText "Le {nom} "; RunText "du {date}."].
Definition map_nom_date : dict := [("{nom}", "Durand"); ("{date}", EmptyString)].

(** A table that names SIM card 1 and a mapping that gives it a blank. *)
Definition sim_table_1 : table :=
  [[[Paragraph None [RunText "Operateur"]]; [Paragraph None [RunText "{operateur1}"]]];
   [[Paragraph None [RunText "ICCID"]]; [Paragraph None [RunText "{iccid1}"]]]].
Definition map_blank_sim : dict := [("{operateur1}", " ")].

(** A body with two headings, each followed by tables and text. *)
Definition titre (t : string) : paragraph := Paragraph (Some "Heading 1") [RunText t].
Definition texte (t : string) : paragraph := Paragraph (Some "Normal") [RunText t].
Definition tableau (t : string) : table := [[[texte t]]].
Definition body_two_sections : list block :=
  [BParagraph (texte "intro");
   BParagraph (titre "Mesures"); BTable (tableau "a"); BParagraph (texte "note");
   BTable (tableau "b");
   BParagraph (titre "Conclusion"); BTable (tableau "c")].
Definition doc_two_sections : document := Document [] body_two_sections.


(** A paragraph with two markers, a marker map that knows the second one
    only, and a file system without the image. *)
Definition par_markers : paragraph :=
  Paragraph None [RunText "Voir [[IMG:graphique]] "; RunText "et [[IMG: photo ]]."].
Definition markers_photo : gmap string string := {["photo" := "uploads/photo.jpg"]}.

(** Two keys that overlap. *)
Definition par_ab : paragraph := Paragraph None [RunText "ab"].
Definition map_ab : dict := [("ab", "x"); ("b", EmptyString)].

(** A file system that holds the first template only, and a request for it. *)
Definition fs_one_template : gmap string file := {["test.docx" := Docx doc_two_sections]}.
Definition payload_two_decisions : GeneratePayload :=
  {| template := None; overwrite := false; mapping := [];
     decisions := Some [KEEP_TITLE_ONLY; "Conforme."];
     heading_content := ∅; images_at_markers := ∅; image_width_inches := None;
     images_at_markers_sizes := ∅ |}.

Definition payload_again : GeneratePayload :=
  {| template := Some "test"; overwrite := true; mapping := [("{nom}", "Durand")];
     decisions := None;
     heading_content := ∅; images_at_markers := ∅; image_width_inches := None;
     images_at_markers_sizes := ∅ |}.

(** A template whose only paragraph holds two placeholders. *)
Definition doc_nom_date : document := Document [] [BParagraph par_nom_date].

(** A text block for the first heading of the sample body. *)
Definition content_mesures : gmap string (list ContentBlock) :=
  {["Mesures" := [{| type_ := "text"; content := Some "Voir annexe."; src := None;
                     width := None |}]]}.

(** A file system that holds the image of the marker map. *)
Definition fs_photo : gmap string file := {["uploads/photo.jpg" := Image]}.

(** A document with a marker in its header and one in its body. *)
Definition doc_header_marker : document :=
  Document [[BParagraph (texte "Logo [[IMG:logo]]")]] [BParagraph par_markers].

(** A request with content for the first heading and no decisions. *)
Definition payload_content : GeneratePayload :=
  {| template := Some "test"; overwrite := false; mapping := []; decisions := None;
     heading_content := content_mesures; images_at_markers := ∅;
     image_width_inches := None; images_at_markers_sizes := ∅ |}.

(** An image for the second heading of the sample body, with a caption in
    front of it. *)
Definition images_conclusion : gmap string string := {["Conclusion" := "uploads/photo.jpg"]}.
Definition texts_conclusion : gmap string (gmap string string) :=
  {["Conclusion" := {["position" := "before"; "before" := "Figure 1 :"; "after" := "fin"]}]}.

(** ** The placeholder scan *)

Section Scan.

Implicit Types (seen : gset string) (ordered l : list string).

Lemma filter_absorb ordered x l :
  x ∈ ordered ->
  filter (fun y => y ∉ ordered) (filter (fun y => y <> x) l)
  = filter (fun y => y ∉ ordered) l.
Proof.
  intros Hx. induction l as [|y l IH]; [reflexivity|].
  rewrite !filter_cons. destruct (decide (y <> x)) as [Hne|Heq].
  - rewrite filter_cons. destruct (decide (y ∉ ordered)); now rewrite IH.
  - assert (y = x) as -> by (destruct (decide (y = x)); tauto).
    rewrite decide_False by tauto. exact IH.
Qed.

Lemma filter_snoc ordered x l :
  filter (fun y => y ∉ ordered ++ [x]) l
  = filter (fun y => y ∉ ordered) (filter (fun y => y <> x) l).
Proof.
  induction l as [|y l IH]; [reflexivity|].
  rewrite !filter_cons. destruct (decide (y <> x)) as [Hne|Heq].
  - rewrite filter_cons. destruct (decide (y ∉ ordered)) as [Hn|Hi].
    + rewrite decide_True; [now rewrite IH|].
      rewrite elem_of_app, list_elem_of_singleton. tauto.
    + rewrite decide_False; [exact IH|].
      rewrite elem_of_app. tauto.
  - rewrite decide_False; [exact IH|].
    rewrite elem_of_app, list_elem_of_singleton.
    destruct (decide (y = x)); tauto.
Qed.

(** The loop keeps [seen] equal to the set of [ordered] and appends the
    first occurrences that are new. *)
Lemma note_placeholder_fold l : forall seen ordered,
  (forall y, y ∈ seen <-> y ∈ ordered) ->
  exists seen',
    fold_left note_placeholder l (seen, ordered)
    = (seen', ordered ++ filter (fun y => y ∉ ordered) (first_occurrences l))
    /\ (forall y, y ∈ seen' <-> y ∈ ordered \/ y ∈ l).
Proof.
  induction l as [|x l IH]; intros seen ordered Hseen; simpl.
  - exists seen. rewrite app_nil_r. split; [reflexivity|].
    intros y. rewrite Hseen, elem_of_nil. tauto.
  - destruct (decide (x ∈ seen)) as [Hin|Hnin].
    + destruct (IH seen ordered Hseen) as (seen' & -> & Hs'). exists seen'.
      apply Hseen in Hin. rewrite filter_cons, decide_False by tauto.
      rewrite filter_absorb by assumption. split; [reflexivity|].
      intros y. rewrite Hs', elem_of_cons. split; [tauto|]. intros [H|[->|H]]; tauto.
    + destruct (IH ({[x]} ∪ seen) (ordered ++ [x])) as (seen' & -> & Hs').
      { intros y. rewrite elem_of_union, elem_of_singleton, Hseen, elem_of_app,
          list_elem_of_singleton. tauto. }
      exists seen'. rewrite filter_cons, decide_True by (rewrite <- Hseen; exact Hnin).
      rewrite <- app_assoc. simpl. rewrite filter_snoc. split; [reflexivity|].
      intros y. rewrite Hs', elem_of_app, list_elem_of_singleton, elem_of_cons. tauto.
Qed.

Lemma fold_left_flat_map {A B S : Type} (f : S -> B -> S) (g : A -> list B)
    (xs : list A) :
  forall st : S,
    fold_left (fun st x => fold_left f (g x) st) xs st = fold_left f (flat_map g xs) st.
Proof.
  induction xs as [|x xs IH]; intros st; simpl; [reflexivity|].
  now rewrite fold_left_app, IH.
Qed.

Lemma fold_left_ext {A S : Type} (f g : S -> A -> S) :
  (forall st x, f st x = g st x) ->
  forall (xs : list A) (st : S), fold_left f xs st = fold_left g xs st.
Proof.
  intros Hfg xs. induction xs as [|x xs IH]; intros st; simpl; [reflexivity|].
  now rewrite Hfg, IH.
Qed.

Lemma note_paragraphs_fold (ps : list paragraph) st :
  fold_left note_paragraph ps st
  = fold_left note_placeholder
      (flat_map (fun p => Regex.findall_placeholders (text p)) ps) st.
Proof. unfold note_paragraph. apply fold_left_flat_map. Qed.

Lemma note_header_fold header st :
  note_header st header
  = fold_left note_paragraph
      (paragraphs header ++ flat_map table_paragraphs (tables header)) st.
Proof.
  unfold note_header, table_paragraphs. rewrite fold_left_app.
  rewrite <- (fold_left_flat_map note_paragraph). apply fold_left_ext. intros st' t.
  rewrite <- (fold_left_flat_map note_paragraph). apply fold_left_ext. intros st'' r.
  now rewrite <- (fold_left_flat_map note_paragraph (fun c : cell => c)).
Qed.

Lemma find_placeholders_fold doc :
  find_placeholders_in_order doc
  = snd (fold_left note_placeholder (occurrences doc) (∅, [])).
Proof.
  unfold find_placeholders_in_order, occurrences, scan_order, iter_all_paragraphs.
  rewrite (fold_left_ext _ _ (fun st header => note_header_fold header st)).
  rewrite (fold_left_flat_map note_paragraph).
  rewrite <- fold_left_app, note_paragraphs_fold. do 2 f_equal.
  rewrite map_app, map_map, map_id. f_equal.
  assert (forall ts : list table,
    map snd (flat_map (fun t => map (fun p => (in_cell in_body, p)) (table_paragraphs t)) ts)
    = flat_map table_paragraphs ts) as E.
  { intros ts. induction ts as [|t ts IH]; simpl; [reflexivity|].
    now rewrite map_app, map_map, map_id, IH. }
  now rewrite E.
Qed.

Lemma first_occurrences_elem l x : x ∈ first_occurrences l <-> x ∈ l.
Proof.
  induction l as [|y l IH]; simpl; [reflexivity|].
  rewrite !elem_of_cons, list_elem_of_filter, IH.
  destruct (decide (x = y)); tauto.
Qed.

Lemma first_occurrences_NoDup l : NoDup (first_occurrences l).
Proof.
  induction l as [|y l IH]; simpl; constructor.
  - rewrite list_elem_of_filter. tauto.
  - now apply NoDup_filter.
Qed.

Lemma filter_not_in_nil l : filter (fun y => y ∉ ([] : list string)) l = l.
Proof.
  induction l as [|y l IH]; [reflexivity|].
  rewrite filter_cons, decide_True by apply not_elem_of_nil. now rewrite IH.
Qed.

End Scan.


(** ** Facts about strings *)

Section Strings.

Implicit Types (s t u k pre post old new : string) (c : ascii).

Lemma sapp_nil_l s : EmptyString +:+ s = s.
Proof. reflexivity. Qed.

Lemma sapp_cons c s t : String c s +:+ t = String c (s +:+ t).
Proof. reflexivity. Qed.

Lemma sapp_nil_r s : s +:+ EmptyString = s.
Proof. induction s as [|c s IH]; [reflexivity|]. now rewrite sapp_cons, IH. Qed.

Lemma sapp_assoc s t u : (s +:+ t) +:+ u = s +:+ t +:+ u.
Proof. induction s as [|c s IH]; [reflexivity|]. now rewrite !sapp_cons, IH. Qed.

Lemma slength_app s t : String.length (s +:+ t) = String.length s + String.length t.
Proof. induction s as [|c s IH]; [reflexivity|]. rewrite sapp_cons. simpl. now rewrite IH. Qed.

Lemma prefix_cons c1 s1 c2 s2 :
  String.prefix (String c1 s1) (String c2 s2)
  = if decide (c1 = c2) then String.prefix s1 s2 else false.
Proof. simpl. destruct (ascii_dec c1 c2), (decide (c1 = c2)); congruence. Qed.

Lemma prefix_nil s : String.prefix EmptyString s = true.
Proof. now destruct s. Qed.

Lemma prefix_app s t : String.prefix s (s +:+ t) = true.
Proof.
  induction s as [|c s IH]; [apply prefix_nil|].
  rewrite sapp_cons, prefix_cons, decide_True by reflexivity. exact IH.
Qed.

Lemma prefix_split s : forall t, String.prefix s t = true -> exists r, t = s +:+ r.
Proof.
  induction s as [|c s IH]; intros t H.
  - now exists t.
  - destruct t as [|c' t]; [discriminate|]. rewrite prefix_cons in H.
    destruct (decide (c = c')) as [->|]; [|discriminate].
    destruct (IH t H) as [r ->]. now exists r.
Qed.

Lemma contains_of_prefix k s : String.prefix k s = true -> PyStr.contains k s = true.
Proof. intros H. destruct s; cbn [PyStr.contains]; now rewrite H. Qed.

Lemma contains_intro k pre post : PyStr.contains k (pre +:+ k +:+ post) = true.
Proof.
  induction pre as [|c pre IH].
  - rewrite sapp_nil_l. apply contains_of_prefix, prefix_app.
  - rewrite sapp_cons. simpl PyStr.contains. rewrite IH. apply orb_true_r.
Qed.

Lemma contains_split k s :
  PyStr.contains k s = true -> exists pre post, s = pre +:+ k +:+ post.
Proof.
  induction s as [|c s IH]; cbn [PyStr.contains]; intros H.
  - rewrite orb_false_r in H. apply prefix_split in H as [r ->]. now exists EmptyString, r.
  - apply orb_true_iff in H as [H|H].
    + apply prefix_split in H as [r ->]. now exists EmptyString, r.
    + destruct (IH H) as (pre & post & ->). now exists (String c pre), post.
Qed.

Lemma contains_prefix k s : PyStr.contains k s = false -> String.prefix k s = false.
Proof. destruct s; cbn [PyStr.contains]; intros H; now apply orb_false_iff in H. Qed.

Lemma contains_tail k c s : PyStr.contains k (String c s) = false -> PyStr.contains k s = false.
Proof. cbn [PyStr.contains]. intros H. now apply orb_false_iff in H. Qed.

Lemma replace_from_skip old new u : forall t,
  PyStr.replace_from (String.length u) old new (u +:+ t) = PyStr.replace_from 0 old new t.
Proof. induction u as [|c u IH]; intros t; [reflexivity|]. rewrite sapp_cons. simpl. apply IH. Qed.

Lemma replace_from_hit c old new t :
  PyStr.replace_from 0 (String c old) new (String c old +:+ t)
  = new +:+ PyStr.replace_from 0 (String c old) new t.
Proof.
  rewrite sapp_cons. cbn [PyStr.replace_from].
  rewrite <- sapp_cons, prefix_app. cbn [String.length].
  replace (S (String.length old) - 1) with (String.length old) by lia.
  now rewrite replace_from_skip.
Qed.

Lemma replace_from_miss old new c s :
  String.prefix old (String c s) = false ->
  PyStr.replace_from 0 old new (String c s) = String c (PyStr.replace_from 0 old new s).
Proof. intros H. cbn [PyStr.replace_from]. now rewrite H. Qed.

Lemma replace_absent s old new : PyStr.contains old s = false -> PyStr.replace s old new = s.
Proof.
  destruct old as [|c old].
  - destruct s; discriminate.
  - unfold PyStr.replace. induction s as [|c' s IH]; intros H; [reflexivity|].
    rewrite replace_from_miss by now apply contains_prefix.
    f_equal. apply IH. eapply contains_tail, H.
Qed.

End Strings.

(** ** Placeholder tokens under replacement *)

Section Tokens.

Implicit Types (s t u v k pre post old new body : string) (c : ascii).

Lemma span_spec p s : forall a b,
  PyStr.span p s = (a, b) -> s = a +:+ b /\ sforall p a = true.
Proof.
  induction s as [|c s IH]; simpl; intros a b H.
  - injection H as <- <-. now split.
  - destruct (p c) eqn:Hp.
    + destruct (PyStr.span p s) as [a' b'] eqn:E. injection H as <- <-.
      destruct (IH a' b' eq_refl) as [-> Ha]. simpl. now rewrite Hp, Ha.
    + injection H as <- <-. now split.
Qed.

Lemma sforall_app p s t : sforall p (s +:+ t) = sforall p s && sforall p t.
Proof.
  induction s as [|c s IH]; [reflexivity|].
  rewrite sapp_cons. simpl. now rewrite IH, andb_assoc.
Qed.

Lemma sforall_weaken (p q : ascii -> bool) s :
  (forall c, p c = true -> q c = true) -> sforall p s = true -> sforall q s = true.
Proof.
  intros Hpq. induction s as [|c s IH]; simpl; [easy|].
  intros [Hc Hs]%andb_true_iff. now rewrite (Hpq _ Hc), IH.
Qed.

(** A token is an opening brace, a body without braces that is not empty,
    and a closing brace. *)
Lemma token_shape k :
  is_token k = true ->
  exists body, k = String "{"%char (body +:+ "}")
               /\ body <> EmptyString /\ sforall no_brace body = true.
Proof.
  unfold is_token, Regex.match_placeholder. destruct k as [|c k]; [discriminate|].
  destruct (Ascii.eqb c "{") eqn:Hc; [|discriminate].
  destruct (PyStr.span _ k) as [body rest] eqn:E.
  destruct rest as [|c' rest]; [discriminate|].
  destruct (Ascii.eqb c' "}" && PyStr.truthy body) eqn:H; [|discriminate].
  apply andb_true_iff in H as [_ Hb]. intros Hk%String.eqb_eq.
  apply span_spec in E as [_ Hbody]. exists body. split; [now symmetry|].
  split; [now destruct body | exact Hbody].
Qed.

Lemma sapp_eq_split pre : forall x a y,
  pre +:+ x = a +:+ y ->
  (exists d, a = pre +:+ d /\ x = d +:+ y)
  \/ (exists c d, pre = a +:+ String c d /\ y = String c d +:+ x).
Proof.
  induction pre as [|c pre IH]; intros x a y H.
  - left. exists a. now rewrite sapp_nil_l in *.
  - destruct a as [|c' a].
    + right. exists c, pre. rewrite sapp_nil_l in *. now split.
    + rewrite !sapp_cons in H. injection H as <- H.
      destruct (IH _ _ _ H) as [(d & -> & ->)|(c'' & d & -> & ->)].
      * left. now exists d.
      * right. now exists c'', d.
Qed.

(** Two bodies that end at a closing brace of the same text are equal. *)
Lemma body_unique u : forall v x y,
  sforall no_brace u = true -> sforall no_brace v = true ->
  u +:+ String "}"%char x = v +:+ String "}"%char y -> u = v.
Proof.
  induction u as [|c u IH]; intros v x y Hu Hv H.
  - destruct v as [|c' v]; [reflexivity|]. rewrite sapp_nil_l, sapp_cons in H.
    injection H as <- _. simpl in Hv. discriminate.
  - destruct v as [|c' v].
    + rewrite sapp_nil_l, sapp_cons in H. injection H as -> _. simpl in Hu. discriminate.
    + rewrite !sapp_cons in H. injection H as <- H. simpl in Hu, Hv.
      apply andb_true_iff in Hu as [_ Hu]. apply andb_true_iff in Hv as [_ Hv].
      f_equal. eapply IH; eauto.
Qed.

Lemma token_prefix_unique k old x y :
  is_token k = true -> is_token old = true -> k +:+ x = old +:+ y -> k = old.
Proof.
  intros (bk & -> & _ & Hk)%token_shape (bo & -> & _ & Ho)%token_shape H.
  rewrite !sapp_cons, !sapp_assoc, !sapp_cons, !sapp_nil_l in H. injection H as H.
  now rewrite (body_unique _ _ _ _ Hk Ho H).
Qed.

(** Text without an opening brace is copied by the replacement of a token. *)
Lemma replace_from_pass old new u : forall w,
  sforall not_lbrace u = true ->
  PyStr.replace_from 0 (String "{"%char old) new (u +:+ w)
  = u +:+ PyStr.replace_from 0 (String "{"%char old) new w.
Proof.
  induction u as [|c u IH]; intros w Hu; [reflexivity|].
  simpl in Hu. apply andb_true_iff in Hu as [Hc Hu].
  rewrite !sapp_cons, replace_from_miss; [now rewrite IH|].
  rewrite prefix_cons. unfold not_lbrace in Hc.
  destruct (decide ("{"%char = c)) as [<-|]; [discriminate | reflexivity].
Qed.

Lemma no_brace_not_lbrace s : sforall no_brace s = true -> sforall not_lbrace s = true.
Proof.
  apply sforall_weaken. intros c. unfold no_brace, not_lbrace, Regex.is_brace.
  now destruct (Ascii.eqb c "{").
Qed.

Lemma token_starts_lbrace k :
  is_token k = true -> exists k', k = String "{"%char k'.
Proof. intros (b & -> & _)%token_shape. eauto. Qed.

Lemma token_kept_from k old new :
  is_token k = true -> is_token (String "{"%char old) = true -> k <> String "{"%char old ->
  forall n t pre post,
    String.length t <= n -> t = pre +:+ k +:+ post ->
    PyStr.contains k (PyStr.replace_from 0 (String "{"%char old) new t) = true.
Proof.
  intros Hk Ho Hne n. induction n as [|n IH]; intros t pre post Hn Ht.
  { destruct (token_shape _ Hk) as (bk & -> & _). subst t.
    rewrite slength_app in Hn. simpl in Hn. lia. }
  destruct t as [|c t].
  { destruct (token_shape _ Hk) as (bk & -> & _).
    apply (f_equal String.length) in Ht. rewrite slength_app in Ht. simpl in Ht. lia. }
  destruct (String.prefix (String "{"%char old) (String c t)) eqn:P.
  - apply prefix_split in P as [r Hr]. rewrite Hr, replace_from_hit.
    assert (String.length r <= n) as Hlen.
    { apply (f_equal String.length) in Hr. rewrite slength_app in Hr. simpl in Hr, Hn. lia. }
    assert (exists pre' post', r = pre' +:+ k +:+ post') as (pre' & post' & Hr').
    { rewrite Ht in Hr.
      destruct (sapp_eq_split _ _ _ _ Hr) as [(d & Hold & Hx)|(c' & d & Hpre & Hy)].
      - destruct d as [|c' d].
        + rewrite sapp_nil_l in Hx. now exists EmptyString, post.
        + exfalso. destruct pre as [|c'' pre].
          * rewrite sapp_nil_l in Hold. rewrite Hold in Ho, Hne.
            now apply Hne, (token_prefix_unique _ _ _ _ Hk Ho Hx).
          * destruct (token_shape _ Ho) as (bo & Hbo & _ & Hnb).
            destruct (token_starts_lbrace _ Hk) as (k' & ->).
            rewrite sapp_cons in Hx. injection Hx as <- _.
            rewrite Hold, sapp_cons in Hbo. injection Hbo as _ Hbo.
            apply no_brace_not_lbrace in Hnb.
            assert (sforall not_lbrace (bo +:+ "}") = true) as Hall
              by (rewrite sforall_app, Hnb; reflexivity).
            rewrite <- Hbo, sforall_app in Hall. simpl in Hall.
            now rewrite andb_false_r in Hall.
      - exists (String c' d), post. exact Hy. }
    pose proof (IH r pre' post' Hlen Hr') as H.
    apply contains_split in H as (p1 & p2 & ->).
    rewrite <- sapp_assoc. apply contains_intro.
  - rewrite replace_from_miss by exact P. destruct pre as [|c' pre].
    + rewrite sapp_nil_l in Ht.
      destruct (token_shape _ Hk) as (bk & Hbk & _ & Hnb).
      rewrite Hbk, sapp_cons in Ht. injection Ht as -> ->.
      rewrite (replace_from_pass _ _ (bk +:+ "}")).
      * rewrite <- sapp_cons, <- Hbk, <- (sapp_nil_l (k +:+ _)).
        apply contains_intro.
      * rewrite sforall_app, (no_brace_not_lbrace _ Hnb). reflexivity.
    + rewrite sapp_cons in Ht. injection Ht as -> Ht.
      assert (String.length t <= n) as Hlen by (simpl in Hn; lia).
      pose proof (IH t pre post Hlen Ht) as H.
      apply contains_split in H as (p1 & p2 & ->).
      rewrite <- sapp_cons. apply contains_intro.
Qed.

(** Replacing a token by any value keeps the occurrences of the other
    tokens. *)
Lemma token_kept k old new s :
  is_token k = true -> is_token old = true -> k <> old ->
  PyStr.contains k s = true -> PyStr.contains k (PyStr.replace s old new) = true.
Proof.
  intros Hk Ho Hne (pre & post & ->)%contains_split.
  destruct (token_starts_lbrace _ Ho) as (old' & ->). unfold PyStr.replace.
  now eapply token_kept_from.
Qed.

End Tokens.

(** ** Substitution in a paragraph *)

Section Substitution.

Implicit Types (p : paragraph) (m items : dict) (t k : string).

Lemma fill_with_mapping_cons t old new m :
  fill_with_mapping t ((old, new) :: m) = fill_with_mapping (PyStr.replace t old new) m.
Proof. reflexivity. Qed.



(** Outside table cells, with placeholder tokens as keys, an empty value of
    a key that the text contains sets [remove_entire], whatever the keys in
    front of it are replaced by. *)
Lemma replace_loop_deletes k items : forall t,
  Forall (fun kv => is_token (fst kv) = true) items ->
  NoDup (map fst items) ->
  (k, EmptyString) ∈ items ->
  PyStr.contains k t = true ->
  snd (replace_loop false true items t) = true.
Proof.
  induction items as [|[old new] items IH]; intros t Htok Hnd Hin Hk.
  - now apply elem_of_nil in Hin.
  - inversion Htok as [|? ? Hold Htok']; subst. simpl in Hold.
    apply NoDup_cons in Hnd as [Hfresh Hnd]. cbn [replace_loop].
    destruct (PyStr.contains old t) eqn:Hc; cbn [negb andb].
    + destruct (String.eqb_spec new EmptyString) as [->|Hne]; [reflexivity|].
      apply elem_of_cons in Hin as [Heq|Hin]; [congruence|].
      apply IH; try assumption. apply token_kept; try assumption.
      * eapply Forall_forall in Htok'; [|exact Hin]. exact Htok'.
      * intros ->. apply Hfresh. apply list_elem_of_fmap. now exists (old, EmptyString).
    + apply elem_of_cons in Hin as [Heq|Hin]; [congruence|]. now apply IH.
Qed.

(** The same for any keys: it is enough that the key with the empty value
    still occurs once the keys in front of it have been replaced. *)
Lemma replace_loop_deletes_at k m2 m1 : forall t,
  PyStr.contains k (fill_with_mapping t m1) = true ->
  snd (replace_loop false true (m1 ++ (k, EmptyString) :: m2) t) = true.
Proof.
  induction m1 as [|[old new] m1 IH]; intros t Hk.
  - simpl in Hk. cbn [app replace_loop]. now rewrite Hk.
  - rewrite fill_with_mapping_cons in Hk. rewrite <- app_comm_cons. cbn [replace_loop].
    destruct (PyStr.contains old t) eqn:Hc; cbn [negb andb].
    + destruct (String.eqb new EmptyString); [reflexivity | now apply IH].
    + rewrite replace_absent in Hk by exact Hc. now apply IH.
Qed.



Lemma replace_in_runs_removed above p m :
  is_in_table_cell above = false ->
  Forall (fun kv => is_token (fst kv) = true) m ->
  NoDup (map fst m) ->
  forall k, (k, EmptyString) ∈ m -> PyStr.contains k (text p) = true ->
  replace_in_runs above p m true = Effect p true true.
Proof.
  intros Hcell Htok Hnd k Hin Hk. unfold replace_in_runs.
  destruct m as [|kv m]; [now apply elem_of_nil in Hin|].
  pose proof (replace_loop_deletes k (kv :: m) (text p) Htok Hnd Hin Hk) as Hd.
  rewrite Hcell. destruct (replace_loop _ _ _ _) as [new_text remove_entire].
  simpl in Hd. now subst.
Qed.


Lemma replace_in_runs_removed_at above p m1 k m2 :
  is_in_table_cell above = false ->
  PyStr.contains k (fill_with_mapping (text p) m1) = true ->
  replace_in_runs above p (m1 ++ (k, EmptyString) :: m2) true = Effect p true true.
Proof.
  intros Hcell Hk. unfold replace_in_runs.
  pose proof (replace_loop_deletes_at k m2 m1 (text p) Hk) as Hd.
  destruct (m1 ++ (k, EmptyString) :: m2) as [|kv m] eqn:E; [now destruct m1|].
  rewrite Hcell. destruct (replace_loop _ _ _ _) as [new_text remove_entire].
  simpl in Hd. now subst.
Qed.



End Substitution.

(** Closed decidable goals, by evaluation. *)
Ltac by_compute := refine (bool_decide_unpack _ _); vm_compute; exact I.




(** C10 (amended).  Outside a table cell, [replace_in_runs] takes the whole
    paragraph out, returns [True] and rewrites nothing (the paragraph object
    keeps its runs, and the values of the other keys are lost with it) as
    soon as a key with an empty value still occurs in the text once the keys
    in front of it in the mapping have been replaced.  That is so whenever
    the keys of the mapping are placeholder tokens and the text contains one
    whose value is empty, whatever the other keys map to. *)
Theorem deletion_takes_precedence (above : list string) (p : paragraph) (m : dict)
    (k : string) :
  is_in_table_cell above = false ->
  (forall m1 m2,
     m = m1 ++ (k, EmptyString) :: m2 ->
     PyStr.contains k (fill_with_mapping (text p) m1) = true ->
     replace_in_runs above p m true = Effect p true true)
  /\ (Forall (fun kv => is_token (fst kv) = true) m ->
      NoDup (map fst m) ->
      (k, EmptyString) ∈ m ->
      PyStr.contains k (text p) = true ->
      replace_in_runs above p m true = Effect p true true).
Proof.
  intros Hcell. split.
  - intros m1 m2 -> Hk. now apply replace_in_runs_removed_at.
  - intros. now apply replace_in_runs_removed with k.
Qed.

Lemma deletion_takes_precedence_witness :
  replace_in_runs in_header par_nom_date map_nom_date true = Effect par_nom_date true true.
Proof.
  refine (proj2 (deletion_takes_precedence in_header par_nom_date map_nom_date "{date}" _)
            _ _ _ _); first [reflexivity | by_compute].
Defined.

(** C10, as stated, fails for keys that overlap: the text contains the two
    keys [ab] and [b], the value of [b] is empty and the paragraph is outside
    a table cell, but replacing [ab] first leaves no [b], so the paragraph
    stays and its text is rewritten. *)
Lemma overlapping_keys_no_deletion :
  PyStr.contains "ab" (text par_ab) = true
  /\ PyStr.contains "b" (text par_ab) = true
  /\ dict_get map_ab "b" "?" = EmptyString
  /\ is_in_table_cell in_body = false
  /\ replace_in_runs in_body par_ab map_ab true
     = Effect (Paragraph None [RunText EmptyString; RunText "x"]) false false.
Proof. repeat split; reflexivity. Qed.

(** ** Pruning of the SIM tables *)

Section Pruning.

Implicit Types (m : dict) (t : table) (doc : document).

Lemma scan_indices_spec m row_txt indices :
  scan_indices m row_txt indices
  = flags_of m
      (head (List.filter
               (fun i => existsb (fun key => PyStr.contains key row_txt) (sim_keys i))
               indices)).
Proof.
  induction indices as [|i indices IH]; [reflexivity|]. cbn [scan_indices List.filter].
  destruct (existsb _ (sim_keys i)); [reflexivity | exact IH].
Qed.

Lemma scan_rows_spec m t : scan_rows m t = flags_of m (family_of t).
Proof.
  unfold family_of. induction t as [|r t IH]; [reflexivity|].
  cbn [scan_rows flat_map]. rewrite scan_indices_spec. fold (row_families r).
  destruct (row_families r) as [|i l]; simpl; [exact IH | reflexivity].
Qed.

Lemma any_value_blank m i : any_value m i = false <-> family_blank m i.
Proof.
  unfold any_value, family_blank. rewrite <- not_true_iff_false, existsb_exists. split.
  - intros H key Hkey. destruct (PyStr.strip _) eqn:E; [reflexivity|].
    exfalso. apply H. exists key. rewrite E. split; [now apply list_elem_of_In | reflexivity].
  - intros H (key & Hkey & Ht). apply list_elem_of_In in Hkey.
    now rewrite (H key Hkey) in Ht.
Qed.

Lemma to_remove_spec m t :
  to_remove m t = true <-> exists i, family_of t = Some i /\ family_blank m i.
Proof.
  unfold to_remove. rewrite scan_rows_spec. destruct (family_of t) as [i|]; simpl.
  - rewrite negb_true_iff, any_value_blank. split; [eauto|].
    now intros (j & [= <-] & H).
  - split; [discriminate | now intros (j & [=] & _)].
Qed.

Lemma family_of_range t i : family_of t = Some i -> 1 <= i <= 8.
Proof.
  unfold family_of. intros H. apply head_Some_elem_of in H.
  apply list_elem_of_In, in_flat_map in H as (r & _ & H).
  apply filter_In in H as [H _]. apply in_seq in H. lia.
Qed.

Lemma filter_idempotent {A : Type} (f : A -> bool) (l : list A) :
  List.filter f (List.filter f l) = List.filter f l.
Proof.
  induction l as [|x l IH]; [reflexivity|]. simpl.
  destruct (f x) eqn:E; simpl; [rewrite E; f_equal|]; exact IH.
Qed.

Lemma pruned_tables doc m :
  tables (body (remove_empty_sim_tables doc m))
  = List.filter (fun t => negb (to_remove m t)) (tables (body doc)).
Proof.
  unfold remove_empty_sim_tables. simpl.
  induction (body doc) as [|[p|t] l IH]; simpl; [reflexivity | exact IH |].
  destruct (negb (to_remove m t)); simpl; now rewrite IH.
Qed.

Lemma pruned_paragraphs doc m :
  paragraphs (body (remove_empty_sim_tables doc m)) = paragraphs (body doc).
Proof.
  unfold remove_empty_sim_tables. simpl.
  induction (body doc) as [|[p|t] l IH]; simpl; [reflexivity | now rewrite IH |].
  destruct (negb (to_remove m t)); simpl; now rewrite IH.
Qed.

(** Removing the blank SIM tables beforehand changes nothing: the tables
    are gone before the substitution in the body can reach them. *)
Lemma transform_pruned fs doc m d hc im w sz :
  transform fs doc (Some m) d hc im w sz
  = transform fs (remove_empty_sim_tables doc m) (Some m) d hc im w sz.
Proof.
  unfold transform, remove_empty_sim_tables. simpl. now rewrite filter_idempotent.
Qed.

End Pruning.

(** C2 (amended).  [remove_empty_sim_tables] keeps the paragraphs of the body
    and, of its tables, exactly those it does not mark.  A table is marked if
    and only if it matches a family index [i] (the first index of 1..8 named
    by its first row that names one) and no key of that family has a value
    in the mapping, a value counting as none when it is missing, empty or
    made of blanks only.  [process_document] does this before the
    substitution in the body: its result is the one it gives on the document
    from which the marked tables were taken out beforehand. *)
Theorem sim_tables_pruned (doc : document) (m : dict) :
  tables (body (remove_empty_sim_tables doc m))
  = List.filter (fun t => negb (to_remove m t)) (tables (body doc))
  /\ paragraphs (body (remove_empty_sim_tables doc m)) = paragraphs (body doc)
  /\ (forall t : table,
        to_remove m t = true <-> exists i, family_of t = Some i /\ family_blank m i)
  /\ (forall (t : table) (i : nat), family_of t = Some i -> 1 <= i <= 8)
  /\ (forall fs d hc im w sz,
        transform fs doc (Some m) d hc im w sz
        = transform fs (remove_empty_sim_tables doc m) (Some m) d hc im w sz).
Proof.
  split; [|split; [|split; [|split]]].
  - apply pruned_tables.
  - apply pruned_paragraphs.
  - intros t. apply to_remove_spec.
  - apply family_of_range.
  - intros. apply transform_pruned.
Qed.

(** C2, as stated, fails: the table matches family 1 and the mapping gives
    [{operateur1}] a value that is not empty, a single space, and yet the
    table is deleted, because the value is stripped before it is tested. *)
Lemma blank_value_deletes_table :
  family_of sim_table_1 = Some 1
  /\ dict_get map_blank_sim "{operateur1}" EmptyString = " "
  /\ body (remove_empty_sim_tables (Document [] [BTable sim_table_1]) map_blank_sim) = [].
Proof. repeat split; reflexivity. Qed.

(** ** The walk over the headings *)

Section Walk.

Variable ds : list string.
Implicit Types (blocks pre tail rest : list block) (del : bool) (i : nat).

Lemma walk_cons del b rest i :
  walk ds del (b :: rest) i
  = match b with
    | BParagraph p =>
        if is_heading p then
          match nth_error ds i with
          | None => (b :: rest, Some IndexError)
          | Some d =>
              if String.eqb d KEEP_TITLE_ONLY then
                (b :: fst (walk ds false rest (S i)), snd (walk ds false rest (S i)))
              else if PyStr.truthy d then
                (b :: BParagraph (new_paragraph d) :: fst (walk ds false rest (S i)),
                 snd (walk ds false rest (S i)))
              else walk ds true rest (S i)
          end
        else (b :: fst (walk ds del rest i), snd (walk ds del rest i))
    | BTable t =>
        if del then walk ds true rest i
        else (b :: fst (walk ds false rest i), snd (walk ds false rest i))
    end.
Proof.
  destruct b as [p|t]; cbn [walk].
  - destruct (is_heading p).
    + destruct (nth_error ds i) as [d|]; [|reflexivity].
      destruct (String.eqb d KEEP_TITLE_ONLY); [now destruct (walk ds false rest (S i))|].
      destruct (PyStr.truthy d); [now destruct (walk ds false rest (S i)) | reflexivity].
    + now destruct (walk ds del rest i).
  - destruct del; [reflexivity | now destruct (walk ds false rest i)].
Qed.

(** At a heading, and at the end, the two loops do the same. *)
Lemma walk_at_heading rest i :
  at_heading rest -> walk ds true rest i = walk ds false rest i.
Proof.
  destruct rest as [|[p|t] rest]; simpl; intros H; [reflexivity| |discriminate].
  now rewrite H.
Qed.

(** Without a heading the outer loop passes over every block. *)
Lemma walk_stretch_kept tail rest i :
  no_headings tail ->
  walk ds false (tail ++ rest) i
  = (tail ++ fst (walk ds false rest i), snd (walk ds false rest i)).
Proof.
  induction 1 as [|b tail Hb _ IH]; [apply surjective_pairing|].
  rewrite <- app_comm_cons, walk_cons, IH.
  destruct b as [p|t]; cbn [is_heading_block fst snd] in *; [now rewrite Hb | reflexivity].
Qed.

(** Without a heading the inner loop removes the tables and passes over the
    paragraphs. *)
Lemma walk_stretch_deleted tail rest i :
  no_headings tail ->
  walk ds true (tail ++ rest) i
  = (without_tables tail ++ fst (walk ds true rest i), snd (walk ds true rest i)).
Proof.
  induction 1 as [|b tail Hb _ IH]; [apply surjective_pairing|].
  rewrite <- app_comm_cons, walk_cons, IH.
  destruct b as [p|t]; cbn [is_heading_block fst snd without_tables List.filter app] in *;
    [now rewrite Hb | reflexivity].
Qed.

Lemma count_headings_cons b blocks :
  count_headings (b :: blocks)
  = (if is_heading_block b then 1 else 0) + count_headings blocks.
Proof. unfold count_headings. simpl. now destruct (is_heading_block b). Qed.

Lemma count_headings_app pre rest :
  count_headings (pre ++ rest) = count_headings pre + count_headings rest.
Proof. unfold count_headings. now rewrite List.filter_app, length_app. Qed.

(** With a decision for each of its headings the walk raises nothing. *)
Lemma walk_covered blocks : forall del i,
  i + count_headings blocks <= length ds -> snd (walk ds del blocks i) = None.
Proof.
  induction blocks as [|b blocks IH]; intros del i H; [reflexivity|].
  rewrite count_headings_cons in H. rewrite walk_cons. destruct b as [p|t]; simpl in *.
  - destruct (is_heading p).
    + destruct (nth_error ds i) as [d|] eqn:E.
      * destruct (String.eqb d KEEP_TITLE_ONLY); [apply IH; lia|].
        destruct (PyStr.truthy d); apply IH; lia.
      * apply nth_error_None in E. lia.
    + apply IH. lia.
  - destruct del; apply IH; lia.
Qed.

(** The walk up to a heading does not depend on what follows, and the walk
    from that heading on starts afresh in the outer loop. *)
Lemma walk_split pre h rest : forall del i,
  is_heading h = true ->
  i + count_headings pre <= length ds ->
  walk ds del (pre ++ BParagraph h :: rest) i
  = (fst (walk ds del pre i)
     ++ fst (walk ds false (BParagraph h :: rest) (i + count_headings pre)),
     snd (walk ds false (BParagraph h :: rest) (i + count_headings pre))).
Proof.
  intros del i Hh. revert del i.
  induction pre as [|b pre IH]; intros del i H.
  - assert (walk ds del (BParagraph h :: rest) i = walk ds false (BParagraph h :: rest) i)
      as E by (destruct del; [now apply walk_at_heading | reflexivity]).
    change (fst (walk ds del [] i)) with (@nil block).
    change (count_headings []) with 0. rewrite Nat.add_0_r. cbn [app].
    rewrite E. apply surjective_pairing.
  - rewrite count_headings_cons in *.
    rewrite <- app_comm_cons, (walk_cons del b pre), (walk_cons del b (pre ++ _)).
    destruct b as [p|t]; cbn [is_heading_block] in *.
    + destruct (is_heading p).
      * destruct (nth_error ds i) as [d|] eqn:E; [|apply nth_error_None in E; lia].
        replace (i + (1 + count_headings pre)) with (S i + count_headings pre) by lia.
        destruct (String.eqb d KEEP_TITLE_ONLY); [now rewrite IH by lia|].
        destruct (PyStr.truthy d); now rewrite IH by lia.
      * rewrite IH by lia. reflexivity.
    + destruct del; now rewrite IH by lia.
Qed.

(** A body with more than [n] headings splits at its heading number [n]. *)
Lemma split_at_heading blocks : forall n,
  n < count_headings blocks ->
  exists pre h rest,
    blocks = pre ++ BParagraph h :: rest /\ is_heading h = true /\ count_headings pre = n.
Proof.
  induction blocks as [|b blocks IH]; intros n H; [unfold count_headings in H; simpl in H; lia|].
  rewrite count_headings_cons in H. destruct (is_heading_block b) eqn:Hb.
  - destruct n as [|n].
    + destruct b as [p|t]; [|discriminate]. now exists [], p, blocks.
    + destruct (IH n) as (pre & h & rest & -> & Hh & Hc); [lia|].
      exists (b :: pre), h, rest. rewrite count_headings_cons, Hb, Hc. auto.
  - destruct (IH n) as (pre & h & rest & -> & Hh & Hc); [lia|].
    exists (b :: pre), h, rest. rewrite count_headings_cons, Hb, Hc. auto.
Qed.

End Walk.

(** ** The loops of the walk and its structural form *)

Section Loops.

Variable ds : list string.
Implicit Types (l : list block) (prefix : list (nat * block)) (done : list element).

Lemma tag_cons k b l : tag k (b :: l) = (k, b) :: tag (S k) l.
Proof.
  unfold tag. rewrite imap_cons. f_equal; [f_equal; lia|].
  apply imap_ext. intros i x _. simpl. f_equal. lia.
Qed.

Lemma erase_tag l : forall k, map snd (map as_element (tag k l)) = l.
Proof.
  induction l as [|b l IH]; intros k; [reflexivity|].
  rewrite tag_cons. simpl. now rewrite IH.
Qed.

Lemma remove_above k l : forall k',
  k < k' -> remove_element k (map as_element (tag k' l)) = map as_element (tag k' l).
Proof.
  unfold remove_element. induction l as [|b l IH]; intros k' H; [reflexivity|].
  rewrite tag_cons. cbn [map List.filter as_element fst snd].
  rewrite bool_decide_eq_false_2 by (intros [= ->]; lia). cbn [negb].
  f_equal. apply IH. lia.
Qed.

Lemma remove_below k done : below k done -> remove_element k done = done.
Proof.
  unfold remove_element. induction 1 as [|el done Hel _ IH]; [reflexivity|].
  cbn [List.filter]. rewrite bool_decide_eq_false_2.
  - cbn [negb]. f_equal. exact IH.
  - intros E. specialize (Hel _ E). lia.
Qed.

Lemma remove_element_app k (t1 t2 : list element) :
  remove_element k (t1 ++ t2) = remove_element k t1 ++ remove_element k t2.
Proof. apply List.filter_app. Qed.

Lemma remove_element_hit k b (t : list element) :
  remove_element k (as_element (k, b) :: t) = remove_element k t.
Proof.
  unfold remove_element. cbn [List.filter as_element fst].
  now rewrite bool_decide_eq_true_2 by reflexivity.
Qed.

Lemma remove_tagged k b l done :
  below k done ->
  remove_element k (done ++ map as_element (tag k (b :: l)))
  = done ++ map as_element (tag (S k) l).
Proof.
  intros Hd. rewrite remove_element_app, remove_below by exact Hd. f_equal.
  rewrite tag_cons. cbn [map]. rewrite remove_element_hit. apply remove_above. lia.
Qed.

Lemma insert_above k t l : forall k',
  k < k' -> insert_after k t (map as_element (tag k' l)) = map as_element (tag k' l).
Proof.
  unfold insert_after. induction l as [|b l IH]; intros k' H; [reflexivity|].
  rewrite tag_cons. cbn [map flat_map as_element fst snd].
  rewrite bool_decide_eq_false_2 by (intros [= ->]; lia).
  cbn [app]. f_equal. apply IH. lia.
Qed.

Lemma insert_below k t done : below k done -> insert_after k t done = done.
Proof.
  unfold insert_after. induction 1 as [|el done Hel _ IH]; [reflexivity|].
  cbn [flat_map]. rewrite bool_decide_eq_false_2.
  - cbn [app]. f_equal. exact IH.
  - intros E. specialize (Hel _ E). lia.
Qed.

Lemma insert_after_app k t (t1 t2 : list element) :
  insert_after k t (t1 ++ t2) = insert_after k t t1 ++ insert_after k t t2.
Proof. apply flat_map_app. Qed.

Lemma insert_after_hit k t b (t1 : list element) :
  insert_after k t (as_element (k, b) :: t1)
  = as_element (k, b) :: (None, BParagraph (new_paragraph t)) :: insert_after k t t1.
Proof.
  unfold insert_after. cbn [flat_map as_element fst].
  now rewrite bool_decide_eq_true_2 by reflexivity.
Qed.

Lemma insert_tagged k t b l done :
  below k done ->
  insert_after k t (done ++ map as_element (tag k (b :: l)))
  = (done ++ [as_element (k, b); (None, BParagraph (new_paragraph t))])
    ++ map as_element (tag (S k) l).
Proof.
  intros Hd. rewrite insert_after_app, insert_below by exact Hd.
  rewrite <- app_assoc. f_equal. rewrite tag_cons. cbn [map].
  rewrite insert_after_hit. cbn [app]. do 2 f_equal. apply insert_above. lia.
Qed.

Lemma below_snoc k done b : below k done -> below (S k) (done ++ [as_element (k, b)]).
Proof.
  intros Hd. apply Forall_app. split.
  - eapply Forall_impl; [exact Hd|]. intros el Hel i E. specialize (Hel i E). lia.
  - constructor; [|constructor]. intros i [= <-]. lia.
Qed.

Lemma below_inserted k done b p :
  below k done -> below (S k) (done ++ [as_element (k, b); (None, BParagraph p)]).
Proof.
  intros Hd. replace (done ++ [as_element (k, b); (None, BParagraph p)])
    with ((done ++ [as_element (k, b)]) ++ [(None, BParagraph p)])
    by now rewrite <- app_assoc.
  apply Forall_app. split; [now apply below_snoc|].
  constructor; [|constructor]. intros i [=].
Qed.

Lemma lookup_tagged prefix k l :
  (prefix ++ tag k l) !! length prefix
  = match l with [] => None | b :: _ => Some (k, b) end.
Proof.
  rewrite lookup_app_r by lia. rewrite Nat.sub_diag.
  destruct l as [|b l]; [reflexivity | now rewrite tag_cons].
Qed.

Lemma delete_tagged prefix k b l :
  delete (length prefix) (prefix ++ tag k (b :: l)) = prefix ++ tag (S k) l.
Proof.
  rewrite tag_cons. induction prefix as [|x prefix IH]; [reflexivity|].
  simpl. now rewrite IH.
Qed.

Lemma snoc_tagged prefix k b l :
  prefix ++ tag k (b :: l) = (prefix ++ [(k, b)]) ++ tag (S k) l.
Proof. now rewrite tag_cons, <- app_assoc. Qed.

Lemma snoc_tree done k b l :
  done ++ map as_element (tag k (b :: l))
  = (done ++ [as_element (k, b)]) ++ map as_element (tag (S k) l).
Proof. now rewrite tag_cons, <- app_assoc. Qed.

(** The inner loop stops at the next heading or at the end of the list; of
    the stretch it went through, the tables are gone from the tree. *)
Lemma remove_followers_spec l : forall k prefix done fuel,
  length l <= fuel ->
  below k done ->
  exists prefix' k' l' done' stretch,
    remove_followers fuel (prefix ++ tag k l) (length prefix)
      (done ++ map as_element (tag k l))
    = (prefix' ++ tag k' l', length prefix', done' ++ map as_element (tag k' l'))
    /\ below k' done'
    /\ l = stretch ++ l' /\ no_headings stretch /\ at_heading l'
    /\ map snd done' = map snd done ++ without_tables stretch.
Proof.
  induction l as [|b l IH]; intros k prefix done fuel Hfuel Hd.
  - exists prefix, k, [], done, [].
    refine (conj _ (conj Hd (conj eq_refl (conj (List.Forall_nil _) (conj I _)))));
      [|now rewrite app_nil_r].
    destruct fuel; cbn [remove_followers]; [reflexivity|].
    now rewrite (lookup_tagged prefix k []).
  - destruct fuel as [|fuel]; [simpl in Hfuel; lia|]. cbn [remove_followers].
    rewrite lookup_tagged. destruct (is_heading_block b) eqn:Hb.
    + exists prefix, k, (b :: l), done, [].
      refine (conj eq_refl (conj Hd (conj eq_refl (conj (List.Forall_nil _) (conj Hb _))))).
      now rewrite app_nil_r.
    + destruct b as [p|t].
      * rewrite snoc_tagged, snoc_tree.
        replace (S (length prefix)) with (length (prefix ++ [(k, BParagraph p)]))
          by (rewrite length_app; simpl; lia).
        destruct (IH (S k) (prefix ++ [(k, BParagraph p)])
                    (done ++ [as_element (k, BParagraph p)]) fuel)
          as (prefix' & k' & l' & done' & stretch & E & Hd' & -> & Hs & Hl & Hm);
          [simpl in Hfuel; lia | now apply below_snoc|].
        exists prefix', k', l', done', (BParagraph p :: stretch).
        refine (conj E (conj Hd' (conj eq_refl (conj (List.Forall_cons _ _ _ Hb Hs) (conj Hl _))))).
        rewrite Hm, map_app. cbn [map without_tables List.filter as_element snd].
        now rewrite <- app_assoc.
      * unfold remove_table. rewrite delete_tagged, remove_tagged by exact Hd.
        destruct (IH (S k) prefix done fuel)
          as (prefix' & k' & l' & done' & stretch & E & Hd' & -> & Hs & Hl & Hm);
          [simpl in Hfuel; lia | |].
        { eapply Forall_impl; [exact Hd|]. intros el Hel i Ei. specialize (Hel i Ei). lia. }
        exists prefix', k', l', done', (BTable t :: stretch).
        exact (conj E (conj Hd' (conj eq_refl (conj (List.Forall_cons _ _ _ Hb Hs) (conj Hl Hm))))).
Qed.

(** The outer loop, from any point of the walk, leaves what the structural
    walk leaves of the blocks still to visit. *)
Lemma heading_loop_walk n : forall l,
  length l <= n ->
  forall k prefix done heading_idx fuel,
    length l < fuel ->
    below k done ->
    map snd (fst (heading_loop ds fuel (prefix ++ tag k l) (length prefix) heading_idx
                    (done ++ map as_element (tag k l))))
    = map snd done ++ fst (walk ds false l heading_idx)
    /\ snd (heading_loop ds fuel (prefix ++ tag k l) (length prefix) heading_idx
              (done ++ map as_element (tag k l)))
       = snd (walk ds false l heading_idx).
Proof.
  induction n as [|n IH]; intros l Hn k prefix done heading_idx fuel Hfuel Hd.
  - destruct l; [|simpl in Hn; lia]. destruct fuel; [lia|]. cbn [heading_loop].
    rewrite (lookup_tagged prefix k []).
    split; [cbn; now rewrite !app_nil_r | reflexivity].
  - destruct l as [|b l].
    { destruct fuel; [lia|]. cbn [heading_loop].
      rewrite (lookup_tagged prefix k []).
      split; [cbn; now rewrite !app_nil_r | reflexivity]. }
    destruct fuel as [|fuel]; [lia|]. cbn [heading_loop]. rewrite lookup_tagged, walk_cons.
    assert (length l <= n) as Hl by (simpl in Hn; lia).
    assert (length l < fuel) as Hf by (simpl in Hfuel; lia).
    assert (forall hi,
      map snd (fst (heading_loop ds fuel (prefix ++ tag k (b :: l)) (S (length prefix)) hi
                      (done ++ map as_element (tag k (b :: l)))))
      = map snd done ++ b :: fst (walk ds false l hi)
      /\ snd (heading_loop ds fuel (prefix ++ tag k (b :: l)) (S (length prefix)) hi
                (done ++ map as_element (tag k (b :: l))))
         = snd (walk ds false l hi)) as Hnext.
    { intros hi. rewrite snoc_tagged, snoc_tree.
      replace (S (length prefix)) with (length (prefix ++ [(k, b)]))
        by (rewrite length_app; simpl; lia).
      destruct (IH l Hl (S k) (prefix ++ [(k, b)]) (done ++ [as_element (k, b)]) hi fuel Hf)
        as [E1 E2]; [now apply below_snoc|].
      rewrite E1, E2, map_app, <- app_assoc. now split. }
    destruct (is_heading_block b) eqn:Hb.
    + destruct b as [p|t]; [|discriminate]. cbn [is_heading_block] in Hb. rewrite Hb.
      destruct (nth_error ds heading_idx) as [d|].
      * destruct (String.eqb d KEEP_TITLE_ONLY); [apply Hnext|].
        destruct (PyStr.truthy d).
        -- rewrite insert_tagged by exact Hd. rewrite snoc_tagged.
           replace (S (length prefix)) with (length (prefix ++ [(k, BParagraph p)]))
             by (rewrite length_app; simpl; lia).
           destruct (IH l Hl (S k) (prefix ++ [(k, BParagraph p)])
                       (done ++ [as_element (k, BParagraph p);
                                 (None, BParagraph (new_paragraph d))])
                       (S heading_idx) fuel Hf) as [E1 E2]; [now apply below_inserted|].
           rewrite E1, E2, map_app, <- app_assoc. now split.
        -- cbv zeta. unfold remove_paragraph. rewrite delete_tagged, remove_tagged by exact Hd.
           destruct (remove_followers_spec l (S k) prefix done (length (prefix ++ tag (S k) l)))
             as (prefix' & k' & l' & done' & stretch & E & Hd' & El & Hs & Hl' & Hm).
           { rewrite length_app. unfold tag. rewrite length_imap. lia. }
           { eapply Forall_impl; [exact Hd|]. intros el Hel i Ei. specialize (Hel i Ei). lia. }
           rewrite E. subst l.
           destruct (IH l') with (k := k') (prefix := prefix') (done := done')
             (heading_idx := S heading_idx) (fuel := fuel) as [E1 E2].
           { rewrite length_app in Hl. lia. }
           { rewrite length_app in Hf. lia. }
           { exact Hd'. }
           rewrite E1, E2, Hm, walk_stretch_deleted, walk_at_heading by assumption.
           cbn [fst snd]. now rewrite <- app_assoc.
      * cbn [fst snd]. now rewrite map_app, erase_tag.
    + destruct b as [p|t]; cbn [is_heading_block] in Hb; [rewrite Hb|]; apply Hnext.
Qed.

(** [apply_heading_decisions] leaves what the structural walk leaves of the
    whole body. *)
Lemma apply_heading_decisions_walk (doc : document) :
  apply_heading_decisions doc ds
  = (Document (sections doc) (fst (walk ds false (body doc) 0)),
     snd (walk ds false (body doc) 0)).
Proof.
  unfold apply_heading_decisions, iter_block_items.
  change (imap (fun i b => (i, b)) (body doc)) with (tag 0 (body doc)).
  destruct (heading_loop_walk (length (body doc)) (body doc) (le_n _) 0 [] [] 0
              (S (length (tag 0 (body doc))))) as [E1 E2].
  - unfold tag. rewrite length_imap. lia.
  - constructor.
  - cbn [app length] in E1, E2. change (map as_element (tag 0 (body doc)))
      with (map (fun ib : nat * block => (Some (fst ib), snd ib)) (tag 0 (body doc))) in *.
    destruct (heading_loop _ _ _ _ _ _) as [tree e]. cbn [fst snd map app] in *.
    now rewrite E1, E2.
Qed.

End Loops.



(** C9.  [apply_heading_decisions] reads [decisions[heading_idx]] without a
    test of the index.  With at least as many decisions as the body has
    heading paragraphs it raises nothing.  With fewer it raises
    [IndexError] at the first heading without a decision: the blocks in
    front of that heading have been walked, the heading and what follows it
    are as they were. *)
Theorem decisions_bounds (doc : document) (ds : list string) :
  (count_headings (body doc) <= length ds ->
   snd (apply_heading_decisions doc ds) = None)
  /\ (length ds < count_headings (body doc) ->
      snd (apply_heading_decisions doc ds) = Some IndexError
      /\ exists pre h rest,
           body doc = pre ++ BParagraph h :: rest
           /\ is_heading h = true
           /\ count_headings pre = length ds
           /\ body (fst (apply_heading_decisions doc ds))
              = fst (walk ds false pre 0) ++ BParagraph h :: rest).
Proof.
  rewrite apply_heading_decisions_walk. cbn [fst snd body]. split; intros H.
  - exact (walk_covered ds (body doc) false 0 H).
  - destruct (split_at_heading (body doc) (length ds) H) as (pre & h & rest & E & Hh & Hc).
    assert (walk ds false (body doc) 0
            = (fst (walk ds false pre 0) ++ BParagraph h :: rest, Some IndexError)) as W.
    { rewrite E, (walk_split ds pre h rest false 0 Hh) by lia.
      rewrite walk_cons, Hh. cbn [Nat.add]. rewrite Hc.
      now rewrite (proj2 (nth_error_None ds (length ds))) by lia. }
    rewrite W. split; [reflexivity|]. now exists pre, h, rest.
Qed.

Lemma decisions_bounds_witness :
  snd (apply_heading_decisions doc_two_sections [KEEP_TITLE_ONLY; EmptyString]) = None
  /\ snd (apply_heading_decisions doc_two_sections [EmptyString]) = Some IndexError.
Proof.
  split.
  - apply (proj1 (decisions_bounds doc_two_sections [KEEP_TITLE_ONLY; EmptyString])).
    vm_compute. lia.
  - apply (proj2 (decisions_bounds doc_two_sections [EmptyString])).
    vm_compute. lia.
Defined.

(** ** The decisions of a request *)

Section Decisions.

Implicit Types (supplied defaults : list string) (headings : list paragraph) (m : dict).

Lemma resolve_from_length supplied defaults headings : forall idx,
  length (resolve_from supplied defaults idx headings) = length headings.
Proof. induction headings as [|h hs IH]; intros idx; simpl; [reflexivity | now rewrite IH]. Qed.

Lemma resolve_from_lookup supplied defaults headings : forall idx j,
  j < length headings ->
  nth_error (resolve_from supplied defaults idx headings) j
  = Some (if String.eqb (nth (idx + j) supplied DEFAULT_SENTINEL) DEFAULT_SENTINEL
          then nth (idx + j) defaults EmptyString
          else nth (idx + j) supplied DEFAULT_SENTINEL).
Proof.
  induction headings as [|h hs IH]; intros idx j Hj; simpl in Hj; [lia|].
  destruct j as [|j]; cbn [resolve_from nth_error].
  - now rewrite Nat.add_0_r.
  - rewrite IH by lia. now replace (S idx + j) with (idx + S j) by lia.
Qed.

Lemma default_heading_decisions_nth headings m idx :
  idx < length headings ->
  nth idx (default_heading_decisions headings m) EmptyString
  = fill_with_mapping DEFAULT_ANALYSIS_TEMPLATE m.
Proof.
  unfold default_heading_decisions. revert idx.
  induction headings as [|h hs IH]; intros idx H; simpl in *; [lia|].
  destruct idx; [reflexivity | apply IH; lia].
Qed.

Lemma nth_supplied supplied idx :
  nth idx supplied DEFAULT_SENTINEL
  = match nth_error supplied idx with Some c => c | None => DEFAULT_SENTINEL end.
Proof.
  revert idx. induction supplied as [|c l IH]; intros [|idx]; simpl; auto.
Qed.

(** A supplied list all of whose entries, as far as the headings go, are the
    sentinel or the default phrase resolves to the defaults. *)
Lemma resolve_to_defaults supplied headings m :
  (forall idx c, idx < length headings -> nth_error supplied idx = Some c ->
     c = DEFAULT_SENTINEL \/ c = fill_with_mapping DEFAULT_ANALYSIS_TEMPLATE m) ->
  resolve_decisions (Some supplied) headings m = default_heading_decisions headings m.
Proof.
  intros H. unfold resolve_decisions. apply nth_error_ext. intros j.
  destruct (Nat.lt_ge_cases j (length headings)) as [Hj|Hj].
  - rewrite resolve_from_lookup by exact Hj. cbn [Nat.add].
    rewrite default_heading_decisions_nth by exact Hj.
    assert (nth_error (default_heading_decisions headings m) j
            = Some (fill_with_mapping DEFAULT_ANALYSIS_TEMPLATE m)) as ->.
    { unfold default_heading_decisions. rewrite nth_error_map.
      destruct (nth_error headings j) eqn:E; [reflexivity|].
      apply nth_error_None in E. lia. }
    rewrite nth_supplied. destruct (nth_error supplied j) as [c|] eqn:E; [|reflexivity].
    destruct (String.eqb_spec c DEFAULT_SENTINEL) as [->|Hne]; [reflexivity|].
    destruct (H j c Hj E) as [->| ->]; [congruence | reflexivity].
  - rewrite (proj2 (nth_error_None _ _)), (proj2 (nth_error_None _ _)); [reflexivity| |].
    + unfold default_heading_decisions. now rewrite length_map.
    + now rewrite resolve_from_length.
Qed.

End Decisions.

(** C8.  For a list of decisions supplied to [generate], the list handed to
    [process_document] has one decision per heading of the template: at each
    position the supplied entry taken as it is, or the computed default
    phrase when that entry is the sentinel or when the supplied list ends
    before that position. *)
Theorem decisions_resolved (supplied : list string) (headings : list paragraph)
    (m : dict) :
  length (resolve_decisions (Some supplied) headings m) = length headings
  /\ (forall idx, idx < length headings ->
        nth_error (resolve_decisions (Some supplied) headings m) idx
        = Some match nth_error supplied idx with
               | Some choice =>
                   if String.eqb choice DEFAULT_SENTINEL
                   then fill_with_mapping DEFAULT_ANALYSIS_TEMPLATE m
                   else choice
               | None => fill_with_mapping DEFAULT_ANALYSIS_TEMPLATE m
               end).
Proof.
  unfold resolve_decisions. split; [apply resolve_from_length|].
  intros idx Hidx. rewrite resolve_from_lookup by exact Hidx. cbn [Nat.add].
  rewrite default_heading_decisions_nth by exact Hidx. rewrite nth_supplied.
  destruct (nth_error supplied idx); [reflexivity|]. now rewrite String.eqb_refl.
Qed.

Lemma decisions_resolved_witness :
  nth_error
    (resolve_decisions (Some ["Conforme."; DEFAULT_SENTINEL])
       [titre "A"; titre "B"; titre "C"] [(EmptyString, "Voir ci-dessous.")]) 1
  = Some "Voir ci-dessous.".
Proof.
  refine (proj2 (decisions_resolved ["Conforme."; DEFAULT_SENTINEL]
                   [titre "A"; titre "B"; titre "C"] [(EmptyString, "Voir ci-dessous.")])
            1 _).
  vm_compute. lia.
Defined.

(** C6.  [generate] gives the same file system and the same answer whether
    the decisions are left out, are the sentinel at every position, or are
    the computed default phrase of every heading. *)
Theorem default_decisions_roundtrip (fs : gmap string file) (payload : GeneratePayload)
    (n : nat) :
  generate fs (with_decisions payload (Some (computed_defaults fs payload)))
  = generate fs (with_decisions payload None)
  /\ generate fs (with_decisions payload (Some (repeat DEFAULT_SENTINEL n)))
     = generate fs (with_decisions payload None).
Proof.
  unfold generate, computed_defaults. cbn [with_decisions template overwrite mapping decisions
    heading_content images_at_markers image_width_inches images_at_markers_sizes].
  destruct (get_template_paths fs (template payload)) as [[[src_path output_path] key]|e];
    [|split; reflexivity].
  set (fs1 := if overwrite payload && bool_decide (is_Some (fs !! output_path))
              then delete output_path fs else fs).
  destruct (load fs1 src_path) as [doc|] eqn:E; [|split; reflexivity].
  assert (load fs src_path = Some doc) as ->.
  { unfold fs1, load in *. destruct (overwrite payload && _); [|exact E].
    destruct (decide (output_path = src_path)) as [->|Hne].
    - now rewrite lookup_delete_eq in E.
    - now rewrite lookup_delete_ne in E. }
  split.
  - rewrite resolve_to_defaults; [reflexivity|].
    intros idx c Hidx Hc. right. unfold default_heading_decisions in Hc.
    rewrite nth_error_map in Hc. destruct (nth_error _ idx); now inversion Hc.
  - rewrite resolve_to_defaults; [reflexivity|].
    intros idx c _ Hc. left. apply nth_error_In, repeat_spec in Hc. exact Hc.
Qed.

(** ** The output file *)

Section Output.

Implicit Types (fs : gmap string file) (payload : GeneratePayload).

(** [process_document] changes the file system only by saving the output,
    and only when nothing was raised. *)
Lemma process_document_saves fs input output mo do hc im w sz :
  (snd (process_document fs input output mo do hc im w sz) = None
   /\ exists doc, fst (process_document fs input output mo do hc im w sz)
                  = <[output := Docx doc]> fs)
  \/ (snd (process_document fs input output mo do hc im w sz) <> None
      /\ fst (process_document fs input output mo do hc im w sz) = fs).
Proof.
  unfold process_document. destruct (load fs input) as [doc|]; [|right; now split].
  destruct (transform fs doc mo do hc im w sz) as [doc' [e|]].
  - right. now split.
  - left. split; [reflexivity | now exists doc'].
Qed.

Lemma generate_outcome fs payload :
  match get_template_paths fs (template payload) with
  | inr e => generate fs payload = (fs, inr e)
  | inl (src_path, output_path, key) =>
      let fs1 := if overwrite payload then delete output_path fs else fs in
      (exists e, generate fs payload = (fs1, inr e))
      \/ (exists doc,
            generate fs payload
            = (<[output_path := Docx doc]> fs,
               inl {| status := "ok"; resp_template := key; output := output_path |}))
  end.
Proof.
  unfold generate.
  destruct (get_template_paths fs (template payload)) as [[[src_path output_path] key]|e];
    [|reflexivity].
  set (fs0 := if overwrite payload && bool_decide (is_Some (fs !! output_path))
              then delete output_path fs else fs).
  assert (fs0 = if overwrite payload then delete output_path fs else fs) as E0.
  { unfold fs0. destruct (overwrite payload); [|reflexivity]. cbn [andb].
    case_bool_decide as Hs; [reflexivity|]. symmetry. apply delete_id.
    now apply eq_None_not_Some. }
  assert (forall x, <[output_path := x]> fs0 = <[output_path := x]> fs) as E1.
  { intros x. rewrite E0. destruct (overwrite payload); [apply insert_delete_eq | reflexivity]. }
  cbv zeta. rewrite <- E0. destruct (load fs0 src_path) as [doc|]; [|left; eauto].
  match goal with
  | |- context [process_document ?x1 ?x2 ?x3 ?x4 ?x5 ?x6 ?x7 ?x8 ?x9] =>
      destruct (process_document_saves x1 x2 x3 x4 x5 x6 x7 x8 x9)
        as [[Hn [doc' Hs]]|[Hn Hs]];
      destruct (process_document x1 x2 x3 x4 x5 x6 x7 x8 x9) as [fs' [err|]];
      simpl in Hn, Hs; try congruence
  end.
  - right. exists doc'. now rewrite Hs, E1.
  - left. exists err. now rewrite Hs.
Qed.

End Output.




(** ** Inline markers *)

Section MarkerFacts.

Variable fs : gmap string file.
Variable images : gmap string string.
Variable width_inches : Q.
Variable sizes : gmap string Q.
Variable texts : gmap string (gmap string string).

Lemma part_runs_app (l1 l2 : list string) : forall idx,
  part_runs fs images width_inches sizes texts idx (l1 ++ l2)
  = part_runs fs images width_inches sizes texts idx l1
    ++ part_runs fs images width_inches sizes texts (idx + length l1) l2.
Proof.
  induction l1 as [|c l1 IH]; intros idx; cbn [app part_runs length].
  - now rewrite Nat.add_0_r.
  - rewrite IH, <- app_assoc. now replace (S idx + length l1) with (idx + S (length l1)) by lia.
Qed.






End MarkerFacts.

(** *** The pattern on a marker written to the letter *)

Section Literal.

Implicit Types (s pre post key : string) (cur : list ascii).

Lemma split_from_skip u : forall cur post,
  Regex.split_from (String.length u) cur (u +:+ post) = Regex.split_from 0 cur post.
Proof.
  induction u as [|c u IH]; intros cur post; [reflexivity|].
  rewrite sapp_cons. cbn [String.length Regex.split_from]. apply IH.
Qed.

Lemma split_from_end cur : forall post,
  Regex.split_from 0 cur post
  = match Regex.split_from 0 [] post with
    | first :: parts => (string_of_list_ascii (rev cur) +:+ first) :: parts
    | [] => []
    end.
Proof.
  intros post. revert cur.
  assert (forall n s cur, String.length s <= n ->
    forall skip,
    Regex.split_from skip cur s
    = match Regex.split_from skip [] s with
      | first :: parts => (string_of_list_ascii (rev cur) +:+ first) :: parts
      | [] => []
      end) as H.
  { induction n as [|n IH]; intros s cur Hn skip.
    - destruct s; [|simpl in Hn; lia]. cbn [Regex.split_from rev string_of_list_ascii].
      now rewrite sapp_nil_r.
    - destruct s as [|c s].
      { cbn [Regex.split_from rev string_of_list_ascii]. now rewrite sapp_nil_r. }
      cbn [Regex.split_from]. destruct skip as [|skip].
      + destruct (Regex.match_marker (String c s)) as [[g m]|].
        * cbn [rev string_of_list_ascii]. now rewrite sapp_nil_r.
        * rewrite (IH s (c :: cur)), (IH s [c]) by (simpl in Hn; lia).
          destruct (Regex.split_from 0 [] s) as [|first parts]; [reflexivity|].
          cbn [rev app]. f_equal.
          rewrite <- sapp_assoc. f_equal.
          clear. induction (rev cur) as [|x l IHl]; [reflexivity|].
          cbn [app string_of_list_ascii]. now rewrite sapp_cons, IHl.
      + apply IH. simpl in Hn. lia. }
  intros cur. now apply (H (String.length post)).
Qed.

(** Text without an opening bracket holds no marker. *)
Lemma split_markers_text pre : forall post,
  sforall not_lbracket pre = true ->
  Regex.split_markers (pre +:+ post)
  = match Regex.split_markers post with
    | first :: parts => (pre +:+ first) :: parts
    | [] => []
    end.
Proof.
  unfold Regex.split_markers. induction pre as [|c pre IH]; intros post Hpre.
  - rewrite sapp_nil_l. now destruct (Regex.split_from 0 [] post).
  - simpl in Hpre. apply andb_true_iff in Hpre as [Hc Hpre].
    rewrite sapp_cons. cbn [Regex.split_from].
    assert (Regex.match_marker (String c (pre +:+ post)) = None) as ->.
    { unfold Regex.match_marker, Regex.eat. rewrite prefix_cons.
      unfold not_lbracket in Hc.
      destruct (decide ("["%char = c)) as [<-|]; [discriminate | reflexivity]. }
    rewrite split_from_end, IH by exact Hpre.
    now destruct (Regex.split_from 0 [] post).
Qed.

Lemma span_stops (f : ascii -> bool) key c rest :
  sforall f key = true -> f c = false ->
  PyStr.span f (key +:+ String c rest) = (key, String c rest).
Proof.
  intros Hk Hc. induction key as [|x key IH]; cbn [PyStr.span].
  - rewrite sapp_nil_l. cbn [PyStr.span]. now rewrite Hc.
  - simpl in Hk. apply andb_true_iff in Hk as [Hx Hk].
    rewrite sapp_cons. cbn [PyStr.span]. now rewrite Hx, (IH Hk).
Qed.

Lemma drop_app u : forall rest, PyStr.drop (String.length u) (u +:+ rest) = rest.
Proof. induction u as [|c u IH]; intros rest; [now destruct rest | apply IH]. Qed.

Lemma eat_app lit rest : Regex.eat lit (lit +:+ rest) = Some rest.
Proof. unfold Regex.eat. now rewrite prefix_app, drop_app. Qed.

Lemma skip_spaces_app c lit rest :
  PyStr.isspace c = false ->
  Regex.skip_spaces (String c lit +:+ rest) = String c lit +:+ rest.
Proof. intros H. rewrite sapp_cons. unfold Regex.skip_spaces. cbn [PyStr.lstrip]. now rewrite H. Qed.

(** A marker written to the letter is matched as a whole and gives its key. *)
Lemma match_marker_literal key post :
  clean_key key ->
  Regex.match_marker ("[[IMG:" +:+ key +:+ "]]" +:+ post)
  = Some (key, String.length ("[[IMG:" +:+ key +:+ "]]")).
Proof.
  intros (Hne & Hk & Hs). unfold Regex.match_marker.
  change ("[[IMG:" +:+ key +:+ "]]" +:+ post)
    with ("[[" +:+ "IMG" +:+ ":" +:+ key +:+ String "]" ("]" +:+ post)).
  rewrite eat_app, skip_spaces_app, eat_app, skip_spaces_app, eat_app by reflexivity.
  rewrite (span_stops Regex.not_rbracket key "]" ("]" +:+ post) Hk eq_refl).
  destruct key as [|c key]; [congruence|].
  change (String "]" ("]" +:+ post)) with ("]]" +:+ post). rewrite eat_app.
  unfold Regex.marker_group. rewrite Hs. do 2 f_equal.
  rewrite !slength_app. cbn [String.length]. lia.
Qed.

(** The parts of a text that starts with plain text and a marker written
    to the letter: the plain text, the key, and the parts of what follows. *)
Lemma split_markers_literal pre key post :
  sforall not_lbracket pre = true ->
  clean_key key ->
  Regex.split_markers (pre +:+ "[[IMG:" +:+ key +:+ "]]" +:+ post)
  = pre :: key :: Regex.split_markers post.
Proof.
  intros Hpre Hkey. rewrite split_markers_text by exact Hpre.
  unfold Regex.split_markers at 1.
  change ("[[IMG:" +:+ key +:+ "]]" +:+ post)
    with (String "[" ("[IMG:" +:+ key +:+ "]]" +:+ post)).
  cbn [Regex.split_from].
  change (String "[" ("[IMG:" +:+ key +:+ "]]" +:+ post))
    with ("[[IMG:" +:+ key +:+ "]]" +:+ post).
  rewrite match_marker_literal by exact Hkey.
  cbn [rev string_of_list_ascii]. rewrite sapp_nil_r. do 2 f_equal.
  replace ("[IMG:" +:+ key +:+ "]]" +:+ post) with (("[IMG:" +:+ key +:+ "]]") +:+ post)
    by now rewrite !sapp_assoc.
  replace (String.length ("[[IMG:" +:+ key +:+ "]]") - 1)
    with (String.length ("[IMG:" +:+ key +:+ "]]"))
    by (change ("[[IMG:" +:+ key +:+ "]]") with (String "[" ("[IMG:" +:+ key +:+ "]]"));
        cbn [String.length]; lia).
  apply split_from_skip.
Qed.

End Literal.



(** ** The templates of a request *)

(** The paths of the three templates and of their outputs, by evaluation. *)
Ltac out_paths :=
  repeat match goal with
  | |- context [assoc OUTPUT_PATHS ?n] =>
      let v := eval vm_compute in (assoc OUTPUT_PATHS n) in
      change (assoc OUTPUT_PATHS n) with v
  end; cbn [default id].

Ltac table_paths :=
  repeat match goal with
  | |- context [assoc TEMPLATES ?n] =>
      let v := eval vm_compute in (assoc TEMPLATES n) in
      change (assoc TEMPLATES n) with v
  end; out_paths.

Section Templates.

Implicit Types (fs : gmap string file) (payload : GeneratePayload).

(** What [get_template_paths] returns is an entry of [TEMPLATES] whose file
    exists, with the output path of the same name. *)
Lemma get_template_paths_entry fs selected src out key :
  get_template_paths fs selected = inl (src, out, key) ->
  (key, src, out) ∈ [("test", "test.docx", "test_sortie.docx");
                      ("test2", "test2.docx", "test2_sortie.docx");
                      ("test3", "test3.docx", "test3_sortie.docx")]
  /\ is_Some (fs !! src).
Proof.
  unfold get_template_paths. destruct selected as [[|c s]|].
  - cbn [TEMPLATES List.find snd].
    repeat (case_bool_decide; [out_paths; intros [= <- <- <-]; split; [set_solver | assumption]|]).
    intros [=].
  - unfold assoc at 1. cbn [TEMPLATES List.find fst snd].
    repeat match goal with
    | |- context [String.eqb ?a (String c s)] =>
      destruct (String.eqb_spec a (String c s)) as [<-|_];
      [cbn [fmap option_fmap option_map snd]; case_bool_decide; [|intros [=]];
       out_paths; intros [= <- <- <-]; split; [set_solver | assumption]|]
    end.
    intros [=].
  - cbn [TEMPLATES List.find snd].
    repeat (case_bool_decide; [out_paths; intros [= <- <- <-]; split; [set_solver | assumption]|]).
    intros [=].
Qed.

Lemma entry_paths_differ key src out :
  (key, src, out) ∈ [("test", "test.docx", "test_sortie.docx");
                      ("test2", "test2.docx", "test2_sortie.docx");
                      ("test3", "test3.docx", "test3_sortie.docx")] ->
  (key, src) ∈ TEMPLATES /\ (out ∉ map snd TEMPLATES) /\ src <> out.
Proof.
  rewrite !elem_of_cons, elem_of_nil.
  intros [[= -> -> ->]|[[= -> -> ->]|[[= -> -> ->]|[]]]];
    (split; [by_compute|split; [|congruence]]);
    cbn [TEMPLATES map snd]; rewrite !elem_of_cons, elem_of_nil;
    intros [?|[?|[?|[]]]]; congruence.
Qed.

Lemma assoc_elem (l : list (string * string)) k v :
  assoc l k = Some v -> (k, v) ∈ l /\ v ∈ map snd l.
Proof.
  unfold assoc. destruct (List.find _ l) as [[k' v']|] eqn:F; [|discriminate].
  intros [= <-]. apply find_some in F as [F Hk]. apply String.eqb_eq in Hk. simpl in Hk.
  subst k'. apply list_elem_of_In in F. split; [exact F|].
  apply list_elem_of_fmap. now exists (k, v').
Qed.

(** Which template is selected depends only on which of the three template
    files exist. *)
Lemma get_template_paths_stable fs fs' selected :
  (forall p, p ∈ map snd TEMPLATES -> (is_Some (fs' !! p) <-> is_Some (fs !! p))) ->
  get_template_paths fs' selected = get_template_paths fs selected.
Proof.
  intros H.
  assert (forall p, p ∈ map snd TEMPLATES ->
            bool_decide (is_Some (fs' !! p)) = bool_decide (is_Some (fs !! p))) as Hb.
  { intros p Hp. apply bool_decide_ext, H, Hp. }
  assert (List.find (fun kv : string * string => bool_decide (is_Some (fs' !! snd kv))) TEMPLATES
          = List.find (fun kv : string * string => bool_decide (is_Some (fs !! snd kv))) TEMPLATES)
    as Hfind.
  { cbn [TEMPLATES List.find snd]. rewrite !Hb by by_compute. reflexivity. }
  unfold get_template_paths. destruct selected as [[|c s]|]; [now rewrite Hfind| |now rewrite Hfind].
  destruct (assoc TEMPLATES (String c s)) as [src_path|] eqn:E; [|reflexivity].
  rewrite Hb; [reflexivity | now apply assoc_elem in E as [_ E]].
Qed.

End Templates.

(** ** Headings and decisions along the pipeline *)

Section Coverage.

Implicit Types (doc : document) (m : dict) (blocks : list block) (p : paragraph).

Lemma replace_in_runs_style above p m allow_delete :
  style (para (replace_in_runs above p m allow_delete)) = style p.
Proof.
  unfold replace_in_runs. destruct m as [|kv m]; [reflexivity|].
  destruct (replace_loop _ _ _ _) as [new_text remove_entire].
  destruct remove_entire; [reflexivity|]. now destruct (String.eqb new_text (text p)).
Qed.

Lemma is_heading_style p q : style p = style q -> is_heading p = is_heading q.
Proof. unfold is_heading. now intros ->. Qed.

Lemma count_headings_filter (f : block -> bool) blocks :
  count_headings (List.filter f blocks) <= count_headings blocks.
Proof.
  induction blocks as [|b blocks IH]; [reflexivity|]. cbn [List.filter].
  destruct (f b); rewrite !count_headings_cons; lia.
Qed.

Lemma count_headings_replace above m blocks :
  count_headings (replace_in_blocks above m blocks) <= count_headings blocks.
Proof.
  unfold replace_in_blocks. induction blocks as [|[p|t] blocks IH]; [reflexivity| |].
  - cbn [flat_map]. destruct (removed (replace_in_runs above p m true)).
    + cbn [app]. rewrite count_headings_cons. lia.
    + cbn [app map]. rewrite !count_headings_cons. cbn [is_heading_block].
      rewrite (is_heading_style _ p) by apply replace_in_runs_style. lia.
  - cbn [flat_map app map]. rewrite !count_headings_cons. cbn [is_heading_block]. lia.
Qed.

Lemma count_headings_paragraphs blocks :
  count_headings blocks = length (List.filter is_heading (paragraphs blocks)).
Proof.
  unfold paragraphs. induction blocks as [|[p|t] blocks IH]; [reflexivity| |].
  - rewrite count_headings_cons. cbn [flat_map app List.filter is_heading_block].
    destruct (is_heading p); cbn [length]; lia.
  - rewrite count_headings_cons. cbn [flat_map app is_heading_block]. lia.
Qed.

(** The headings [collect_headings_in_order] lists are those of the body and
    then those of the cells of its tables: at least as many as the body has. *)
Lemma headings_cover_body doc :
  count_headings (body doc) <= length (collect_headings_in_order doc).
Proof.
  unfold collect_headings_in_order, iter_all_paragraphs.
  rewrite map_app, List.filter_app, length_app, map_map, map_id.
  rewrite count_headings_paragraphs. cbn [snd]. lia.
Qed.

(** The body when [apply_heading_decisions] is called: the substitution, the
    pruning and the removal of the blank paragraphs add no heading. *)
Lemma prepared_headings m doc :
  count_headings
    (body (remove_empty_paragraphs
             (Document
                (sections (remove_empty_sim_tables
                             (Document (map (replace_in_blocks in_header m) (sections doc))
                                (body doc)) m))
                (replace_in_blocks in_body m
                   (body (remove_empty_sim_tables
                            (Document (map (replace_in_blocks in_header m) (sections doc))
                               (body doc)) m))))))
  <= count_headings (body doc).
Proof.
  unfold remove_empty_paragraphs, remove_empty_sim_tables. cbn [body sections].
  etransitivity; [apply count_headings_filter|].
  etransitivity; [apply count_headings_replace|]. apply count_headings_filter.
Qed.




End Coverage.

Section Requests.

Implicit Types (fs : gmap string file) (payload : GeneratePayload).





End Requests.


Section Repeat.

Implicit Types (fs : gmap string file) (payload : GeneratePayload).

Lemma generate_elsewhere fs payload :
  match get_template_paths fs (template payload) with
  | inr _ => fst (generate fs payload) = fs
  | inl (_, out, _) => forall p, p <> out -> fst (generate fs payload) !! p = fs !! p
  end.
Proof.
  pose proof (generate_outcome fs payload) as H.
  destruct (get_template_paths fs (template payload)) as [[[src out] key]|e].
  - cbv zeta in H. intros p Hp. destruct H as [[e ->]|[doc ->]]; cbn [fst].
    + destruct (overwrite payload); [now apply lookup_delete_ne | reflexivity].
    + now apply lookup_insert_ne.
  - now rewrite H.
Qed.

Lemma generate_templates fs payload p :
  p ∈ map snd TEMPLATES -> fst (generate fs payload) !! p = fs !! p.
Proof.
  intros Hp. pose proof (generate_elsewhere fs payload) as H.
  destruct (get_template_paths fs (template payload)) as [[[src out] key]|e] eqn:G.
  - apply H. apply get_template_paths_entry in G as [G _].
    apply entry_paths_differ in G as (_ & Hout & _). now intros ->.
  - now rewrite H.
Qed.

Lemma generate_selection fs payload selected :
  get_template_paths (fst (generate fs payload)) selected = get_template_paths fs selected.
Proof. apply get_template_paths_stable. intros p Hp. now rewrite generate_templates. Qed.

(** With [overwrite] set, [generate] depends on the file system without its
    output file only. *)
Lemma generate_unlinked fs fs2 payload src out key :
  overwrite payload = true ->
  get_template_paths fs (template payload) = inl (src, out, key) ->
  get_template_paths fs2 (template payload) = inl (src, out, key) ->
  delete out fs2 = delete out fs ->
  generate fs2 payload = generate fs payload.
Proof.
  intros Ho G G2 E. unfold generate. rewrite G, G2, Ho. cbn [andb]. cbv zeta.
  assert (forall f : gmap string file,
            (if bool_decide (is_Some (f !! out)) then delete out f else f) = delete out f) as D.
  { intros f. case_bool_decide as Hs; [reflexivity|]. symmetry. apply delete_id.
    now apply eq_None_not_Some. }
  now rewrite !D, E.
Qed.

End Repeat.

(** X2.  [generate] never creates, deletes or changes the file of a
    template: the output path of a template is another path, and the output
    path is the only one [generate] touches.  So the template that a name, or
    no name, selects is the same after a request as before it. *)
Theorem generate_keeps_templates (fs : gmap string file) (payload : GeneratePayload) :
  (forall name src, (name, src) ∈ TEMPLATES -> fst (generate fs payload) !! src = fs !! src)
  /\ (forall selected,
        get_template_paths (fst (generate fs payload)) selected
        = get_template_paths fs selected).
Proof.
  split.
  - intros name src H. apply generate_templates. apply list_elem_of_fmap. now exists (name, src).
  - apply generate_selection.
Qed.

(** X3.  After a request that succeeded, [download] for the same template,
    named as in the request or by the name the answer gives, sends the file
    [generate] has just written, under its own name. *)
Theorem download_after_generate (fs : gmap string file) (payload : GeneratePayload)
    (resp : response) :
  snd (generate fs payload) = inl resp ->
  let fs' := fst (generate fs payload) in
  let sent := {| sent_path := output resp; sent_filename := output resp |} in
  download fs' (template payload) = inl sent
  /\ download fs' (Some (resp_template resp)) = inl sent
  /\ exists doc, fs' !! output resp = Some (Docx doc).
Proof.
  intros Hr fs' sent.
  pose proof (generate_outcome fs payload) as H.
  destruct (get_template_paths fs (template payload)) as [[[src out] key]|e] eqn:G;
    [|rewrite H in Hr; discriminate].
  cbv zeta in H. destruct H as [[e H]|[doc H]]; [rewrite H in Hr; discriminate|].
  rewrite H in Hr. cbn [snd] in Hr. injection Hr as <-.
  assert (fs' !! out = Some (Docx doc)) as Hout.
  { unfold fs'. rewrite H. cbn [fst]. apply lookup_insert_eq. }
  assert (path_name_from EmptyString out = out) as Hname.
  { apply get_template_paths_entry in G as [G _].
    rewrite !elem_of_cons, elem_of_nil in G.
    destruct G as [[= -> -> ->]|[[= -> -> ->]|[[= -> -> ->]|[]]]]; reflexivity. }
  assert (get_template_paths fs' (Some key) = inl (src, out, key)) as Gk.
  { unfold fs'. rewrite generate_selection.
    apply get_template_paths_entry in G as [G Hs].
    rewrite !elem_of_cons, elem_of_nil in G.
    destruct G as [[= -> -> ->]|[[= -> -> ->]|[[= -> -> ->]|[]]]];
      unfold get_template_paths; cbv iota beta;
      match goal with
      | |- context [assoc TEMPLATES ?n] =>
          let v := eval vm_compute in (assoc TEMPLATES n) in
          change (assoc TEMPLATES n) with v
      end; out_paths; cbv iota beta; now rewrite bool_decide_eq_true_2. }
  cbn [output resp_template]. unfold download.
  unfold fs' at 1. rewrite generate_selection, G. fold fs'. rewrite Gk.
  rewrite bool_decide_eq_true_2 by (rewrite Hout; eauto). cbn [negb].
  rewrite Hname. split; [reflexivity|]. split; [reflexivity|]. now exists doc.
Qed.

Lemma download_after_generate_witness :
  download (fst (generate fs_one_template payload_two_decisions)) None
  = inl {| sent_path := "test_sortie.docx"; sent_filename := "test_sortie.docx" |}.
Proof.
  refine (proj1 (download_after_generate fs_one_template payload_two_decisions
                   {| status := "ok"; resp_template := "test"; output := "test_sortie.docx" |}
                   _)).
  reflexivity.
Defined.

(** X4.  With [overwrite] set, a request repeated on the file system the
    first one left gives the same answer and leaves the same file system:
    the earlier output is deleted before the template is read, so the second
    run starts from what the first one started from. *)
Theorem generate_twice (fs : gmap string file) (payload : GeneratePayload) :
  overwrite payload = true ->
  generate (fst (generate fs payload)) payload = generate fs payload.
Proof.
  intros Ho. pose proof (generate_outcome fs payload) as H.
  destruct (get_template_paths fs (template payload)) as [[[src out] key]|e] eqn:G.
  - apply (generate_unlinked fs _ payload src out key Ho G).
    + now rewrite generate_selection.
    + cbv zeta in H. rewrite Ho in H. destruct H as [[e ->]|[doc ->]]; cbn [fst].
      * apply delete_delete_eq.
      * apply delete_insert_eq.
  - now rewrite H.
Qed.

Lemma generate_twice_witness :
  generate (fst (generate fs_one_template payload_again)) payload_again
  = generate fs_one_template payload_again.
Proof. apply (generate_twice fs_one_template payload_again). reflexivity. Defined.

(** X5.  [list_templates] names the three templates and, as the default,
    the one [get_template_paths] selects for a request that names none: the
    first whose file exists.  When no file exists it still gives the first
    template as the default, for which [get_template_paths] answers 404. *)
Theorem default_template_is_selected (fs : gmap string file) :
  listed (list_templates fs) = ["test"; "test2"; "test3"]
  /\ (forall src out key,
        get_template_paths fs None = inl (src, out, key) ->
        default_name (list_templates fs) = Some key
        /\ get_template_paths fs (Some key) = inl (src, out, key))
  /\ (forall e,
        get_template_paths fs None = inr e ->
        default_name (list_templates fs) = Some "test"
        /\ get_template_paths fs (Some "test") = inr (HTTPException 404)).
Proof.
  split; [reflexivity|].
  unfold list_templates, get_template_paths, available_templates, template_path.
  cbn [TEMPLATES map fst List.find snd default_name]. table_paths.
  repeat case_bool_decide; split; intros; simplify_eq;
    (split; [reflexivity|]); cbv iota beta; table_paths;
    first [reflexivity | now rewrite bool_decide_eq_true_2].
Qed.

(** ** The mapping of a request, completed *)

Section Completion.

Implicit Types (m : dict) (phs : list string) (doc : document) (s ph : string).

Lemma dict_mem_app m1 m2 key : dict_mem (m1 ++ m2) key = dict_mem m1 key || dict_mem m2 key.
Proof. unfold dict_mem. apply existsb_app. Qed.

Lemma dict_get_app m1 m2 key d :
  dict_get (m1 ++ m2) key d
  = if dict_mem m1 key then dict_get m1 key d else dict_get m2 key d.
Proof.
  induction m1 as [|[k v] m1 IH]; [reflexivity|].
  cbn [app dict_get dict_mem existsb fst]. destruct (String.eqb k key); [reflexivity|].
  exact IH.
Qed.

Lemma dict_mem_keys m key : dict_mem m key = true <-> key ∈ map fst m.
Proof.
  unfold dict_mem. rewrite existsb_exists, list_elem_of_fmap. split.
  - intros (kv & Hin & He). apply String.eqb_eq in He. exists kv.
    split; [now symmetry | now apply list_elem_of_In].
  - intros (kv & -> & Hin). exists kv. split; [now apply list_elem_of_In | apply String.eqb_refl].
Qed.

(** [setdefault] over a list without repetition appends, in order, the keys
    that the mapping does not have. *)
Lemma setdefault_fold phs : forall m,
  NoDup phs ->
  fold_left (fun m missing => dict_setdefault m missing EmptyString) phs m
  = m ++ map (fun ph => (ph, EmptyString)) (List.filter (fun ph => negb (dict_mem m ph)) phs).
Proof.
  induction phs as [|ph phs IH]; intros m Hnd; [now rewrite app_nil_r|].
  apply NoDup_cons in Hnd as [Hfresh Hnd]. cbn [fold_left List.filter]. unfold dict_setdefault at 2.
  destruct (dict_mem m ph) eqn:Hm; cbn [negb]; [now apply IH|].
  rewrite IH by exact Hnd. rewrite <- app_assoc. cbn [app map]. do 3 f_equal.
  apply List.filter_ext_in. intros x Hx. rewrite dict_mem_app. cbn [dict_mem existsb fst].
  rewrite orb_false_r. destruct (String.eqb_spec ph x) as [->|_]; [|now rewrite orb_false_r].
  exfalso. apply Hfresh. now apply list_elem_of_In.
Qed.

Lemma find_placeholders_NoDup doc : NoDup (find_placeholders_in_order doc).
Proof.
  rewrite find_placeholders_fold.
  destruct (note_placeholder_fold (occurrences doc) ∅ []) as (seen' & -> & _).
  - intros y. rewrite elem_of_nil. set_solver.
  - cbn [snd app]. rewrite filter_not_in_nil. apply first_occurrences_NoDup.
Qed.

Lemma find_placeholders_elem doc ph :
  ph ∈ find_placeholders_in_order doc <-> ph ∈ occurrences doc.
Proof.
  rewrite find_placeholders_fold.
  destruct (note_placeholder_fold (occurrences doc) ∅ []) as (seen' & -> & _).
  - intros y. rewrite elem_of_nil. set_solver.
  - cbn [snd app]. rewrite filter_not_in_nil. apply first_occurrences_elem.
Qed.

Lemma completed_mapping_eq doc m :
  completed_mapping doc m
  = m ++ map (fun ph => (ph, EmptyString))
           (List.filter (fun ph => negb (dict_mem m ph)) (find_placeholders_in_order doc)).
Proof. apply setdefault_fold, find_placeholders_NoDup. Qed.

Lemma dict_mem_added phs key :
  dict_mem (map (fun ph => (ph, EmptyString)) phs) key = bool_decide (key ∈ phs).
Proof.
  induction phs as [|ph phs IH]; [reflexivity|].
  cbn [map dict_mem existsb fst]. fold (dict_mem (map (fun ph => (ph, EmptyString)) phs) key).
  rewrite IH. destruct (String.eqb_spec ph key) as [->|Hne].
  - symmetry. apply bool_decide_eq_true_2. left.
  - cbn [orb]. apply bool_decide_ext. rewrite elem_of_cons. split; [tauto|].
    intros [->|H]; [congruence | exact H].
Qed.

Lemma dict_get_added phs key d :
  key ∈ phs -> dict_get (map (fun ph => (ph, EmptyString)) phs) key d = EmptyString.
Proof.
  induction phs as [|ph phs IH]; intros H; [now apply elem_of_nil in H|].
  cbn [map dict_get]. destruct (String.eqb_spec ph key) as [->|Hne]; [reflexivity|].
  apply IH. apply elem_of_cons in H as [->|H]; [congruence | exact H].
Qed.

(** What [PLACEHOLDER_PATTERN] matches is a token that the text starts
    with. *)
Lemma match_placeholder_token s ph :
  Regex.match_placeholder s = Some ph ->
  is_token ph = true /\ String.prefix ph s = true.
Proof.
  unfold Regex.match_placeholder. destruct s as [|c s]; [discriminate|].
  destruct (Ascii.eqb_spec c "{") as [->|]; [|discriminate].
  destruct (PyStr.span _ s) as [body rest] eqn:E.
  destruct rest as [|c' rest]; [discriminate|].
  destruct (Ascii.eqb_spec c' "}") as [->|]; [|discriminate].
  destruct (PyStr.truthy body) eqn:Hb; [|discriminate]. cbn [andb]. intros [= <-].
  apply span_spec in E as [-> Hbody]. split.
  - unfold is_token, Regex.match_placeholder. rewrite Ascii.eqb_refl.
    rewrite (span_stops _ body "}" EmptyString Hbody eq_refl).
    rewrite Ascii.eqb_refl, Hb. cbn [andb]. apply String.eqb_refl.
  - change (String "{" (body +:+ "}")) with (String "{" body +:+ "}").
    change (String "{" (body +:+ String "}" rest))
      with (String "{" body +:+ "}" +:+ rest).
    rewrite <- sapp_assoc. apply prefix_app.
Qed.

Lemma findall_from_token s : forall skip ph,
  ph ∈ Regex.findall_from skip s -> is_token ph = true /\ PyStr.contains ph s = true.
Proof.
  induction s as [|c s IH]; intros skip ph H; [now apply elem_of_nil in H|].
  cbn [Regex.findall_from] in H.
  assert (forall k, ph ∈ Regex.findall_from k s ->
            is_token ph = true /\ PyStr.contains ph (String c s) = true) as Htail.
  { intros k Hk. destruct (IH k ph Hk) as [Ht Hc]. split; [exact Ht|].
    cbn [PyStr.contains]. rewrite Hc. apply orb_true_r. }
  destruct skip as [|k]; [|now apply (Htail k)].
  destruct (Regex.match_placeholder (String c s)) as [ph'|] eqn:M; [|now apply (Htail 0)].
  apply elem_of_cons in H as [->|H]; [|eapply Htail; exact H].
  apply match_placeholder_token in M as [Ht Hp]. split; [exact Ht|].
  now apply contains_of_prefix.
Qed.

Lemma occurrences_token doc ph : ph ∈ occurrences doc -> is_token ph = true.
Proof.
  unfold occurrences. intros H. apply list_elem_of_In, in_flat_map in H as (p & _ & H).
  apply list_elem_of_In in H. now apply findall_from_token in H.
Qed.

Lemma body_occurrence doc p ph :
  p ∈ paragraphs (body doc) -> ph ∈ Regex.findall_placeholders (text p) ->
  ph ∈ occurrences doc.
Proof.
  intros Hp Hph. unfold occurrences, scan_order.
  apply list_elem_of_In, in_flat_map. exists p. split; [|now apply list_elem_of_In].
  apply in_or_app. right. apply in_or_app. left. now apply list_elem_of_In.
Qed.

End Completion.

(** *** Every token of a text is found *)

Section ScanComplete.

Implicit Types (s t u k pre post : string) (c : ascii).

Lemma findall_from_skip u : forall t,
  Regex.findall_from (String.length u) (u +:+ t) = Regex.findall_from 0 t.
Proof.
  induction u as [|c u IH]; intros t; [reflexivity|].
  rewrite sapp_cons. cbn [String.length Regex.findall_from]. apply IH.
Qed.

Lemma findall_from_hit c u t ph :
  Regex.match_placeholder (String c u +:+ t) = Some (String c u) ->
  ph ∈ String c u :: Regex.findall_from 0 t ->
  ph ∈ Regex.findall_from 0 (String c u +:+ t).
Proof.
  intros M H. rewrite sapp_cons in *. cbn [Regex.findall_from]. rewrite M.
  cbn [String.length]. replace (S (String.length u) - 1) with (String.length u) by lia.
  now rewrite findall_from_skip.
Qed.

(** A text that starts with a token is matched there, by that token. *)
Lemma match_placeholder_at k post :
  is_token k = true -> Regex.match_placeholder (k +:+ post) = Some k.
Proof.
  intros (body & -> & Hne & Hb)%token_shape.
  rewrite sapp_cons, sapp_assoc. change ("}" +:+ post) with (String "}" post).
  unfold Regex.match_placeholder. rewrite Ascii.eqb_refl.
  change (fun c => negb (Regex.is_brace c)) with no_brace.
  rewrite (span_stops no_brace body "}" post Hb eq_refl), Ascii.eqb_refl.
  now destruct body.
Qed.

Lemma findall_complete k :
  is_token k = true ->
  forall n t pre post,
    String.length t <= n -> t = pre +:+ k +:+ post -> k ∈ Regex.findall_from 0 t.
Proof.
  intros Hk n. induction n as [|n IH]; intros t pre post Hn Ht.
  { destruct (token_shape _ Hk) as (bk & -> & _). subst t.
    rewrite slength_app in Hn. simpl in Hn. lia. }
  destruct t as [|c t].
  { destruct (token_shape _ Hk) as (bk & -> & _).
    apply (f_equal String.length) in Ht. rewrite slength_app in Ht. simpl in Ht. lia. }
  destruct (Regex.match_placeholder (String c t)) as [m|] eqn:M.
  - pose proof (match_placeholder_token _ _ M) as [Hm Hp].
    apply prefix_split in Hp as [r Hr].
    destruct (token_starts_lbrace _ Hm) as (m' & Em).
    rewrite Hr, Em. apply findall_from_hit; [now rewrite <- Em, <- Hr|]. rewrite <- Em.
    rewrite Ht in Hr. destruct pre as [|c' pre].
    + rewrite sapp_nil_l in Hr.
      rewrite (token_prefix_unique _ _ _ _ Hk Hm Hr). left.
    + assert (String.length r <= n) as Hlen.
      { apply (f_equal String.length) in Hr. rewrite Ht, Hr in Hn.
        rewrite Em, slength_app in Hn. simpl in Hn. lia. }
      destruct (sapp_eq_split _ _ _ _ Hr) as [(d & Hold & Hx)|(c2 & d & Hpre & Hy)].
      * destruct d as [|c2 d].
        -- right. apply (IH r EmptyString post Hlen). now rewrite sapp_nil_l in *.
        -- exfalso. destruct (token_shape _ Hm) as (bo & Hbo & _ & Hnb).
           destruct (token_starts_lbrace _ Hk) as (k' & ->).
           rewrite !sapp_cons in Hx. injection Hx as <- _.
           rewrite Hold, sapp_cons in Hbo. injection Hbo as _ Hbo.
           apply no_brace_not_lbrace in Hnb.
           assert (sforall not_lbrace (bo +:+ "}") = true) as Hall
             by (rewrite sforall_app, Hnb; reflexivity).
           rewrite <- Hbo, sforall_app in Hall. simpl in Hall.
           now rewrite andb_false_r in Hall.
      * right. apply (IH r (String c2 d) post Hlen). exact Hy.
  - cbn [Regex.findall_from]. rewrite M. destruct pre as [|c' pre].
    + rewrite sapp_nil_l in Ht. rewrite Ht, match_placeholder_at in M by exact Hk.
      discriminate.
    + rewrite sapp_cons in Ht. injection Ht as -> Ht.
      apply (IH t pre post); [simpl in Hn; lia | exact Ht].
Qed.

Lemma findall_placeholders_spec s ph :
  ph ∈ Regex.findall_placeholders s <-> is_token ph = true /\ PyStr.contains ph s = true.
Proof.
  split; [apply findall_from_token|].
  intros [Ht (pre & post & ->)%contains_split].
  now apply (findall_complete ph Ht (String.length (pre +:+ ph +:+ post)) _ pre post).
Qed.

End ScanComplete.

(** X29.  What the placeholder scan returns are exactly the placeholder
    tokens, an opening brace, characters other than braces, at least one, and
    a closing brace, that occur in the text of a paragraph of the headers,
    of the body or of the cells of their tables: each token that occurs is
    found, wherever it stands in the text and whatever stands around it. *)
Theorem scan_finds_every_token (doc : document) (ph : string) :
  ph ∈ find_placeholders_in_order doc
  <-> is_token ph = true
      /\ exists p, p ∈ scan_order doc /\ PyStr.contains ph (text p) = true.
Proof.
  rewrite find_placeholders_elem. unfold occurrences. split.
  - intros H. apply list_elem_of_In, in_flat_map in H as (p & Hp & H).
    apply list_elem_of_In in Hp, H. apply findall_placeholders_spec in H as [Ht Hc].
    split; [exact Ht | now exists p].
  - intros (Ht & p & Hp & Hc). apply list_elem_of_In, in_flat_map. exists p.
    split; apply list_elem_of_In; [exact Hp | now apply findall_placeholders_spec].
Qed.

(** X6.  [generate] completes the mapping of the request with
    [setdefault]: the entries of the request stay in front, as they are, and
    the placeholders of the template that the request does not name follow in
    the order of the scan, each with the empty value.  So a value the
    request gives is never replaced, and every placeholder of the template
    has a value. *)
Theorem mapping_completed (doc : document) (m : dict) :
  completed_mapping doc m
  = m ++ map (fun ph => (ph, EmptyString))
           (List.filter (fun ph => negb (dict_mem m ph)) (find_placeholders_in_order doc))
  /\ (forall key d,
        dict_mem m key = true -> dict_get (completed_mapping doc m) key d = dict_get m key d)
  /\ (forall ph d,
        ph ∈ find_placeholders_in_order doc -> dict_mem m ph = false ->
        dict_get (completed_mapping doc m) ph d = EmptyString)
  /\ (forall ph,
        ph ∈ find_placeholders_in_order doc -> dict_mem (completed_mapping doc m) ph = true).
Proof.
  split; [apply completed_mapping_eq|]. rewrite completed_mapping_eq.
  split; [|split].
  - intros key d Hk. now rewrite dict_get_app, Hk.
  - intros ph d Hph Hm. rewrite dict_get_app, Hm. apply dict_get_added.
    apply list_elem_of_In, filter_In. split; [now apply list_elem_of_In | now rewrite Hm].
  - intros ph Hph. rewrite dict_mem_app. destruct (dict_mem m ph) eqn:Hm; [reflexivity|].
    cbn [orb]. rewrite dict_mem_added. apply bool_decide_eq_true_2.
    apply list_elem_of_In, filter_In. split; [now apply list_elem_of_In | now rewrite Hm].
Qed.

(** X7.  When the keys of the request are placeholder tokens, each given
    once, a paragraph of the body of the template that holds a placeholder
    the request does not name is removed by the substitution: the completed
    mapping gives that placeholder the empty value. *)
Theorem missing_placeholder_removes_paragraph (doc : document) (m : dict)
    (p : paragraph) (ph : string) :
  Forall (fun kv => is_token (fst kv) = true) m ->
  NoDup (map fst m) ->
  p ∈ paragraphs (body doc) ->
  ph ∈ Regex.findall_placeholders (text p) ->
  dict_mem m ph = false ->
  replace_in_runs in_body p (completed_mapping doc m) true = Effect p true true
  /\ replace_in_blocks in_body (completed_mapping doc m) [BParagraph p] = [].
Proof.
  intros Htok Hnd Hp Hph Hm.
  assert (ph ∈ find_placeholders_in_order doc) as Hscan
    by (apply find_placeholders_elem; eapply body_occurrence; eauto).
  assert (replace_in_runs in_body p (completed_mapping doc m) true = Effect p true true) as E.
  { apply (replace_in_runs_removed in_body p _ eq_refl) with (k := ph).
    - rewrite completed_mapping_eq. apply Forall_app. split; [exact Htok|].
      apply Forall_forall. intros kv Hkv. apply list_elem_of_fmap in Hkv as (x & -> & Hx).
      apply list_elem_of_In, filter_In in Hx as [Hx _]. apply list_elem_of_In in Hx.
      cbn [fst]. apply (occurrences_token doc), find_placeholders_elem, Hx.
    - rewrite completed_mapping_eq, map_app, map_map. cbn [fst]. rewrite map_id.
      apply NoDup_app. split; [exact Hnd|]. split.
      + intros x Hx Hx'. apply list_elem_of_In, filter_In in Hx' as [_ Hx'].
        apply dict_mem_keys in Hx. now rewrite Hx in Hx'.
      + apply NoDup_ListNoDup, List.NoDup_filter, NoDup_ListNoDup, find_placeholders_NoDup.
    - rewrite completed_mapping_eq. apply elem_of_app. right.
      apply list_elem_of_fmap. exists ph. split; [reflexivity|].
      apply list_elem_of_In, filter_In. split; [now apply list_elem_of_In | now rewrite Hm].
    - now apply findall_from_token in Hph. }
  split; [exact E|]. unfold replace_in_blocks. cbn [flat_map]. now rewrite E.
Qed.

Lemma missing_placeholder_removes_paragraph_witness :
  replace_in_blocks in_body (completed_mapping doc_nom_date [("{nom}", "Durand")])
    [BParagraph par_nom_date] = [].
Proof.
  refine (proj2 (missing_placeholder_removes_paragraph doc_nom_date [("{nom}", "Durand")]
                   par_nom_date "{date}" _ _ _ _ _)).
  - repeat constructor.
  - by_compute.
  - left.
  - by_compute.
  - reflexivity.
Defined.

(** ** The default decisions *)

Section Defaults.

Implicit Types (ds : list string) (blocks pre rest : list block) (i : nat).

(** With the empty decision for every heading, the inner loop and the outer
    loop alike leave, from a heading on, the paragraphs that are not
    headings. *)
Lemma walk_all_empty ds blocks :
  (forall j d, nth_error ds j = Some d -> d = EmptyString) ->
  forall del i,
  i + count_headings blocks <= length ds ->
  (del = true \/ at_heading blocks) ->
  walk ds del blocks i = (List.filter plain blocks, None).
Proof.
  intros all_empty.
  induction blocks as [|b blocks IH]; intros del i Hc Hd; [reflexivity|].
  rewrite count_headings_cons in Hc. rewrite walk_cons. destruct b as [p|t].
  - cbn [is_heading_block List.filter plain] in *. destruct (is_heading p) eqn:Hp.
    + destruct (nth_error ds i) as [d|] eqn:E; [|apply nth_error_None in E; lia].
      rewrite (all_empty i d E). cbn [String.eqb KEEP_TITLE_ONLY PyStr.truthy negb].
      apply IH; [lia | now left].
    + destruct Hd as [->|Hd]; [|cbn in Hd; congruence].
      cbn [negb]. rewrite IH by (try lia; now left). reflexivity.
  - destruct Hd as [->|Hd]; [|cbn in Hd; discriminate].
    cbn [List.filter plain]. apply IH; [cbn [is_heading_block] in Hc; lia | now left].
Qed.

End Defaults.

Lemma default_phrase_blank (m : dict) :
  Forall (fun kv => fst kv <> EmptyString) m ->
  fill_with_mapping DEFAULT_ANALYSIS_TEMPLATE m = EmptyString.
Proof.
  unfold DEFAULT_ANALYSIS_TEMPLATE. induction 1 as [|[old new] m Hk _ IH]; [reflexivity|].
  rewrite fill_with_mapping_cons. cbn [fst] in Hk.
  destruct old as [|c old]; [congruence|]. exact IH.
Qed.

(** X8.  The default phrase is the empty template filled with the mapping:
    with no empty key in the mapping it is empty, and an empty decision
    deletes.  So the default decisions remove every heading of the body and
    every table from the first heading on; the blocks in front of the first
    heading and the other paragraphs stay, and nothing is inserted. *)
Theorem default_decisions_remove_headings (doc : document) (headings : list paragraph)
    (m : dict) (pre rest : list block) :
  Forall (fun kv => fst kv <> EmptyString) m ->
  count_headings (body doc) <= length headings ->
  body doc = pre ++ rest ->
  no_headings pre ->
  at_heading rest ->
  apply_heading_decisions doc (default_heading_decisions headings m)
  = (Document (sections doc) (pre ++ List.filter plain rest), None).
Proof.
  intros Hm Hc Hbody Hpre Hrest. rewrite apply_heading_decisions_walk, Hbody.
  set (ds := default_heading_decisions headings m).
  assert (length ds = length headings) as Hlen
    by (unfold ds, default_heading_decisions; apply length_map).
  assert (forall j d, nth_error ds j = Some d -> d = EmptyString) as Hall.
  { intros j d E. unfold ds, default_heading_decisions in E. rewrite nth_error_map in E.
    destruct (nth_error headings j); [|discriminate]. injection E as <-.
    now apply default_phrase_blank. }
  rewrite walk_stretch_kept by exact Hpre.
  rewrite (walk_all_empty ds rest Hall false 0); [reflexivity| |now right].
  rewrite Hbody, count_headings_app in Hc. cbn [Nat.add]. lia.
Qed.

Lemma default_decisions_remove_headings_witness :
  apply_heading_decisions doc_two_sections
    (default_heading_decisions (collect_headings_in_order doc_two_sections) map_nom_date)
  = (Document [] [BParagraph (texte "intro"); BParagraph (texte "note")], None).
Proof.
  refine (default_decisions_remove_headings doc_two_sections
            (collect_headings_in_order doc_two_sections) map_nom_date
            [BParagraph (texte "intro")]
            [BParagraph (titre "Mesures"); BTable (tableau "a"); BParagraph (texte "note");
             BTable (tableau "b");
             BParagraph (titre "Conclusion"); BTable (tableau "c")] _ _ _ _ _);
    first [reflexivity | by_compute | (vm_compute; lia)].
Defined.

(** ** Content blocks behind the headings *)

Section ContentFacts.

Variable fs : gmap string file.
Variable hc : gmap string (list ContentBlock).
Variable w : Q.

Implicit Types (blocks pre rest tbls : list block) (pending : list paragraph)
  (h p q : paragraph).

Lemma next_paragraph_app pre rest :
  next_paragraph (pre ++ rest)
  = match next_paragraph pre with
    | Some q => Some q
    | None => next_paragraph rest
    end.
Proof. induction pre as [|[p|t] pre IH]; [reflexivity | reflexivity | exact IH]. Qed.

Lemma next_paragraph_tables tbls : paragraphs tbls = [] -> next_paragraph tbls = None.
Proof. induction tbls as [|[p|t] tbls IH]; [reflexivity | discriminate | exact IH]. Qed.

(** The loop up to a heading does not depend on what follows that heading,
    and nothing waits when it gets there. *)
Lemma content_walk_at_heading h rest pre : forall pending,
  is_heading h = true ->
  content_walk fs hc w pending (pre ++ BParagraph h :: rest)
  = content_walk fs hc w pending pre ++ content_walk fs hc w [] (BParagraph h :: rest).
Proof.
  intros pending Hh. revert pending.
  induction pre as [|[p|t] pre IH]; intros pending.
  - cbn [app content_walk]. now rewrite Hh.
  - rewrite <- app_comm_cons.
    remember (content_walk fs hc w [] (BParagraph h :: rest)) as tail eqn:Et.
    cbn [content_walk]. destruct (is_heading p).
    + rewrite next_paragraph_app. destruct (next_paragraph pre) as [q|].
      * destruct (is_heading q); rewrite IH; cbn [app]; now rewrite <- ?app_assoc.
      * cbn [next_paragraph]. rewrite Hh, IH. cbn [app]. now rewrite <- app_assoc.
    + rewrite IH. cbn [app]. now rewrite <- app_assoc.
  - rewrite <- app_comm_cons.
    remember (content_walk fs hc w [] (BParagraph h :: rest)) as tail eqn:Et.
    cbn [content_walk]. now rewrite IH.
Qed.

Lemma content_walk_tables tbls rest : forall pending,
  paragraphs tbls = [] ->
  content_walk fs hc w pending (tbls ++ rest) = tbls ++ content_walk fs hc w pending rest.
Proof.
  intros pending. induction tbls as [|[p|t] tbls IH]; intros H; [reflexivity | discriminate|].
  rewrite <- !app_comm_cons. cbn [content_walk]. now rewrite IH.
Qed.

Lemma new_paragraph_plain t : is_heading (new_paragraph t) = false.
Proof. reflexivity. Qed.

Lemma block_paragraphs_plain (blocks : list ContentBlock) :
  Forall (fun p => style p = None) (block_paragraphs fs w blocks).
Proof.
  induction blocks as [|blk blocks IH]; [constructor|]. cbn [block_paragraphs].
  destruct (String.eqb (type_ blk) "text").
  { destruct (PyStr.truthy _); [constructor; [reflexivity | exact IH] | exact IH]. }
  destruct (String.eqb (type_ blk) "image"); [|exact IH].
  destruct (PyStr.truthy _); [|exact IH].
  destruct (negb (path_exists fs _)); [exact IH|].
  destruct (picture_ok fs _); [constructor; [reflexivity | exact IH]|].
  apply Forall_app. split; [exact IH | repeat constructor].
Qed.

Lemma unstyled_plain p : style p = None -> is_heading p = false.
Proof. unfold is_heading. now intros ->. Qed.

(** What the loop adds are paragraphs without a style; the blocks that were
    there stay, in their order. *)
Lemma content_walk_keeps blocks : forall pending,
  Forall (fun p => style p = None) pending ->
  blocks `sublist_of` content_walk fs hc w pending blocks
  /\ List.filter is_heading_block (content_walk fs hc w pending blocks)
     = List.filter is_heading_block blocks
  /\ tables (content_walk fs hc w pending blocks) = tables blocks.
Proof.
  assert (forall ps : list paragraph, Forall (fun p => style p = None) ps ->
            forall l : list block,
              List.filter is_heading_block (map BParagraph ps ++ l)
              = List.filter is_heading_block l
              /\ tables (map BParagraph ps ++ l) = tables l
              /\ l `sublist_of` map BParagraph ps ++ l) as Hins.
  { intros ps Hps l. induction Hps as [|p ps Hp _ (IH1 & IH2 & IH3)].
    - repeat split; reflexivity.
    - cbn [map app List.filter is_heading_block tables flat_map].
      rewrite (unstyled_plain p Hp). repeat split; [exact IH1 | exact IH2|].
      now apply sublist_cons. }
  induction blocks as [|[p|t] blocks IH]; intros pending Hp.
  - repeat split; reflexivity.
  - cbn [content_walk].
    pose proof (block_paragraphs_plain
                  (default [] (hc !! PyStr.strip (text p)))) as Hnew.
    assert (forall ps, Forall (fun p => style p = None) ps ->
      BParagraph p :: blocks
        `sublist_of` BParagraph p :: map BParagraph ps ++ content_walk fs hc w [] blocks
      /\ List.filter is_heading_block
           (BParagraph p :: map BParagraph ps ++ content_walk fs hc w [] blocks)
         = List.filter is_heading_block (BParagraph p :: blocks)
      /\ tables (BParagraph p :: map BParagraph ps ++ content_walk fs hc w [] blocks)
         = tables (BParagraph p :: blocks)) as Hdirect.
    { intros ps Hps. destruct (IH [] (Forall_nil_2 _)) as (I1 & I2 & I3).
      destruct (Hins ps Hps (content_walk fs hc w [] blocks)) as (J1 & J2 & J3).
      split; [|split].
      - apply sublist_skip. etransitivity; [exact I1 | exact J3].
      - cbn [List.filter]. rewrite J1, I2. reflexivity.
      - cbn [tables flat_map app]. fold (tables (map BParagraph ps ++ content_walk fs hc w [] blocks)).
        fold (tables blocks). now rewrite J2, I3. }
    destruct (is_heading p) eqn:Hh.
    + destruct (next_paragraph blocks) as [q|]; [|now apply Hdirect].
      destruct (is_heading q); [now apply Hdirect|].
      destruct (IH _ Hnew) as (I1 & I2 & I3). split; [|split].
      * now apply sublist_skip.
      * cbn [List.filter]. now rewrite I2.
      * cbn [tables flat_map app]. exact I3.
    + now apply Hdirect.
  - cbn [content_walk]. destruct (IH pending Hp) as (I1 & I2 & I3). split; [|split].
    + now apply sublist_skip.
    + cbn [List.filter is_heading_block]. exact I2.
    + cbn [tables flat_map app]. fold (tables (content_walk fs hc w pending blocks)).
      fold (tables blocks). now rewrite I3.
Qed.

End ContentFacts.

(** X9.  Take a heading [h] of the body for which [heading_content] has
    blocks, the tables that follow it, and what comes next.  The paragraphs
    made of the blocks are put in one stretch: right behind the heading when
    the next paragraph of the body is a heading or when there is none, in
    front of the tables that follow the heading; and otherwise behind that
    next paragraph, which is taken for the phrase of the heading, after the
    tables that stand between the two. *)
Theorem content_blocks_placed (fs : gmap string file)
    (hc : gmap string (list ContentBlock)) (w : Q) (doc : document)
    (pre : list block) (h : paragraph) (tbls rest : list block)
    (blocks : list ContentBlock) :
  body doc = pre ++ BParagraph h :: tbls ++ rest ->
  is_heading h = true ->
  paragraphs tbls = [] ->
  hc !! PyStr.strip (text h) = Some blocks ->
  let new := map BParagraph (block_paragraphs fs w blocks) in
  let out := body (apply_heading_content_blocks fs hc w doc) in
  (at_heading rest ->
   out = content_walk fs hc w [] pre ++ BParagraph h :: new ++ tbls
         ++ content_walk fs hc w [] rest)
  /\ (forall q rest',
        rest = BParagraph q :: rest' -> is_heading q = false ->
        out = content_walk fs hc w [] pre ++ BParagraph h :: tbls ++ BParagraph q :: new
              ++ content_walk fs hc w [] rest').
Proof.
  intros Hbody Hh Htbls Hblocks new out.
  assert (out = content_walk fs hc w [] pre
                ++ content_walk fs hc w [] (BParagraph h :: tbls ++ rest)) as ->.
  { unfold out, apply_heading_content_blocks.
    rewrite bool_decide_eq_false_2 by (intros ->; now rewrite lookup_empty in Hblocks).
    cbn [body]. rewrite Hbody. now apply content_walk_at_heading. }
  cbn [content_walk]. rewrite Hh, Hblocks. cbn [default]. fold new.
  rewrite next_paragraph_app, (next_paragraph_tables tbls Htbls). split.
  - intros Hrest. f_equal.
    destruct rest as [|[q|t] rest']; [| |now cbn in Hrest].
    + cbn [next_paragraph]. now rewrite content_walk_tables.
    + cbn in Hrest. cbn [next_paragraph]. rewrite Hrest.
      now rewrite content_walk_tables.
  - intros q rest' -> Hq. cbn [next_paragraph]. rewrite Hq. f_equal.
    rewrite content_walk_tables by exact Htbls. cbn [content_walk]. now rewrite Hq.
Qed.

Lemma content_blocks_placed_witness :
  body (apply_heading_content_blocks ∅ content_mesures 3 doc_two_sections)
  = [BParagraph (texte "intro");
     BParagraph (titre "Mesures"); BTable (tableau "a"); BParagraph (texte "note");
     BParagraph (Paragraph None [RunText "Voir annexe."]);
     BTable (tableau "b");
     BParagraph (titre "Conclusion"); BTable (tableau "c")].
Proof.
  refine (proj2 (content_blocks_placed ∅ content_mesures 3 doc_two_sections
                   [BParagraph (texte "intro")] (titre "Mesures") [BTable (tableau "a")]
                   [BParagraph (texte "note"); BTable (tableau "b");
                    BParagraph (titre "Conclusion"); BTable (tableau "c")]
                   [{| type_ := "text"; content := Some "Voir annexe."; src := None;
                       width := None |}] _ _ _ _)
            (texte "note")
            [BTable (tableau "b"); BParagraph (titre "Conclusion"); BTable (tableau "c")]
            _ _);
    reflexivity.
Defined.

(** X10.  [apply_heading_content_blocks] only inserts: the headers are
    untouched, the blocks of the body stay in their order, the tables are the
    same, and so are the headings, since the paragraphs it adds have no
    style. *)
Theorem content_blocks_only_insert (fs : gmap string file)
    (hc : gmap string (list ContentBlock)) (w : Q) (doc : document) :
  sections (apply_heading_content_blocks fs hc w doc) = sections doc
  /\ body doc `sublist_of` body (apply_heading_content_blocks fs hc w doc)
  /\ List.filter is_heading_block (body (apply_heading_content_blocks fs hc w doc))
     = List.filter is_heading_block (body doc)
  /\ tables (body (apply_heading_content_blocks fs hc w doc)) = tables (body doc).
Proof.
  unfold apply_heading_content_blocks. case_bool_decide; [now repeat split|].
  cbn [sections body]. split; [reflexivity|].
  apply content_walk_keeps. constructor.
Qed.

(** ** Invariants of the heading decisions *)

Section DecisionFacts.

Implicit Types (ds extra : list string) (blocks : list block) (i : nat).

Lemma walk_surplus ds extra blocks : forall del i,
  i + count_headings blocks <= length ds ->
  walk (ds ++ extra) del blocks i = walk ds del blocks i.
Proof.
  induction blocks as [|b blocks IH]; intros del i H; [reflexivity|].
  rewrite count_headings_cons in H. rewrite !walk_cons. destruct b as [p|t].
  - cbn [is_heading_block] in H. destruct (is_heading p).
    + rewrite nth_error_app1 by lia.
      destruct (nth_error ds i) as [d|]; [|reflexivity].
      destruct (String.eqb d KEEP_TITLE_ONLY); [now rewrite IH by lia|].
      destruct (PyStr.truthy d); now rewrite IH by lia.
    + now rewrite IH by lia.
  - cbn [is_heading_block] in H. destruct del; now rewrite IH by lia.
Qed.


End DecisionFacts.

(** X11.  The decisions beyond the number of headings of the body are never
    read: with a decision for each heading of the body, more decisions
    behind them change nothing.  [generate] hands over one decision per
    heading that [collect_headings_in_order] lists, those of the cells of the
    tables included, which stand behind those of the body. *)
Theorem surplus_decisions_ignored (doc : document) (ds extra : list string) :
  count_headings (body doc) <= length ds ->
  apply_heading_decisions doc (ds ++ extra) = apply_heading_decisions doc ds.
Proof.
  intros H. rewrite !apply_heading_decisions_walk. now rewrite walk_surplus.
Qed.

Lemma surplus_decisions_ignored_witness :
  apply_heading_decisions doc_two_sections
    ([KEEP_TITLE_ONLY; "Conforme."] ++ ["Sans objet."; EmptyString])
  = apply_heading_decisions doc_two_sections [KEEP_TITLE_ONLY; "Conforme."].
Proof.
  apply (surplus_decisions_ignored doc_two_sections [KEEP_TITLE_ONLY; "Conforme."]).
  vm_compute. lia.
Defined.


(** ** Blank paragraphs *)

Section Blank.

Implicit Types (p : paragraph) (doc : document) (blocks : list block).






End Blank.


(** X14.  In a paragraph whose text contains "[[IMG", a marker whose key the
    map gives a path that is not empty is replaced as follows when
    [process_document] calls [apply_images_at_markers], that is without
    texts around the images.  When the path holds an image, the marker gives
    one run with the picture, as wide as the size given for the key and, when
    none or zero is given, as wide as the default.  When the path holds
    something else, the empty run made for the picture stays and the
    annotation [[[IMG:key - ERREUR]]] follows it. *)
Theorem resolved_markers (fs : gmap string file) (images : gmap string string)
    (width_inches : Q) (sizes : gmap string Q)
    (p : paragraph) (l1 : list string) (chunk : string) (l2 : list string)
    (path : string) :
  PyStr.contains "[[IMG" (text p) = true ->
  Regex.split_markers (text p) = l1 ++ chunk :: l2 ->
  Nat.odd (length l1) = true ->
  images !! PyStr.strip chunk = Some path ->
  path <> EmptyString ->
  let key := PyStr.strip chunk in
  let out := markers_in_paragraph fs images width_inches sizes ∅ p in
  let before := map clear_run (runs p) ++ part_runs fs images width_inches sizes ∅ 0 l1 in
  let after := part_runs fs images width_inches sizes ∅ (S (length l1)) l2 in
  (fs !! path = Some Image ->
   runs out
   = before ++ [RunPicture path (width_or (sizes !! key) width_inches)] ++ after)
  /\ (forall f, fs !! path = Some f -> f <> Image ->
      runs out
      = before ++ [RunText EmptyString; RunText ("[[IMG:" +:+ key +:+ " - ERREUR]]")]
        ++ after).
Proof.
  intros Hc Hsplit Hodd Hk Hpath key out before after.
  assert (runs out
          = before ++ marker_runs fs images width_inches sizes ∅ chunk ++ after) as E.
  { unfold out, markers_in_paragraph. fold (text p). rewrite Hc, Hsplit. cbn [negb runs].
    rewrite part_runs_app. cbn [part_runs Nat.add].
    rewrite <- Nat.negb_odd, Hodd. cbn [negb]. unfold before. now rewrite <- app_assoc. }
  rewrite E. unfold marker_runs. cbv zeta. rewrite Hk.
  destruct path as [|c path]; [congruence|]. cbn [PyStr.truthy].
  rewrite lookup_empty. cbn [default]. unfold text_data_get. rewrite !lookup_empty.
  cbn [default String.eqb andb app]. unfold path_exists, picture_ok. split.
  - intros ->. cbn [String.eqb orb]. rewrite bool_decide_eq_true_2 by eauto. reflexivity.
  - intros f -> Hf. cbn [String.eqb orb]. rewrite bool_decide_eq_true_2 by eauto.
    now destruct f.
Qed.


Lemma resolved_markers_witness :
  runs (markers_in_paragraph fs_photo markers_photo 3 ∅ ∅ par_markers)
  = [RunText EmptyString; RunText EmptyString; RunText "Voir ";
     RunText "[[IMG:graphique]]"; RunText " et ";
     RunPicture "uploads/photo.jpg" 3; RunText "."].
Proof.
  refine (proj1 (resolved_markers fs_photo markers_photo 3 ∅ par_markers
                   ["Voir "; "graphique"; " et "] "photo" ["."] "uploads/photo.jpg"
                   _ _ _ _ _) _);
    first [reflexivity | discriminate].
Defined.

(** ** The scan of the markers *)

Section MarkerScan.

Implicit Types (doc : document) (s : string).

Lemma note_markers_fold (ps : list paragraph) st :
  fold_left note_markers ps st
  = fold_left note_placeholder (flat_map (fun p => findall_markers (text p)) ps) st.
Proof. unfold note_markers. apply fold_left_flat_map. Qed.

Lemma note_header_markers_fold header st :
  note_header_markers st header
  = fold_left note_markers
      (paragraphs header ++ flat_map table_paragraphs (tables header)) st.
Proof.
  unfold note_header_markers, table_paragraphs. rewrite fold_left_app.
  rewrite <- (fold_left_flat_map note_markers). apply fold_left_ext. intros st' t.
  rewrite <- (fold_left_flat_map note_markers). apply fold_left_ext. intros st'' r.
  now rewrite <- (fold_left_flat_map note_markers (fun c : cell => c)).
Qed.

Lemma find_image_markers_fold doc :
  find_image_markers_in_order doc
  = snd (fold_left note_placeholder (marker_occurrences doc) (∅, [])).
Proof.
  unfold find_image_markers_in_order, marker_occurrences, scan_order, iter_all_paragraphs.
  rewrite (fold_left_ext _ _ (fun st header => note_header_markers_fold header st)).
  rewrite (fold_left_flat_map note_markers).
  rewrite <- fold_left_app, note_markers_fold. do 2 f_equal.
  rewrite map_app, map_map, map_id. f_equal.
  assert (forall ts : list table,
    map snd (flat_map (fun t => map (fun p => (in_cell in_body, p)) (table_paragraphs t)) ts)
    = flat_map table_paragraphs ts) as E.
  { intros ts. induction ts as [|t ts IH]; simpl; [reflexivity|].
    now rewrite map_app, map_map, map_id, IH. }
  now rewrite E.
Qed.

Lemma find_image_markers_eq doc :
  find_image_markers_in_order doc = first_occurrences (marker_occurrences doc).
Proof.
  rewrite find_image_markers_fold.
  destruct (note_placeholder_fold (marker_occurrences doc) ∅ []) as (seen' & -> & _).
  - intros y. rewrite elem_of_nil. set_solver.
  - cbn [snd app]. apply filter_not_in_nil.
Qed.


End MarkerScan.

(** X16.  The scan of the image markers returns the keys of the markers of
    the document without repetition, each at the place of its first
    occurrence in the order of the placeholder scan: per section the header
    paragraphs and then the cells of the header tables, then the body
    paragraphs, then the cells of the body tables. *)
Theorem find_image_markers_first_occurrence (doc : document) :
  find_image_markers_in_order doc = first_occurrences (marker_occurrences doc)
  /\ NoDup (find_image_markers_in_order doc)
  /\ (forall key, key ∈ find_image_markers_in_order doc <-> key ∈ marker_occurrences doc).
Proof.
  rewrite find_image_markers_eq. split; [reflexivity|]. split.
  - apply first_occurrences_NoDup.
  - intros key. apply first_occurrences_elem.
Qed.


(** X18.  The scan lists the markers of the headers, but
    [apply_images_at_markers] goes through the body only: whatever the map
    of the images, the headers come out as they went in, markers
    included. *)
Theorem header_markers_stay (fs : gmap string file) (images : gmap string string)
    (w : Q) (sizes : gmap string Q) (texts : gmap string (gmap string string))
    (doc : document) :
  sections (apply_images_at_markers fs images w sizes texts doc) = sections doc
  /\ (forall header p key,
        header ∈ sections doc ->
        p ∈ paragraphs header ++ flat_map table_paragraphs (tables header) ->
        key ∈ findall_markers (text p) ->
        key ∈ find_image_markers_in_order doc).
Proof.
  split.
  - unfold apply_images_at_markers. now case_bool_decide.
  - intros header p key Hh Hp Hk. rewrite find_image_markers_eq.
    apply first_occurrences_elem. unfold marker_occurrences, scan_order.
    apply list_elem_of_In, in_flat_map. exists p. split; [|now apply list_elem_of_In].
    apply in_or_app. left. apply in_flat_map. exists header.
    split; now apply list_elem_of_In.
Qed.

Lemma header_markers_stay_witness :
  "logo" ∈ find_image_markers_in_order doc_header_marker
  /\ sections (apply_images_at_markers fs_photo {["logo" := "uploads/photo.jpg"]} 3 ∅ ∅
                 doc_header_marker)
     = [[BParagraph (texte "Logo [[IMG:logo]]")]].
Proof.
  split.
  - refine (proj2 (header_markers_stay fs_photo {["logo" := "uploads/photo.jpg"]} 3 ∅ ∅
                     doc_header_marker)
              [BParagraph (texte "Logo [[IMG:logo]]")] (texte "Logo [[IMG:logo]]") "logo"
              _ _ _).
    + left.
    + left.
    + by_compute.
  - reflexivity.
Defined.

(** ** The dialogue *)

Section Dialogue.

Implicit Types (headings : list paragraph) (m : dict) (stdin rest used : list string)
  (decisions : list string) (idx fuel : nat).

(** A question reads one line or two. *)
Lemma prompt_phrase_reads title m stdin res rest :
  prompt_phrase_for_heading title m stdin = Some (res, rest) ->
  exists used, stdin = used ++ rest /\ 0 < length used.
Proof.
  unfold prompt_phrase_for_heading. destruct stdin as [|line stdin]; [discriminate|].
  cbn [input]. destruct (String.eqb _ "b").
  { intros [= <- <-]. exists [line]. split; [reflexivity | cbn; lia]. }
  destruct (String.eqb _ "1").
  { destruct stdin as [|phrase stdin]; [discriminate|]. cbn [input].
    intros [= <- <-]. exists [line; phrase]. split; [reflexivity | cbn; lia]. }
  destruct (String.eqb _ "3").
  { intros [= <- <-]. exists [line]. split; [reflexivity | cbn; lia]. }
  destruct (_ || _); intros [= <- <-]; exists [line]; (split; [reflexivity | cbn; lia]).
Qed.

(** The loop keeps one decision per heading passed, none of them the token
    of the way back, and ends when the headings or the input end. *)
Lemma decisions_loop_total headings m fuel : forall idx decisions stdin,
  length stdin < fuel ->
  length decisions = idx ->
  idx <= length headings ->
  Forall (fun d => d <> BACK_TOKEN) decisions ->
  exists r,
    decisions_loop fuel headings m idx decisions stdin = Some r
    /\ match r with
       | inl (ds, rest) =>
           length ds = length headings
           /\ Forall (fun d => d <> BACK_TOKEN) ds
           /\ exists used, stdin = used ++ rest
       | inr e => e = EOFError
       end.
Proof.
  induction fuel as [|fuel IH]; intros idx decisions stdin Hf Hlen Hidx Hds; [lia|].
  cbn [decisions_loop]. destruct (nth_error headings idx) as [heading|] eqn:E.
  2:{ apply nth_error_None in E. exists (inl (decisions, stdin)).
      split; [reflexivity|]. split; [lia|]. split; [exact Hds | now exists []]. }
  destruct (prompt_phrase_for_heading _ m stdin) as [[res stdin']|] eqn:P.
  2:{ exists (inr EOFError). now split. }
  apply prompt_phrase_reads in P as (used & -> & Hused).
  rewrite length_app in Hf.
  assert (forall r,
    match r with
    | inl (ds, rest) =>
        length ds = length headings /\ Forall (fun d => d <> BACK_TOKEN) ds
        /\ exists used', stdin' = used' ++ rest
    | inr e => e = EOFError
    end ->
    match r with
    | inl (ds, rest) =>
        length ds = length headings /\ Forall (fun d => d <> BACK_TOKEN) ds
        /\ exists used', used ++ stdin' = used' ++ rest
    | inr e => e = EOFError
    end) as Hshift.
  { intros [[ds rest]|e]; [|easy]. intros (H1 & H2 & used' & ->).
    split; [exact H1|]. split; [exact H2|]. exists (used ++ used'). now rewrite app_assoc. }
  destruct (String.eqb_spec res BACK_TOKEN) as [->|Hres].
  - destruct idx as [|idx'].
    + destruct (IH 0 decisions stdin') as (r & -> & Hr); [lia | exact Hlen | lia | exact Hds|].
      exists r. split; [reflexivity | now apply Hshift].
    + destruct decisions as [|d l]; [discriminate|].
      assert (d :: l <> []) as Hne by discriminate.
      pose proof (app_removelast_last d Hne) as El.
      destruct (IH idx' (removelast (d :: l)) stdin') as (r & -> & Hr).
      * lia.
      * rewrite El, length_app in Hlen. cbn [length] in Hlen. lia.
      * lia.
      * rewrite El in Hds. now apply Forall_app in Hds as [Hds _].
      * exists r. split; [reflexivity | now apply Hshift].
  - rewrite (proj2 (Nat.ltb_ge idx (length decisions))) by lia.
    destruct (IH (S idx) (decisions ++ [res]) stdin') as (r & -> & Hr).
    + lia.
    + rewrite length_app. cbn. lia.
    + apply Nat.le_succ_l. apply nth_error_Some. now rewrite E.
    + apply Forall_app. split; [exact Hds | now repeat constructor].
    + exists r. split; [reflexivity | now apply Hshift].
Qed.

(** One turn of the loop. *)
Lemma decisions_loop_turn fuel headings m idx decisions stdin :
  decisions_loop (S fuel) headings m idx decisions stdin
  = match nth_error headings idx with
    | None => Some (inl (decisions, stdin))
    | Some heading =>
        match prompt_phrase_for_heading (PyStr.strip (text heading)) m stdin with
        | None => Some (inr EOFError)
        | Some (res, stdin) =>
            if String.eqb res BACK_TOKEN then
              match idx with
              | S idx' =>
                  match decisions with
                  | [] => Some (inr PopFromEmptyList)
                  | _ :: _ => decisions_loop fuel headings m idx' (removelast decisions) stdin
                  end
              | O => decisions_loop fuel headings m idx decisions stdin
              end
            else
              decisions_loop fuel headings m (S idx)
                (if idx <? length decisions then <[idx := res]> decisions
                 else decisions ++ [res]) stdin
        end
    end.
Proof. reflexivity. Qed.

(** More fuel than the loop needs changes nothing. *)
Lemma decisions_loop_fuel headings m fuel : forall fuel' idx decisions stdin r,
  decisions_loop fuel headings m idx decisions stdin = Some r ->
  fuel <= fuel' ->
  decisions_loop fuel' headings m idx decisions stdin = Some r.
Proof.
  induction fuel as [|fuel IH]; intros fuel' idx decisions stdin r H Hf; [discriminate|].
  destruct fuel' as [|fuel']; [lia|]. cbn [decisions_loop] in *.
  destruct (nth_error headings idx) as [heading|]; [|exact H].
  destruct (prompt_phrase_for_heading _ m stdin) as [[res stdin']|]; [|exact H].
  destruct (String.eqb res BACK_TOKEN).
  - destruct idx as [|idx']; [apply IH; [exact H | lia]|].
    destruct decisions as [|d decisions]; [exact H|]. apply IH; [exact H | lia].
  - apply IH; [exact H | lia].
Qed.

Lemma collect_from headings m stdin fuel :
  length stdin < fuel ->
  decisions_loop fuel headings m 0 [] stdin = collect_heading_decisions headings m stdin.
Proof.
  intros Hf. unfold collect_heading_decisions.
  destruct (decisions_loop_total headings m (S (length stdin)) 0 [] stdin)
    as (r & E & _); [lia | reflexivity | lia | constructor|].
  rewrite E. apply (decisions_loop_fuel _ _ _ _ _ _ _ _ E). lia.
Qed.

End Dialogue.

(** X19.  [collect_heading_decisions] ends on every input: it returns one
    decision per heading, none of them the token of the way back, having
    read a first part of the input, or it raises [EOFError] because the
    input ended.  Its [decisions.pop()] never meets an empty list. *)
Theorem collect_heading_decisions_ends (headings : list paragraph) (m : dict)
    (stdin : list string) :
  exists r,
    collect_heading_decisions headings m stdin = Some r
    /\ match r with
       | inl (ds, rest) =>
           length ds = length headings
           /\ Forall (fun d => d <> BACK_TOKEN) ds
           /\ exists used, stdin = used ++ rest
       | inr e => e = EOFError
       end.
Proof.
  apply decisions_loop_total; [lia | reflexivity | lia | constructor].
Qed.

(** X20.  Going back.  At the first heading the answer "b" is passed over:
    the dialogue goes on as if it had not been typed.  Right behind the
    answer to the first heading, when there is a second heading, it takes
    that answer back: the dialogue goes on as if neither had been typed. *)
Theorem back_steps (headings : list paragraph) (m : dict) (line : string)
    (rest : list string) :
  lower (PyStr.strip line) = "b" ->
  (1 <= length headings ->
   collect_heading_decisions headings m (line :: rest)
   = collect_heading_decisions headings m rest)
  /\ (forall title answer res,
        2 <= length headings ->
        prompt_phrase_for_heading title m (answer ++ line :: rest)
        = Some (res, line :: rest) ->
        res <> BACK_TOKEN ->
        collect_heading_decisions headings m (answer ++ line :: rest)
        = collect_heading_decisions headings m rest).
Proof.
  intros Hb.
  assert (forall title, prompt_phrase_for_heading title m (line :: rest)
                        = Some (BACK_TOKEN, rest)) as Hback.
  { intros title. unfold prompt_phrase_for_heading. cbn [input]. now rewrite Hb. }
  split.
  - intros Hn. destruct headings as [|h0 hs]; [cbn in Hn; lia|].
    unfold collect_heading_decisions at 1. rewrite decisions_loop_turn.
    cbn [nth_error]. rewrite Hback. rewrite String.eqb_refl.
    apply collect_from. cbn [length]. lia.
  - intros title answer res Hn Hp Hres.
    destruct headings as [|h0 [|h1 hs]]; [cbn in Hn; lia | cbn in Hn; lia|].
    pose proof (prompt_phrase_reads _ _ _ _ _ Hp) as (used & Hu & Hlen).
    apply app_inv_tail in Hu. subst used.
    unfold collect_heading_decisions at 1.
    destruct (length (answer ++ line :: rest)) as [|n] eqn:En.
    { rewrite length_app in En. cbn [length] in En. lia. }
    rewrite decisions_loop_turn. cbn [nth_error].
    change (prompt_phrase_for_heading (PyStr.strip (text h0)) m (answer ++ line :: rest))
      with (prompt_phrase_for_heading title m (answer ++ line :: rest)).
    rewrite Hp. apply String.eqb_neq in Hres. rewrite Hres.
    cbn [length Nat.ltb Nat.leb app]. rewrite decisions_loop_turn. cbn [nth_error].
    rewrite Hback, String.eqb_refl. cbn [removelast].
    apply collect_from. rewrite length_app in En. cbn [length] in En. lia.
Qed.

Lemma back_steps_witness :
  collect_heading_decisions [titre "A"; titre "B"] [] ["3"; " B "; "1"; "Conforme."; "2"]
  = collect_heading_decisions [titre "A"; titre "B"] [] ["1"; "Conforme."; "2"].
Proof.
  refine (proj2 (back_steps [titre "A"; titre "B"] [] " B " ["1"; "Conforme."; "2"] _)
            "A" ["3"] EmptyString _ _ _).
  - reflexivity.
  - cbn. lia.
  - reflexivity.
  - discriminate.
Defined.

(** X21.  The default phrase is the empty template filled with the mapping,
    which is empty when no key of the mapping is: then every answer but "b"
    and "1", so "2", the empty line that stands for "2", "3" and anything
    else, gives the empty decision, the one that removes the heading and the
    tables behind it. *)
Theorem default_choice_deletes (title : string) (m : dict) (line : string)
    (rest : list string) :
  Forall (fun kv => fst kv <> EmptyString) m ->
  lower (PyStr.strip line) <> "b" ->
  lower (PyStr.strip line) <> "1" ->
  prompt_phrase_for_heading title m (line :: rest) = Some (EmptyString, rest).
Proof.
  intros Hm Hb H1. unfold prompt_phrase_for_heading. cbn [input].
  apply String.eqb_neq in Hb, H1. rewrite Hb, H1, (default_phrase_blank m Hm).
  destruct (String.eqb _ "3"); [reflexivity|]. now destruct (_ || _).
Qed.

Lemma default_choice_deletes_witness :
  prompt_phrase_for_heading "Mesures" map_nom_date [EmptyString; "3"]
  = Some (EmptyString, ["3"]).
Proof.
  apply (default_choice_deletes "Mesures" map_nom_date EmptyString ["3"]).
  - repeat constructor; discriminate.
  - discriminate.
  - discriminate.
Defined.

Section Prompt.

Implicit Types (m mapping : dict) (placeholders stdin : list string).

Lemma dict_set_fresh m key value :
  key ∉ map fst m -> dict_set m key value = m ++ [(key, value)].
Proof.
  induction m as [|[k v] m IH]; intros H; [reflexivity|].
  cbn [dict_set app]. cbn [map fst] in H. apply not_elem_of_cons in H as [Hne H].
  destruct (String.eqb_spec k key) as [->|_]; [congruence|]. now rewrite IH.
Qed.

Lemma prompt_values_reads placeholders : forall mapping stdin,
  NoDup placeholders ->
  (forall ph, ph ∈ placeholders -> ph ∉ map fst mapping) ->
  prompt_values placeholders mapping stdin
  = if length placeholders <=? length stdin
    then Some (mapping ++ combine placeholders stdin, drop (length placeholders) stdin)
    else None.
Proof.
  induction placeholders as [|ph phs IH]; intros mapping stdin Hnd Hfresh.
  - cbn. now rewrite app_nil_r.
  - apply NoDup_cons in Hnd as [Hph Hnd]. cbn [prompt_values].
    destruct stdin as [|value stdin]; [reflexivity|]. cbn [input length combine drop].
    rewrite dict_set_fresh by (apply Hfresh; left).
    rewrite IH; [| exact Hnd |].
    + change (S (length phs) <=? S (length stdin)) with (length phs <=? length stdin).
      destruct (length phs <=? length stdin); [|reflexivity].
      now rewrite <- app_assoc.
    + intros x Hx. rewrite map_app. cbn [map fst]. rewrite elem_of_app, list_elem_of_singleton.
      intros [H| ->]; [|contradiction]. apply (Hfresh x); [now right | exact H].
Qed.

End Prompt.

(** X22.  For placeholders without repetition, as the scan gives them,
    [prompt_placeholders] reads one line per placeholder and maps each
    placeholder to its line, in the order of the placeholders; the lines
    typed are taken as they are, blanks included.  When the input has fewer
    lines than there are placeholders, it raises [EOFError]. *)
Theorem prompt_placeholders_reads (placeholders stdin : list string) :
  NoDup placeholders ->
  (length placeholders <= length stdin ->
   prompt_placeholders placeholders stdin
   = Some (combine placeholders stdin, drop (length placeholders) stdin))
  /\ (length stdin < length placeholders ->
      prompt_placeholders placeholders stdin = None).
Proof.
  intros Hnd.
  assert (prompt_placeholders placeholders stdin
          = if length placeholders <=? length stdin
            then Some (combine placeholders stdin, drop (length placeholders) stdin)
            else None) as E.
  { unfold prompt_placeholders. destruct placeholders as [|ph phs]; [reflexivity|].
    rewrite prompt_values_reads; [reflexivity | exact Hnd|].
    intros x _. cbn. apply not_elem_of_nil. }
  rewrite E. split; intros H.
  - now rewrite (proj2 (Nat.leb_le _ _)).
  - now rewrite (proj2 (Nat.leb_gt _ _)).
Qed.

Lemma prompt_placeholders_reads_witness :
  prompt_placeholders ["{nom}"; "{date}"] ["Durand"; " "; "2"]
  = Some ([("{nom}", "Durand"); ("{date}", " ")], ["2"]).
Proof.
  apply (proj1 (prompt_placeholders_reads ["{nom}"; "{date}"] ["Durand"; " "; "2"]
                  ltac:(by_compute))).
  cbn. lia.
Defined.

(** ** Uploaded files *)

Section Uploads.

Implicit Types (name cur s : string).

Lemma split_slash_plain name : forall cur,
  sforall (fun c => negb (Ascii.eqb c "/"%char)) name = true ->
  split_slash cur name = [cur +:+ name].
Proof.
  induction name as [|c name IH]; intros cur H; [now rewrite sapp_nil_r|].
  cbn [sforall] in H. apply andb_true_iff in H as [Hc H]. cbn [split_slash].
  apply negb_true_iff in Hc. rewrite Hc, IH by exact H.
  now rewrite sapp_assoc.
Qed.

Lemma path_name_from_plain name : forall cur,
  sforall (fun c => negb (Ascii.eqb c "/"%char)) name = true ->
  path_name_from cur name = cur +:+ name.
Proof.
  induction name as [|c name IH]; intros cur H; [now rewrite sapp_nil_r|].
  cbn [sforall] in H. apply andb_true_iff in H as [Hc H]. cbn [path_name_from].
  apply negb_true_iff in Hc. rewrite Hc, IH by exact H.
  now rewrite sapp_assoc.
Qed.

Lemma Path_plain name : plain_name name -> Path name = PurePath EmptyString [name].
Proof.
  intros (Hne & Hdot & Hs). unfold Path. rewrite split_slash_plain by exact Hs.
  rewrite sapp_nil_l. cbn [List.filter].
  destruct (String.eqb_spec name EmptyString) as [->|_]; [congruence|].
  destruct (String.eqb_spec name ".") as [->|_]; [congruence|]. cbn [negb andb].
  destruct name as [|c name]; [congruence|]. cbn [sforall] in Hs.
  apply andb_true_iff in Hs as [Hc _]. apply negb_true_iff in Hc.
  unfold PyStr.startswith. rewrite !prefix_cons.
  destruct (decide ("/"%char = c)) as [<-|_]; [discriminate | reflexivity].
Qed.

Lemma upload_dest_plain name :
  plain_name name ->
  path_str (path_div (Path UPLOAD_DIR) (Path name)) = UPLOAD_DIR +:+ "/" +:+ name.
Proof. intros H. now rewrite (Path_plain name H). Qed.

Lemma resolve_uploaded name :
  plain_name name -> resolve_path ("/uploads/" +:+ name) = UPLOAD_DIR +:+ "/" +:+ name.
Proof.
  intros (Hne & _ & Hs). unfold resolve_path, PyStr.startswith.
  rewrite prefix_app. do 2 f_equal.
  change ("/uploads/" +:+ name)
    with (String "/" (String "u" (String "p" (String "l" (String "o" (String "a"
            (String "d" (String "s" (String "/" name))))))))).
  cbn [path_name_from Ascii.eqb Bool.eqb].
  rewrite path_name_from_plain by exact Hs. now destruct name.
Qed.

Lemma sforall_substring (f : ascii -> bool) s : forall n,
  sforall f s = true -> sforall f (String.substring 0 n s) = true.
Proof.
  induction s as [|c s IH]; intros [|n] H; try reflexivity.
  cbn [sforall] in H. apply andb_true_iff in H as [Hc H].
  cbn [String.substring sforall]. now rewrite Hc, IH.
Qed.

Lemma stem_plain name :
  plain_name name -> plain_name (path_stem (Path name) +:+ ".jpg").
Proof.
  intros H. pose proof H as (Hne & Hdot & Hs). rewrite (Path_plain name H).
  unfold path_stem, path_name. cbn [path_parts List.last].
  set (stem := match rfind_dot name with
               | Some i =>
                   if (0 <? i) && (i <? String.length name - 1)
                   then String.substring 0 i name else name
               | None => name
               end).
  assert (sforall (fun c => negb (Ascii.eqb c "/"%char)) stem = true) as Hstem.
  { unfold stem. destruct (rfind_dot name) as [i|]; [|exact Hs].
    destruct (_ && _); [now apply sforall_substring | exact Hs]. }
  split; [now destruct stem|]. split.
  - destruct stem as [|c [|c' stem']]; discriminate.
  - now rewrite sforall_app, Hstem.
Qed.

End Uploads.

(** X23.  For an upload whose file name is one component of a path, the
    "path" [upload_image] answers is resolved by [generate], through
    [resolve_path], to the very path the upload was stored at: once the
    file is written there, the image of a marker or of a content block
    given by that "path" exists, and it can be embedded when what was stored
    is a picture python-docx reads, as the JPEG made of a HEIC upload is. *)
Theorem upload_then_resolve (filename : string) (contents : upload_bytes)
    (r : upload_result) :
  plain_name filename ->
  upload_image filename contents = inl r ->
  resolve_path (web_path r) = dest r
  /\ (forall fs : gmap string file,
        path_exists (<[dest r := stored r]> fs) (resolve_path (web_path r)) = true)
  /\ (stored r = Image ->
      forall fs : gmap string file,
        picture_ok (<[dest r := stored r]> fs) (resolve_path (web_path r)) = true)
  /\ (PyStr.endswith (lower filename) ".heic" = true -> stored r = Image).
Proof.
  intros Hplain Hup.
  assert (resolve_path (web_path r) = dest r
          /\ (PyStr.endswith (lower filename) ".heic" = true -> stored r = Image)) as [E Hh].
  { unfold upload_image in Hup. destruct Hplain as (Hne & Hdot & Hs).
    destruct filename as [|c filename]; [congruence|]. cbn [PyStr.truthy negb] in Hup.
    set (name := String c filename) in *.
    assert (plain_name name) as Hplain by now split.
    destruct (PyStr.endswith (lower name) ".heic" || PyStr.endswith (lower name) ".heif")
      eqn:Hheic.
    - destruct contents; try discriminate; injection Hup as <-;
        cbn [web_path dest stored];
        (split; [|reflexivity]);
        now rewrite resolve_uploaded, upload_dest_plain by now apply stem_plain.
    - injection Hup as <-. cbn [web_path dest stored]. split.
      + now rewrite resolve_uploaded, upload_dest_plain.
      + intros Hc. rewrite Hc in Hheic. discriminate. }
  rewrite E. split; [reflexivity|]. split; [|split; [|exact Hh]].
  - intros fs. unfold path_exists. rewrite lookup_insert_eq.
    rewrite bool_decide_eq_true_2 by eauto. apply orb_true_r.
  - intros Hi fs. unfold picture_ok. now rewrite lookup_insert_eq, Hi.
Qed.

Lemma upload_then_resolve_witness :
  resolve_path "/uploads/IMG_0001.jpg" = "uploads/IMG_0001.jpg".
Proof.
  refine (proj1 (upload_then_resolve "IMG_0001.HEIC" Readable
                   {| dest := "uploads/IMG_0001.jpg"; stored := Image;
                      web_path := "/uploads/IMG_0001.jpg" |} _ _)).
  - repeat split; discriminate.
  - reflexivity.
Defined.


(** ** Requests that leave the decisions out *)

Section NoDecisions.

Implicit Types (fs : gmap string file) (doc : document) (m : dict)
  (ds : list string) (blocks : list block).

Lemma split_first_heading blocks :
  exists pre rest, blocks = pre ++ rest /\ no_headings pre /\ at_heading rest.
Proof.
  induction blocks as [|b blocks (pre & rest & -> & Hpre & Hrest)].
  - exists [], []. repeat split. constructor.
  - destruct (is_heading_block b) eqn:Hb.
    + exists [], (b :: pre ++ rest). repeat split; [constructor | exact Hb].
    + exists (b :: pre), rest. repeat split; [now constructor | exact Hrest].
Qed.

Lemma no_headings_count blocks : no_headings blocks <-> count_headings blocks = 0.
Proof.
  induction blocks as [|b blocks IH]; [split; [reflexivity | constructor]|].
  rewrite count_headings_cons. split.
  - intros H. inversion H as [|? ? Hb Hbs]; subst. rewrite Hb. now apply IH.
  - intros H. destruct (is_heading_block b) eqn:Hb; [lia|].
    constructor; [exact Hb | apply IH; lia].
Qed.

Lemma plain_no_headings blocks : no_headings (List.filter plain blocks).
Proof.
  induction blocks as [|[p|t] blocks IH]; [constructor| |exact IH].
  cbn [List.filter plain]. destruct (is_heading p) eqn:Hp; [exact IH|].
  constructor; [exact Hp | exact IH].
Qed.

Lemma no_headings_filter (f : block -> bool) blocks :
  no_headings blocks -> no_headings (List.filter f blocks).
Proof.
  intros H. apply no_headings_count. apply no_headings_count in H.
  pose proof (count_headings_filter f blocks). lia.
Qed.

(** Without a heading the content blocks find no place. *)
Lemma content_walk_no_headings fs hc w blocks :
  no_headings blocks -> content_walk fs hc w [] blocks = blocks.
Proof.
  induction 1 as [|[p|t] blocks Hb _ IH]; [reflexivity| |].
  - cbn [content_walk]. cbn [is_heading_block] in Hb. rewrite Hb. cbn [map app].
    now rewrite IH.
  - cbn [content_walk]. now rewrite IH.
Qed.

Lemma markers_keep_headings fs im w sz texts doc :
  count_headings (body (apply_images_at_markers fs im w sz texts doc))
  = count_headings (body doc).
Proof.
  unfold apply_images_at_markers. case_bool_decide; [reflexivity|]. cbn [body].
  induction (body doc) as [|[p|t] blocks IH]; [reflexivity| |].
  - cbn [map]. rewrite !count_headings_cons, IH. cbn [is_heading_block].
    unfold markers_in_paragraph. now destruct (negb _).
  - cbn [map]. now rewrite !count_headings_cons, IH.
Qed.

(** With the empty decision for every heading the body comes out without
    any heading, and the content blocks play no part. *)
Lemma transform_all_empty fs doc mo ds hc im w sz :
  (forall j d, nth_error ds j = Some d -> d = EmptyString) ->
  count_headings (body doc) <= length ds ->
  transform fs doc mo (Some ds) hc im w sz = transform fs doc mo (Some ds) ∅ im w sz
  /\ snd (transform fs doc mo (Some ds) hc im w sz) = None
  /\ count_headings (body (fst (transform fs doc mo (Some ds) hc im w sz))) = 0.
Proof.
  intros Hall Hc. unfold transform. cbv zeta.
  match goal with
  | |- context [apply_heading_decisions ?d ds] =>
      set (prepared := d);
      assert (count_headings (body prepared) <= length ds) as Hp
        by (etransitivity; [apply prepared_headings | exact Hc])
  end.
  rewrite apply_heading_decisions_walk.
  destruct (split_first_heading (body prepared)) as (pre & rest & E & Hpre & Hrest).
  rewrite E, walk_stretch_kept by exact Hpre.
  rewrite (walk_all_empty ds rest Hall false 0);
    [| rewrite E, count_headings_app in Hp; cbn [Nat.add]; lia | now right].
  cbn [fst snd].
  assert (no_headings (body (remove_empty_paragraphs
                               (Document (sections prepared) (pre ++ List.filter plain rest)))))
    as Hnone.
  { unfold remove_empty_paragraphs. cbn [body]. apply no_headings_filter.
    apply Forall_app. split; [exact Hpre | apply plain_no_headings]. }
  assert (forall hc',
    apply_heading_content_blocks fs hc' w
      (remove_empty_paragraphs (Document (sections prepared) (pre ++ List.filter plain rest)))
    = remove_empty_paragraphs (Document (sections prepared) (pre ++ List.filter plain rest)))
    as Hsame.
  { intros hc'. unfold apply_heading_content_blocks. case_bool_decide; [reflexivity|].
    now rewrite content_walk_no_headings. }
  rewrite !Hsame. split; [reflexivity|]. split; [reflexivity|].
  rewrite markers_keep_headings. now apply no_headings_count.
Qed.

Lemma completed_keys doc m :
  Forall (fun kv => fst kv <> EmptyString) m ->
  Forall (fun kv => fst kv <> EmptyString) (completed_mapping doc m).
Proof.
  intros H. rewrite completed_mapping_eq. apply Forall_app. split; [exact H|].
  apply Forall_forall. intros kv Hkv. apply list_elem_of_fmap in Hkv as (x & -> & Hx).
  apply list_elem_of_In, filter_In in Hx as [Hx _]. apply list_elem_of_In in Hx.
  apply find_placeholders_elem, occurrences_token, token_starts_lbrace in Hx as [k' ->].
  discriminate.
Qed.

End NoDecisions.

(** X25.  A request that leaves the decisions out, with no empty key in
    its mapping, gets the default phrase for every heading, which is empty:
    every heading of the body is removed.  So the document written has no
    heading in its body, and the content blocks of the request, which go
    behind headings, are not used: the request gives what it gives without
    them. *)
Theorem no_decisions_no_headings (fs : gmap string file) (payload : GeneratePayload) :
  decisions payload = None ->
  Forall (fun kv => fst kv <> EmptyString) (mapping payload) ->
  generate fs payload = generate fs (without_content payload)
  /\ (forall resp,
        snd (generate fs payload) = inl resp ->
        exists doc,
          fst (generate fs payload) !! output resp = Some (Docx doc)
          /\ count_headings (body doc) = 0).
Proof.
  intros Hd Hm. unfold generate. cbn [without_content template overwrite mapping decisions
    heading_content images_at_markers image_width_inches images_at_markers_sizes].
  rewrite Hd. cbn [resolve_decisions].
  destruct (get_template_paths fs (template payload)) as [[[src out] key]|e];
    [|split; [reflexivity | intros resp [=]]].
  cbv zeta.
  set (fs0 := if overwrite payload && bool_decide (is_Some (fs !! out))
              then delete out fs else fs).
  destruct (load fs0 src) as [doc|] eqn:L; [|split; [reflexivity | intros resp [=]]].
  fold (completed_mapping doc (mapping payload)).
  set (m := completed_mapping doc (mapping payload)).
  set (ds := default_heading_decisions (collect_headings_in_order doc) m).
  assert (forall j d, nth_error ds j = Some d -> d = EmptyString) as Hall.
  { intros j d E. unfold ds, default_heading_decisions in E. rewrite nth_error_map in E.
    destruct (nth_error _ j); [|discriminate]. injection E as <-.
    apply default_phrase_blank. now apply completed_keys. }
  assert (count_headings (body doc) <= length ds) as Hc.
  { unfold ds, default_heading_decisions. rewrite length_map. apply headings_cover_body. }
  unfold process_document. rewrite L. rewrite fmap_empty.
  match goal with
  | |- context [transform fs0 doc ?mo (Some ds) ?hc ?im ?w ?sz] =>
      destruct (transform_all_empty fs0 doc mo ds hc im w sz Hall Hc) as (E & Hn & Hz);
      rewrite E in *;
      destruct (transform fs0 doc mo (Some ds) ∅ im w sz) as [doc' err]
  end.
  cbn [fst snd] in Hn, Hz. subst err. split; [reflexivity|].
  cbn [fst snd]. intros resp [= <-]. cbn [output]. exists doc'.
  split; [apply lookup_insert_eq | exact Hz].
Qed.

Lemma no_decisions_no_headings_witness :
  generate fs_one_template payload_content
  = generate fs_one_template (without_content payload_content).
Proof.
  apply (proj1 (no_decisions_no_headings fs_one_template payload_content eq_refl
                  (List.Forall_nil _))).
Defined.

(** ** Images behind the headings *)

Section ImagesAfterFacts.

Variable fs : gmap string file.
Variable images : gmap string string.
Variable w : Q.
Variable sizes : gmap string Q.
Variable texts : gmap string (gmap string string).

Implicit Types (blocks pre rest tbls : list block) (pending : list paragraph)
  (h p q : paragraph).

Lemma images_walk_at_heading h rest pre : forall pending,
  is_heading h = true ->
  images_walk fs images w sizes texts pending (pre ++ BParagraph h :: rest)
  = images_walk fs images w sizes texts pending pre
    ++ images_walk fs images w sizes texts [] (BParagraph h :: rest).
Proof.
  intros pending Hh. revert pending.
  induction pre as [|[p|t] pre IH]; intros pending.
  - cbn [app images_walk]. now rewrite Hh.
  - rewrite <- app_comm_cons.
    remember (images_walk fs images w sizes texts [] (BParagraph h :: rest)) as tail eqn:Et.
    cbn [images_walk]. destruct (is_heading p).
    + rewrite next_paragraph_app. destruct (next_paragraph pre) as [q|].
      * destruct (is_heading q); rewrite IH; cbn [app]; now rewrite <- ?app_assoc.
      * cbn [next_paragraph]. rewrite Hh, IH. cbn [app]. now rewrite <- app_assoc.
    + rewrite IH. cbn [app]. now rewrite <- app_assoc.
  - rewrite <- app_comm_cons.
    remember (images_walk fs images w sizes texts [] (BParagraph h :: rest)) as tail eqn:Et.
    cbn [images_walk]. now rewrite IH.
Qed.

Lemma images_walk_tables tbls rest : forall pending,
  paragraphs tbls = [] ->
  images_walk fs images w sizes texts pending (tbls ++ rest)
  = tbls ++ images_walk fs images w sizes texts pending rest.
Proof.
  intros pending. induction tbls as [|[p|t] tbls IH]; intros H; [reflexivity | discriminate|].
  rewrite <- !app_comm_cons. cbn [images_walk]. now rewrite IH.
Qed.

(** When no heading gets a paragraph the loop changes nothing. *)
Lemma images_walk_idle blocks :
  (forall p, heading_image fs images w sizes texts p = []) ->
  images_walk fs images w sizes texts [] blocks = blocks.
Proof.
  intros Hidle. induction blocks as [|[p|t] blocks IH]; [reflexivity| |].
  - cbn [images_walk]. rewrite Hidle. cbn [map app]. rewrite IH.
    destruct (is_heading p); [|reflexivity].
    destruct (next_paragraph blocks) as [q|]; [|reflexivity]. now destruct (is_heading q).
  - cbn [images_walk]. now rewrite IH.
Qed.

End ImagesAfterFacts.

(** X26.  [apply_images_after_headings] and the image of a heading [h]
    whose stripped text is a key of the map.  What [insert_image_after]
    makes, the text in front when the position asks for it, then the
    paragraph of the picture, then the text behind when the position asks
    for that, goes in one stretch right behind the heading when the next
    paragraph of the body is a heading or when there is none; and otherwise
    behind that next paragraph, after the tables that stand between the
    two. *)
Theorem images_after_headings_placed (fs : gmap string file)
    (images : gmap string string) (w : Q) (sizes : gmap string Q)
    (texts : gmap string (gmap string string)) (doc : document)
    (pre : list block) (h : paragraph) (tbls rest : list block) :
  images <> ∅ ->
  body doc = pre ++ BParagraph h :: tbls ++ rest ->
  is_heading h = true ->
  paragraphs tbls = [] ->
  let new := map BParagraph (heading_image fs images w sizes texts h) in
  let out := body (apply_images_after_headings fs images w sizes texts doc) in
  (at_heading rest ->
   out = images_walk fs images w sizes texts [] pre ++ BParagraph h :: new ++ tbls
         ++ images_walk fs images w sizes texts [] rest)
  /\ (forall q rest',
        rest = BParagraph q :: rest' -> is_heading q = false ->
        out = images_walk fs images w sizes texts [] pre ++ BParagraph h :: tbls
              ++ BParagraph q :: new ++ images_walk fs images w sizes texts [] rest').
Proof.
  intros Hne Hbody Hh Htbls new out.
  assert (out = images_walk fs images w sizes texts [] pre
                ++ images_walk fs images w sizes texts [] (BParagraph h :: tbls ++ rest)) as ->.
  { unfold out, apply_images_after_headings. rewrite bool_decide_eq_false_2 by exact Hne.
    cbn [body]. rewrite Hbody. now apply images_walk_at_heading. }
  cbn [images_walk]. rewrite Hh. fold new.
  rewrite next_paragraph_app, (next_paragraph_tables tbls Htbls). split.
  - intros Hrest. f_equal.
    destruct rest as [|[q|t] rest']; [| |now cbn in Hrest].
    + cbn [next_paragraph]. now rewrite images_walk_tables.
    + cbn in Hrest. cbn [next_paragraph]. rewrite Hrest.
      now rewrite images_walk_tables.
  - intros q rest' -> Hq. cbn [next_paragraph]. rewrite Hq. f_equal.
    rewrite images_walk_tables by exact Htbls. cbn [images_walk]. now rewrite Hq.
Qed.

Lemma images_after_headings_placed_witness :
  body (apply_images_after_headings fs_photo images_conclusion 3 ∅ texts_conclusion
          doc_two_sections)
  = [BParagraph (texte "intro");
     BParagraph (titre "Mesures"); BTable (tableau "a"); BParagraph (texte "note");
     BTable (tableau "b");
     BParagraph (titre "Conclusion");
     BParagraph (Paragraph None [RunText "Figure 1 :"]);
     BParagraph (Paragraph None [RunText EmptyString; RunPicture "uploads/photo.jpg" 3]);
     BTable (tableau "c")].
Proof.
  refine (proj1 (images_after_headings_placed fs_photo images_conclusion 3 ∅ texts_conclusion
                   doc_two_sections
                   [BParagraph (texte "intro");
                    BParagraph (titre "Mesures"); BTable (tableau "a");
                    BParagraph (texte "note"); BTable (tableau "b")]
                   (titre "Conclusion") [BTable (tableau "c")] [] _ _ _ _) _).
  - apply map_non_empty_singleton.
  - reflexivity.
  - reflexivity.
  - reflexivity.
  - exact I.
Defined.

(** X27.  An image whose file is missing is passed over in silence, with
    the texts that go with it: when no path of the map leads to a file,
    [apply_images_after_headings] leaves the document as it is. *)
Theorem images_after_headings_missing (fs : gmap string file)
    (images : gmap string string) (w : Q) (sizes : gmap string Q)
    (texts : gmap string (gmap string string)) (doc : document) :
  (forall key path, images !! key = Some path -> path_exists fs path = false) ->
  apply_images_after_headings fs images w sizes texts doc = doc.
Proof.
  intros Hmiss. unfold apply_images_after_headings. case_bool_decide; [reflexivity|].
  rewrite images_walk_idle; [now destruct doc|].
  intros p. unfold heading_image. cbv zeta.
  destruct (images !! PyStr.strip (text p)) as [img|] eqn:E; [|reflexivity].
  destruct (PyStr.truthy img); [|reflexivity].
  unfold insert_image_after. now rewrite (Hmiss _ _ E).
Qed.

Lemma images_after_headings_missing_witness :
  apply_images_after_headings ∅ images_conclusion 3 ∅ texts_conclusion doc_two_sections
  = doc_two_sections.
Proof.
  apply (images_after_headings_missing ∅ images_conclusion 3 ∅ texts_conclusion
           doc_two_sections).
  intros key path H. unfold images_conclusion in H.
  apply lookup_singleton_Some in H as [_ <-]. reflexivity.
Defined.


(** ** The model on small inputs *)

Example findall_placeholders_sample :
  Regex.findall_placeholders "Le {nom} du {date}, {} {{a}} {b{c}"
  = ["{nom}"; "{date}"; "{a}"; "{c}"].
Proof. reflexivity. Qed.

Example split_markers_sample :
  Regex.split_markers "voir [[IMG: graphique ]] et [[ IMG :x y]]."
  = ["voir "; "graphique"; " et "; "x y"; "."].
Proof. reflexivity. Qed.

Example split_markers_blank_key :
  Regex.split_markers "[[IMG: ]][[IMG:]]" = [EmptyString; " "; "[[IMG:]]"].
Proof. reflexivity. Qed.

Example replace_sample :
  PyStr.replace "aaa-{a}{a}" "aa" "b" = "ba-{a}{a}"
  /\ PyStr.replace "ab" EmptyString "x" = "xaxbx"
  /\ PyStr.replace "{a} et {a}" "{a}" EmptyString = " et "
  /\ PyStr.strip "  a b  " = "a b".
Proof. repeat split; reflexivity. Qed.

Example sim_keys_sample :
  sim_keys 3 = ["{operateur3}"; "{iccid3}"; "{imsi3}"; "{msisdn3}"; "{datesync3}"].
Proof. reflexivity. Qed.

(** A marker written with a blank behind the brackets matches the pattern,
    but its paragraph does not contain "[[IMG" and is passed over. *)
Example marker_with_leading_blank_is_skipped :
  Regex.split_markers "[[ IMG:photo]]" = [EmptyString; "photo"; EmptyString]
  /\ markers_in_paragraph ∅ markers_photo 3 ∅ ∅ (Paragraph None [RunText "[[ IMG:photo]]"])
     = Paragraph None [RunText "[[ IMG:photo]]"].
Proof. split; reflexivity. Qed.

(** The two headings of the sample body, one kept as it is and one given a
    phrase. *)
Example apply_heading_decisions_sample :
  apply_heading_decisions doc_two_sections [KEEP_TITLE_ONLY; "Conforme."]
  = (Document []
       [BParagraph (texte "intro");
        BParagraph (titre "Mesures"); BTable (tableau "a"); BParagraph (texte "note");
        BTable (tableau "b");
        BParagraph (titre "Conclusion"); BParagraph (Paragraph None [RunText "Conforme."]);
        BTable (tableau "c")],
     None).
Proof. reflexivity. Qed.

Example findall_markers_sample :
  findall_markers "voir [[IMG: graphique ]] et [[ IMG :x y]], [[IMG: ]][[IMG:]]"
  = ["graphique"; "x y"; " "].
Proof. reflexivity. Qed.

Example collect_heading_decisions_sample :
  collect_heading_decisions [titre "A"; titre "B"] []
    ["1"; "__BACK__"; "1"; " x "; "b"; "3"; "zz"]
  = Some (inl ([EmptyString; EmptyString], []))
  /\ collect_heading_decisions [titre "A"; titre "B"] [] ["1"; "Conforme."]
     = Some (inr EOFError).
Proof. split; reflexivity. Qed.

Example upload_image_sample :
  upload_image "IMG_0001.HEIC" Readable
  = inl {| dest := "uploads/IMG_0001.jpg"; stored := Image;
           web_path := "/uploads/IMG_0001.jpg" |}
  /\ upload_image "..heic" Embeddable
     = inl {| dest := "uploads/..jpg"; stored := Image; web_path := "/uploads/..jpg" |}
  /\ upload_image "photo.png" Readable
     = inl {| dest := "uploads/photo.png"; stored := Blob; web_path := "/uploads/photo.png" |}
  /\ upload_image "a//b/./c.png" Embeddable
     = inl {| dest := "uploads/a/b/c.png"; stored := Image;
              web_path := "/uploads/a//b/./c.png" |}
  /\ upload_image EmptyString Embeddable = inr (HTTPException 400)
  /\ upload_image "x.heif" Unreadable = inr (HTTPException 500).
Proof. repeat split; reflexivity. Qed.
